(** * ModuSnap ComfyUI manager: environment transaction engine,
      dependency reconciler, compatibility auditor and install orchestrator.

    A shallow embedding of the TypeScript sources (and of the Python
    reconciliation script they carry) together with the properties that
    the repository's specification states about them.

    Conventions.
    - A JavaScript / Python string is a Rocq [string]; every [ascii] is one
      code unit below 256 (Latin-1).  Code points above that range are out
      of the model.
    - External collaborators (the clock, the UUID generator, the Python
      interpreter of the virtualenv, the HTTP endpoints) are oracles: a
      [Host] instance for the server side, explicit outcome tables for the
      browser side. *)

From Stdlib Require Import Ascii String DecimalString.
From stdpp Require Import base decidable option list sorting gmap strings.

Local Open Scope string_scope.
Local Open Scope list_scope.

(** ** JavaScript string primitives *)

Module Js.

Definition code (c : ascii) : nat := nat_of_ascii c.

Definition in_range (lo hi : nat) (c : ascii) : bool :=
  (lo <=? code c)%nat && (code c <=? hi)%nat.

(** White space and line terminators that [String.prototype.trim] strips,
    restricted to code units below 256: TAB, LF, VT, FF, CR, SP, NBSP. *)
Definition is_space (c : ascii) : bool :=
  in_range 9 13 c || (code c =? 32)%nat || (code c =? 160)%nat.

Fixpoint trimStart (s : string) : string :=
  match s with
  | EmptyString => EmptyString
  | String c rest => if is_space c then trimStart rest else s
  end.

Fixpoint trimEnd (s : string) : string :=
  match s with
  | EmptyString => EmptyString
  | String c rest =>
      match trimEnd rest with
      | EmptyString => if is_space c then EmptyString else String c EmptyString
      | kept => String c kept
      end
  end.

Definition trim (s : string) : string := trimEnd (trimStart s).

Fixpoint all_chars (p : ascii -> bool) (s : string) : bool :=
  match s with
  | EmptyString => true
  | String c rest => p c && all_chars p rest
  end.

Definition is_empty (s : string) : bool :=
  match s with EmptyString => true | _ => false end.

(** [Array.prototype.join]. *)
Fixpoint join (sep : string) (parts : list string) : string :=
  match parts with
  | [] => ""
  | [p] => p
  | p :: rest => p +:+ sep +:+ join sep rest
  end.

(** [String.prototype.includes]. *)
Fixpoint includes (needle hay : string) : bool :=
  String.prefix needle hay ||
  match hay with
  | EmptyString => false
  | String _ rest => includes needle rest
  end.

(** [s.split(sep)] for a one-character separator; JavaScript and Python
    agree on it. *)
Fixpoint split (sep : ascii) (s : string) : list string :=
  match s with
  | EmptyString => [EmptyString]
  | String c rest =>
      if Ascii.eqb c sep then EmptyString :: split sep rest
      else match split sep rest with
           | [] => [String c EmptyString]
           | part :: parts => String c part :: parts
           end
  end.

(** Lower-casing of one code unit: A-Z and the Latin-1 capitals. *)
Definition lower_char (c : ascii) : ascii :=
  if in_range 65 90 c then ascii_of_nat (code c + 32)
  else if in_range 192 222 c && negb (code c =? 215)%nat
       then ascii_of_nat (code c + 32)
  else c.

Fixpoint toLowerCase (s : string) : string :=
  match s with
  | EmptyString => EmptyString
  | String c rest => String (lower_char c) (toLowerCase rest)
  end.

(** The order of [Array.prototype.sort] without a comparator, and of
    Python's [sorted], on strings: code unit by code unit. *)
Definition str_le (a b : string) : Prop := String.leb a b = true.

Global Instance str_le_dec a b : Decision (str_le a b).
Proof. unfold str_le. apply _. Defined.

(** The decimal text of a non-negative integer, as a template literal or
    Python's [str] renders it. *)
Definition show_nat (n : nat) : string := NilEmpty.string_of_uint (Nat.to_uint n).

(** Membership in a list of strings, as [Array.prototype.includes] and
    [Set.prototype.has] compute it on strings. *)
Definition mem (v : string) (l : list string) : bool :=
  existsb (String.eqb v) l.

(** A JavaScript [Set<string>] keeps insertion order; [add] of a present
    value changes nothing. *)
Definition set_add (out : list string) (v : string) : list string :=
  if mem v out then out else out ++ [v].

(** The values a JSON request body can put in an array of package names
    (numbers and nested objects are left out of the model). *)
Inductive value :=
  | VUndefined
  | VNull
  | VBool (b : bool)
  | VString (s : string).

Definition truthy (v : value) : bool :=
  match v with
  | VBool b => b
  | VString s => negb (is_empty s)
  | _ => false
  end.

(** [String(v)]. *)
Definition to_String (v : value) : string :=
  match v with
  | VUndefined => "undefined"
  | VNull => "null"
  | VBool true => "true"
  | VBool false => "false"
  | VString s => s
  end.

(** [a || b]. *)
Definition or_else (a b : value) : value := if truthy a then a else b.

(** An input of static type [unknown]: either not an array, or an array. *)
Inductive unknown :=
  | NotArray
  | IsArray (items : list value).

End Js.

(** ** The host: what the server-side code asks of its surroundings *)

(** Outcome of [spawnSync]: [sp_status] is [None] when the child was killed
    (time-out, signal), which JavaScript reports as [status: null]. *)
Record SpawnResult := {
  sp_status : option Z;
  sp_stdout : string;
  sp_stderr : string;
}.

(** The clock, the random source and the virtualenv's interpreter.  [Ext]
    is whatever state they carry; every call may change it. *)
Class Host := {
  Ext : Type;
  randomUUID : Ext -> string * Ext;
  nowIso : Ext -> string * Ext;
  spawnSync : string -> list string -> Ext -> SpawnResult * Ext;
}.

(** [path.join] on already normalised segments. *)
Definition path_join (parts : list string) : string := Js.join "/" parts.

(** ** Environment transactions (app/api/_lib/managerEnvEngine) *)

Module TxEngine.

Inductive EnvTxStatus := planned | running | succeeded | failed | rolled_back.

Inductive EnvTxKind := repair | install.

Definition EnvTxKind_str (k : EnvTxKind) : string :=
  match k with repair => "repair" | install => "install" end.

Definition EnvTxStatus_str (s : EnvTxStatus) : string :=
  match s with
  | planned => "planned"
  | running => "running"
  | succeeded => "succeeded"
  | failed => "failed"
  | rolled_back => "rolled_back"
  end.

Global Instance EnvTxStatus_eq_dec : EqDecision EnvTxStatus.
Proof. solve_decision. Defined.

Global Instance EnvTxKind_eq_dec : EqDecision EnvTxKind.
Proof. solve_decision. Defined.

(** A field declared [f?: T | null]: left out, [null], or a value. *)
Inductive field (A : Type) :=
  | Absent
  | Null
  | Present (a : A).
Arguments Absent {A}.
Arguments Null {A}.
Arguments Present {A} a.

Record EnvStep := {
  step_id : string;
  command : string;
  ok : bool;
  status_code : Z;
  output : string;
  startedAt : string;
  finishedAt : string;
}.

Record EnvTx := {
  id : string;
  kind : EnvTxKind;
  status : EnvTxStatus;
  createdAt : string;
  updatedAt : string;
  requestedPackages : list string;
  planCommands : list string;
  steps : list EnvStep;
  pipCheckOutput : option string;
  pipHealthy : option bool;
  rollbackOf : option string;
  snapshotBefore : field string;
  snapshotAfter : field string;
  error : field string;
}.

Definition MAX_TX : nat := 200.
Definition MAX_OUTPUT : nat := 12 * 1000.

(** What a file holds.  [StoreJson txs] is any text that [JSON.parse] turns
    into an object whose [transactions] member is the array [txs];
    [Raw text] is any other text. *)
Inductive FileContent :=
  | Raw (text : string)
  | StoreJson (txs : list EnvTx).

(** File-system and process effects, in the order the code issues them.
    [Rename] is [fs.renameSync]. *)
Inductive Effect :=
  | MkdirP (dir : string)
  | WriteFile (file : string) (content : FileContent)
  | Rename (src dst : string)
  | Spawn (program : string) (args : list string).

Section Engine.
Context `{host : Host}.
Variable backendDir : string.

Record World := {
  ext : Ext;
  disk : gmap string FileContent;
  log : list Effect;
}.

(** Computations over the world. *)
Definition M (A : Type) : Type := World -> A * World.

Definition ret {A} (a : A) : M A := fun w => (a, w).
Definition bind {A B} (m : M A) (k : A -> M B) : M B :=
  fun w => let '(a, w1) := m w in k a w1.

Notation "'let*' x ':=' m 'in' k" := (bind m (fun x => k))
  (at level 10, x name, m at level 100, k at level 200).

Definition emit (e : Effect) : M unit :=
  fun w => (tt, {| ext := ext w; disk := disk w; log := log w ++ [e] |}).

Definition existsSync (p : string) : M bool :=
  fun w => (bool_decide (is_Some (disk w !! p)), w).

Definition readFileSync (p : string) : M (option FileContent) :=
  fun w => (disk w !! p, w).

Definition mkdirSync (p : string) : M unit := emit (MkdirP p).

(** [fs.writeFileSync(p, c)]: the file at [p] itself is opened and
    overwritten. *)
Definition writeFileSync (p : string) (c : FileContent) : M unit :=
  fun w => (tt, {| ext := ext w; disk := <[p := c]> (disk w);
                   log := log w ++ [WriteFile p c] |}).

Definition lift_ext {A} (f : Ext -> A * Ext) : M A :=
  fun w => let '(a, e) := f (ext w) in
           (a, {| ext := e; disk := disk w; log := log w |}).

Definition envRoot : string :=
  path_join [backendDir; "user"; "modusnap_manager_env"].
Definition txStorePath : string := path_join [envRoot; "transactions.json"].
Definition snapshotsDir : string := path_join [envRoot; "snapshots"].

Definition ensureDirs : M unit :=
  let* _ := mkdirSync envRoot in mkdirSync snapshotsDir.

Definition readStore : M (list EnvTx) :=
  let* _ := ensureDirs in
  let* present := existsSync txStorePath in
  if present then
    let* raw := readFileSync txStorePath in
    match raw with
    | Some (StoreJson txs) => ret txs
    | _ => ret []
    end
  else ret [].

(** [arr.slice(-n)]. *)
Definition slice_last {A} (n : nat) (l : list A) : list A :=
  drop (length l - n) l.

Definition writeStore (transactions : list EnvTx) : M unit :=
  let* _ := ensureDirs in
  writeFileSync txStorePath (StoreJson (slice_last MAX_TX transactions)).

Definition venvPythonPath : string :=
  path_join [backendDir; "venv"; "bin"; "python"].

Definition runPython (args : list string) : M EnvStep :=
  let* started := lift_ext nowIso in
  let* have_python := existsSync venvPythonPath in
  if negb have_python then
    let* finished := lift_ext nowIso in
    let* sid := lift_ext randomUUID in
    ret {| step_id := sid;
           command := "python " +:+ Js.join " " args;
           ok := false;
           status_code := 1;
           output := "backend-comfyui/venv missing";
           startedAt := started;
           finishedAt := finished |}
  else
    let* _ := emit (Spawn venvPythonPath args) in
    let* proc := lift_ext (spawnSync venvPythonPath args) in
    let* finished := lift_ext nowIso in
    let out := Js.trim (sp_stdout proc +:+ sp_stderr proc) in
    let* sid := lift_ext randomUUID in
    ret {| step_id := sid;
           command := venvPythonPath +:+ " " +:+ Js.join " " args;
           ok := bool_decide (sp_status proc = Some 0%Z);
           status_code := default 1%Z (sp_status proc);
           output := String.substring 0 MAX_OUTPUT
                       (if Js.is_empty out then "(no output)" else out);
           startedAt := started;
           finishedAt := finished |}.

(** The character class of the specifier filter:
    [A-Za-z0-9_.\-<>=!~\[\],:@+/ ] (the last member is the space). *)
Definition spec_char (c : ascii) : bool :=
  Js.in_range 65 90 c || Js.in_range 97 122 c || Js.in_range 48 57 c ||
  Js.includes (String c EmptyString) "_.-<>=!~[],:@+/ ".

(** [/^[...]+$/.test(value)]. *)
Definition spec_ok (value : string) : bool :=
  negb (Js.is_empty value) && Js.all_chars spec_char value.

(** [String(item || '').trim()]. *)
Definition item_text (item : Js.value) : string :=
  Js.trim (Js.to_String (Js.or_else item (Js.VString ""))).

Definition sanitize_step (out : list string) (item : Js.value) : list string :=
  let value := item_text item in
  if Js.is_empty value then out
  else if negb (spec_ok value) then out
  else Js.set_add out value.

Definition sanitizePackages (input : Js.unknown) : list string :=
  match input with
  | Js.NotArray => []
  | Js.IsArray items => fold_left sanitize_step items []
  end.

Definition writeFreezeSnapshot (tag : string) : M (field string) :=
  let* freezeStep := runPython ["-m"; "pip"; "freeze"] in
  if negb (ok freezeStep) then ret Null
  else
    let file := path_join [snapshotsDir; tag +:+ ".txt"] in
    let* _ := writeFileSync file (Raw (output freezeStep)) in
    ret (Present file).

(** [findIndex((tx) => tx.id === id)]. *)
Fixpoint findIndex (wanted : string) (txs : list EnvTx) : option nat :=
  match txs with
  | [] => None
  | tx :: rest =>
      if String.eqb (id tx) wanted then Some 0
      else S <$> findIndex wanted rest
  end.

(** What [findTx] hands back besides the store: the first transaction with
    the wanted id and its index. *)
Definition locate (wanted : string) (txs : list EnvTx) : option (EnvTx * nat) :=
  match findIndex wanted txs with
  | None => None
  | Some index =>
      match txs !! index with
      | Some tx => Some (tx, index)
      | None => None
      end
  end.

Definition findTx (wanted : string) : M (list EnvTx * option (EnvTx * nat)) :=
  let* store := readStore in
  ret (store, locate wanted store).

Definition buildPlan (k : EnvTxKind) (requested : list string) : list string :=
  ["python -m pip install -r requirements.txt";
   "python -m pip install -r manager_requirements.txt"]
  ++ (match k, requested with
      | install, _ :: _ => ["python -m pip install " +:+ Js.join " " requested]
      | _, _ => []
      end)
  ++ ["python -m pip check"].

Record PlanInput := {
  mode : option string;
  packages : Js.unknown;
}.

Definition createPlan (input : PlanInput) : M EnvTx :=
  let mode := if bool_decide (mode input = Some "install") then install else repair in
  let requested := sanitizePackages (packages input) in
  let* txid := lift_ext randomUUID in
  let* created := lift_ext nowIso in
  let* updated := lift_ext nowIso in
  let tx := {| id := txid; kind := mode; status := planned;
               createdAt := created; updatedAt := updated;
               requestedPackages := requested;
               planCommands := buildPlan mode requested;
               steps := [];
               pipCheckOutput := None; pipHealthy := None; rollbackOf := None;
               snapshotBefore := Absent; snapshotAfter := Absent;
               error := Null |} in
  let* store := readStore in
  let* _ := writeStore (store ++ [tx]) in
  ret tx.

(** What the two mutating operations hand back: [{ok: false, status, error}]
    or [{ok: true, status: 200, transaction}]. *)
Inductive Outcome :=
  | Refused (http_status : nat) (message : string)
  | Done (transaction : EnvTx).

Definition set_running (tx : EnvTx) (now : string) (before : field string) : EnvTx :=
  {| id := id tx; kind := kind tx; status := running;
     createdAt := createdAt tx; updatedAt := now;
     requestedPackages := requestedPackages tx;
     planCommands := planCommands tx; steps := steps tx;
     pipCheckOutput := pipCheckOutput tx; pipHealthy := pipHealthy tx;
     rollbackOf := rollbackOf tx;
     snapshotBefore := before; snapshotAfter := snapshotAfter tx;
     error := Null |}.

Definition set_finished (tx : EnvTx) (ran : list EnvStep) (pipCheck : EnvStep)
    (after : field string) (now : string) : EnvTx :=
  {| id := id tx; kind := kind tx;
     status := if ok pipCheck then succeeded else failed;
     createdAt := createdAt tx; updatedAt := now;
     requestedPackages := requestedPackages tx;
     planCommands := planCommands tx; steps := steps tx ++ ran;
     pipCheckOutput := Some (output pipCheck); pipHealthy := Some (ok pipCheck);
     rollbackOf := rollbackOf tx;
     snapshotBefore := snapshotBefore tx; snapshotAfter := after;
     error := if ok pipCheck then Null
              else Present "pip check reported conflicts after apply." |}.

Definition applyTransaction (wanted : string) : M Outcome :=
  let* found := findTx wanted in
  match found with
  | (_, None) => ret (Refused 404 "Transaction not found.")
  | (store, Some (tx, index)) =>
      if negb (bool_decide (status tx = planned) || bool_decide (status tx = failed))
      then ret (Refused 409 ("Transaction is " +:+ EnvTxStatus_str (status tx)
                              +:+ "; only planned/failed can be applied."))
      else
        let* now := lift_ext nowIso in
        let* before := writeFreezeSnapshot (id tx +:+ "-before") in
        let tx1 := set_running tx now before in
        let store1 := <[index := tx1]> store in
        let* _ := writeStore store1 in
        let* s1 := runPython ["-m"; "pip"; "install"; "-r"; "requirements.txt"] in
        let* s2 := runPython ["-m"; "pip"; "install"; "-r"; "manager_requirements.txt"] in
        let* s3 := match kind tx1, requestedPackages tx1 with
                   | install, _ :: _ =>
                       let* s := runPython (["-m"; "pip"; "install"] ++ requestedPackages tx1) in
                       ret [s]
                   | _, _ => ret []
                   end in
        let* pipCheck := runPython ["-m"; "pip"; "check"] in
        let ran := [s1; s2] ++ s3 ++ [pipCheck] in
        let* after := writeFreezeSnapshot (id tx1 +:+ "-after") in
        let* now2 := lift_ext nowIso in
        let tx2 := set_finished tx1 ran pipCheck after now2 in
        let* _ := writeStore (<[index := tx2]> store1) in
        ret (Done tx2)
  end.

Definition rollbackTransaction (wanted : string) : M Outcome :=
  let* found := findTx wanted in
  match found with
  | (_, None) => ret (Refused 404 "Transaction not found.")
  | (store, Some (tx, _)) =>
      match snapshotBefore tx with
      | Present snap =>
          if Js.is_empty snap
          then ret (Refused 409 "No pre-apply snapshot found for this transaction.")
          else
          let* on_disk := existsSync snap in
          if negb on_disk
          then ret (Refused 409 "No pre-apply snapshot found for this transaction.")
          else
            let* rid := lift_ext randomUUID in
            let* created := lift_ext nowIso in
            let* updated := lift_ext nowIso in
            let* inst := runPython ["-m"; "pip"; "install"; "-r"; snap] in
            let* check := runPython ["-m"; "pip"; "check"] in
            let* after := writeFreezeSnapshot (rid +:+ "-after") in
            let* now := lift_ext nowIso in
            let rollbackTx :=
              {| id := rid; kind := repair;
                 status := if ok check then rolled_back else failed;
                 createdAt := created; updatedAt := now;
                 requestedPackages := [];
                 planCommands := ["python -m pip install -r <snapshot-before>";
                                  "python -m pip check"];
                 steps := [inst; check];
                 pipCheckOutput := Some (output check);
                 pipHealthy := Some (ok check);
                 rollbackOf := Some (id tx);
                 snapshotBefore := Present snap; snapshotAfter := after;
                 error := if ok check then Null
                          else Present "Rollback completed but pip check still reports conflicts." |} in
            let* _ := writeStore (store ++ [rollbackTx]) in
            ret (Done rollbackTx)
      | _ => ret (Refused 409 "No pre-apply snapshot found for this transaction.")
      end
  end.

(** The store as the next reader sees it. *)
Definition persisted (w : World) : list EnvTx := fst (readStore w).

(** [createPlan] called once per input, in order. *)
Fixpoint createPlans (inputs : list PlanInput) : M (list EnvTx) :=
  match inputs with
  | [] => ret []
  | input :: rest =>
      let* tx := createPlan input in
      let* txs := createPlans rest in
      ret (tx :: txs)
  end.

End Engine.

(** Write-new-then-rename, read off an effect sequence that updates
    [target]: some other file is written and later renamed onto [target],
    and [target] itself is never opened for writing. *)
Definition replaces_by_rename (target : string) (effects : list Effect) : Prop :=
  (exists tmp content,
      tmp <> target /\ WriteFile tmp content ∈ effects /\ Rename tmp target ∈ effects)
  /\ forall content, WriteFile target content ∉ effects.

End TxEngine.

(** ** A scripted host for closed examples *)

Module Demo.

(** The interpreter always exits with [exit_code] and prints [stdout];
    identifiers and time stamps are numbered by a counter. *)
Definition scripted (exit_code : Z) (stdout : string) : Host :=
  {| Ext := nat;
     randomUUID := fun n => ("uuid-" +:+ Js.show_nat n, S n);
     nowIso := fun n => ("time-" +:+ Js.show_nat n, S n);
     spawnSync := fun _ _ n =>
       ({| sp_status := Some exit_code; sp_stdout := stdout; sp_stderr := "" |}, S n) |}.

Definition healthy : Host := scripted 0 "No broken requirements found.".
Definition broken : Host := scripted 1 "foo 1.0 requires bar, which is not installed.".

Definition backend : string := "/srv/backend-comfyui".

Definition fresh : @TxEngine.World healthy :=
  {| TxEngine.ext := (O : @Ext healthy); TxEngine.disk := ∅; TxEngine.log := [] |}.

(** The request of scenario E2. *)
Definition e2_input : TxEngine.PlanInput :=
  {| TxEngine.mode := Some "install";
     TxEngine.packages :=
       Js.IsArray [Js.VString "torch==2.4"; Js.VString "rm -rf /"; Js.VString "pillow"] |}.

Definition repair_input : TxEngine.PlanInput :=
  {| TxEngine.mode := Some "repair"; TxEngine.packages := Js.IsArray [] |}.

(** A transaction that was applied successfully, and a disk that holds it,
    its pre-apply snapshot and the interpreter. *)
Definition t1_snapshot : string :=
  path_join [TxEngine.snapshotsDir backend; "T1-before.txt"].

Definition t1 : TxEngine.EnvTx :=
  {| TxEngine.id := "T1"; TxEngine.kind := TxEngine.repair;
     TxEngine.status := TxEngine.succeeded;
     TxEngine.createdAt := "t0"; TxEngine.updatedAt := "t1";
     TxEngine.requestedPackages := []; 
     TxEngine.planCommands := TxEngine.buildPlan TxEngine.repair [];
     TxEngine.steps := [];
     TxEngine.pipCheckOutput := Some "No broken requirements found.";
     TxEngine.pipHealthy := Some true; TxEngine.rollbackOf := None;
     TxEngine.snapshotBefore := TxEngine.Present t1_snapshot;
     TxEngine.snapshotAfter := TxEngine.Null;
     TxEngine.error := TxEngine.Null |}.

Definition after_e1 : @TxEngine.World healthy :=
  {| TxEngine.ext := (O : @Ext healthy);
     TxEngine.disk :=
       <[TxEngine.txStorePath backend := TxEngine.StoreJson [t1]]>
       (<[t1_snapshot := TxEngine.Raw "pillow==11.0.0"]>
       (<[TxEngine.venvPythonPath backend := TxEngine.Raw ""]> ∅));
     TxEngine.log := [] |}.

End Demo.

(** ** Compatibility preflight (app/api/manager/preflight/route.ts) *)

Module Auditor.

Record HardwareProfile := {
  profile : string;
  hasNvidia : bool;
  hasRocm : bool;
  isDarwinArm64 : bool;
}.

(** [marker] is the text of [<backend>/.torch_profile], [None] when the file
    does not exist. *)
Definition readHardwareProfile (marker : option string) : HardwareProfile :=
  match marker with
  | None => {| profile := "unknown"; hasNvidia := false; hasRocm := false;
               isDarwinArm64 := false |}
  | Some raw =>
      let profile := Js.trim raw in
      let lower := Js.toLowerCase profile in
      {| profile := profile;
         hasNvidia := Js.includes "nvidia:true" lower;
         hasRocm := Js.includes "rocm:true" lower;
         isDarwinArm64 := Js.includes "darwin-arm64" lower |}
  end.

(** A catalog item as the route reads it; [uiKey] is the member [__uiKey].
    A member that is missing is [None]. *)
Record CatalogItem := {
  ui_id : option string;
  uiKey : option string;
  id : option string;
  title : option string;
  author : option string;
  description : option string;
  repository : option string;
  reference : option string;
  files : option (list string);
}.

(** Truthiness of an optional string member. *)
Definition given (v : option string) : bool :=
  match v with
  | Some s => negb (Js.is_empty s)
  | None => false
  end.

(** [a || b || ... || last] over optional string members. *)
Fixpoint first_given (candidates : list (option string)) (last : string) : string :=
  match candidates with
  | [] => last
  | Some s :: rest => if Js.is_empty s then first_given rest last else s
  | None :: rest => first_given rest last
  end.

Definition getTextBlob (item : CatalogItem) : string :=
  let members :=
    [id item; title item; author item; description item; repository item;
     reference item] ++ (Some <$> default [] (files item)) in
  Js.toLowerCase (Js.join " " (omap (fun m => if given m then m else None) members)).

(** Case folding of a regular expression with the [i] flag and no [u] flag:
    only the letters A-Z and a-z are identified. *)
Definition fold_case_char (c : ascii) : ascii :=
  if Js.in_range 65 90 c then ascii_of_nat (Js.code c + 32) else c.

Fixpoint fold_case (s : string) : string :=
  match s with
  | EmptyString => EmptyString
  | String c rest => String (fold_case_char c) (fold_case rest)
  end.

(** [/(a1|a2|...)/i.test(text)] for literal lower-case alternatives. *)
Definition test_any (alternatives : list string) (text : string) : bool :=
  existsb (fun alt => Js.includes alt (fold_case text)) alternatives.

Definition cudaOnlyMarkers : list string :=
  ["cuda-only"; "requires cuda"; "nvidia-only"; "requires nvidia";
   "tensorrt required"; "triton required"].
Definition rocmOnlyMarkers : list string :=
  ["rocm-only"; "requires rocm"; "hip required"].
Definition cudaMarkers : list string := ["cuda"; "nvidia"; "tensorrt"; "cu12"; "cu11"].
Definition rocmMarkers : list string := ["rocm"; "hip"].
Definition darwinMarkers : list string :=
  ["xformers"; "triton"; "flash-attn"; "bitsandbytes"].

Inductive Decision := installable | warning | blocked.

Global Instance Decision_eq_dec : EqDecision Decision.
Proof. solve_decision. Defined.

Record PackDecision := {
  key : string;
  pack_title : string;
  decision : Decision;
  reasons : list string;
}.

(** The three consecutive [if] statements of [assessItem], each acting on
    the decision and the reasons gathered so far. *)
Definition cuda_stage (hw : HardwareProfile) (text : string)
    (acc : Decision * list string) : Decision * list string :=
  if negb (hasNvidia hw) && test_any cudaOnlyMarkers text then
    (blocked,
     snd acc ++ ["Pack appears to require NVIDIA/CUDA runtime and is marked as NVIDIA-only."])
  else if negb (hasNvidia hw) && test_any cudaMarkers text then
    (warning,
     snd acc ++ ["Pack metadata suggests NVIDIA/CUDA dependencies, but NVIDIA hardware is not detected."])
  else acc.

Definition rocm_stage (hw : HardwareProfile) (text : string)
    (acc : Decision * list string) : Decision * list string :=
  if negb (hasRocm hw) && test_any rocmOnlyMarkers text then
    (blocked,
     snd acc ++ ["Pack appears to require ROCm runtime and is marked as ROCm-only."])
  else if negb (hasRocm hw) && test_any rocmMarkers text then
    (if bool_decide (fst acc <> blocked) then warning else fst acc,
     snd acc ++ ["Pack metadata suggests ROCm dependencies, but ROCm hardware is not detected."])
  else acc.

Definition darwin_stage (hw : HardwareProfile) (text : string)
    (acc : Decision * list string) : Decision * list string :=
  if isDarwinArm64 hw && test_any darwinMarkers text then
    (if bool_decide (fst acc <> blocked) then warning else fst acc,
     snd acc ++ ["Pack may require binaries that are often unavailable on macOS ARM64."])
  else acc.

(** [now] is the decimal text of [Date.now()] at the call. *)
Definition assessItem (item : CatalogItem) (hw : HardwareProfile) (now : string)
    : PackDecision :=
  let text := getTextBlob item in
  let verdict :=
    darwin_stage hw text (rocm_stage hw text (cuda_stage hw text (installable, []))) in
  {| key := first_given [ui_id item; uiKey item; id item; title item; repository item]
              ("item_" +:+ now);
     pack_title := first_given [title item; id item] "Unknown pack";
     decision := fst verdict;
     reasons := snd verdict |}.

Record Summary := {
  total : nat;
  n_installable : nat;
  n_warning : nat;
  n_blocked : nat;
}.

Record PreflightReport := {
  report_mode : string;
  hardwareProfile : string;
  pipHealthy : bool;
  pipCheckOutput : string;
  summary : Summary;
  globalWarnings : list string;
  blockedKeys : list string;
  warningKeys : list string;
  perItem : list PackDecision;
  compact : bool;
}.

(** What the route reads besides the request: the hardware marker, the
    outcome of the baseline [pip check], and the clock at each item. *)
Record Server := {
  marker : option string;
  baseline_ok : bool;
  baseline_output : string;
  clock : nat -> string;
}.

Definition has_decision (d : Decision) (row : PackDecision) : bool :=
  bool_decide (decision row = d).

(** The [POST] handler: [inl] is the 400 answer to an empty batch. *)
Definition POST (srv : Server) (mode : option string) (items : list CatalogItem)
    : string + PreflightReport :=
  let mode := match mode with
              | Some m => if Js.is_empty m then "install" else m
              | None => "install"
              end in
  if bool_decide (length items = 0) then
    inl "No items provided for compatibility preflight."
  else
    let hw := readHardwareProfile (marker srv) in
    let perItem := imap (fun i item => assessItem item hw (clock srv i)) items in
    let warning_count := length (filter (fun row => has_decision warning row = true) perItem) in
    let blocked_count := length (filter (fun row => has_decision blocked row = true) perItem) in
    let isLargeBatch := bool_decide (600 < length items) in
    inr {| report_mode := mode;
           hardwareProfile := profile hw;
           pipHealthy := baseline_ok srv;
           pipCheckOutput := baseline_output srv;
           summary := {| total := length items;
                         n_installable := length perItem - warning_count - blocked_count;
                         n_warning := warning_count;
                         n_blocked := blocked_count |};
           globalWarnings :=
             (if baseline_ok srv then []
              else ["Current environment already has pip mismatches. Apply diagnostics fix before large installs."])
             ++ (if String.eqb mode "install" && bool_decide (20 < length items)
                 then ["Large install batch detected. Install in smaller chunks for faster rollback if one pack fails."]
                 else []);
           blockedKeys := key <$> filter (fun row => has_decision blocked row = true) perItem;
           warningKeys := key <$> filter (fun row => has_decision warning row = true) perItem;
           perItem := if isLargeBatch
                      then filter (fun row => has_decision installable row = false) perItem
                      else perItem;
           compact := isLargeBatch |}.

(** The decision table of the specification: a blocking rule beats a
    warning rule beats none. *)
Definition blocking_rule (hw : HardwareProfile) (text : string) : bool :=
  negb (hasNvidia hw) && test_any cudaOnlyMarkers text
  || negb (hasRocm hw) && test_any rocmOnlyMarkers text.

Definition warning_rule (hw : HardwareProfile) (text : string) : bool :=
  negb (hasNvidia hw) && test_any cudaMarkers text
  || negb (hasRocm hw) && test_any rocmMarkers text
  || isDarwinArm64 hw && test_any darwinMarkers text.

Definition table_decision (hw : HardwareProfile) (text : string) : Decision :=
  if blocking_rule hw text then blocked
  else if warning_rule hw text then warning
  else installable.

(** A rule other than the CUDA ones fires. *)
Definition other_rule_fires (hw : HardwareProfile) (text : string) : bool :=
  negb (hasRocm hw) && (test_any rocmOnlyMarkers text || test_any rocmMarkers text)
  || isDarwinArm64 hw && test_any darwinMarkers text.

(** Scenario E4. *)
Definition bare : CatalogItem :=
  {| ui_id := None; uiKey := None; id := None; title := None; author := None;
     description := None; repository := None; reference := None; files := None |}.

Definition e4_flash : CatalogItem :=
  {| ui_id := None; uiKey := None; id := None;
     title := Some "CUDA-only Flash Attention"; author := None;
     description := Some "requires cuda"; repository := None; reference := None;
     files := None |}.

Definition e4_standard : CatalogItem :=
  {| ui_id := None; uiKey := None; id := None;
     title := Some "Standard pack"; author := None;
     description := Some "pure python"; repository := None; reference := None;
     files := None |}.

Definition e4_server : Server :=
  {| marker := Some "darwin-arm64-nvidia:false-rocm:false";
     baseline_ok := true;
     baseline_output := "No broken requirements found.";
     clock := fun i => "17000000000" +:+ Js.show_nat i |}.

End Auditor.

(** ** Install session (app/page.tsx, the manager modal) *)

Module Orchestrator.

(** An entry of the manager catalog as the engine lists it. *)
Record ManagerCatalogItem := {
  item_id : option string;
  item_title : option string;
  item_author : option string;
  item_description : option string;
  item_repository : option string;
  item_reference : option string;
  item_files : option (list string);
}.

(** A row of [managerPackRows]. *)
Record Row := {
  key : string;
  row_title : string;
  action : string;
  item : ManagerCatalogItem;
}.

Inductive InstallItemStatus := pending | queued | done | failed | skipped.

Global Instance InstallItemStatus_eq_dec : EqDecision InstallItemStatus.
Proof. solve_decision. Defined.

Record InstallSessionItem := {
  item_key : string;
  title : string;
  selected : bool;
  status : InstallItemStatus;
  details : option string;
}.

Record InstallSessionState := {
  running : bool;
  total : nat;
  completed : nat;
  remaining : nat;
  currentChunk : nat;
  totalChunks : nat;
  items : list InstallSessionItem;
}.

(** [v || fallback] for an optional string member. *)
Definition or_text (v : option string) (fallback : string) : string :=
  match v with
  | Some s => if Js.is_empty s then fallback else s
  | None => fallback
  end.

Definition toCompatibilityPayload (row : Row) : Auditor.CatalogItem :=
  {| Auditor.ui_id := None;
     Auditor.uiKey := Some (key row);
     Auditor.id := Some (or_text (item_id (item row)) (key row));
     Auditor.title := Some (or_text (item_title (item row)) (key row));
     Auditor.author := Some (or_text (item_author (item row)) "");
     Auditor.description := Some (or_text (item_description (item row)) "");
     Auditor.repository := Some (or_text (item_repository (item row)) "");
     Auditor.reference := Some (or_text (item_reference (item row)) "");
     Auditor.files := Some (default [] (item_files (item row))) |}.

Definition isInstalledPackAction (action : string) : bool :=
  Js.mem action ["enabled"; "disabled"; "updatable"; "try-update"; "uninstall";
                 "import-fail"; "invalid-installation"].

Definition is_settled (s : InstallItemStatus) : bool :=
  match s with
  | done | failed | skipped => true
  | _ => false
  end.

Definition updateInstallItems (keys : list string) (st : InstallItemStatus)
    (note : option string) (prev : InstallSessionState) : InstallSessionState :=
  let items :=
    (fun it => if Js.mem (item_key it) keys
               then {| item_key := item_key it; title := title it;
                       selected := selected it; status := st; details := note |}
               else it)
    <$> items prev in
  let completed := length (filter (fun it => is_settled (status it) = true) items) in
  {| running := running prev; total := total prev;
     completed := completed;
     remaining := length items - completed;
     currentChunk := currentChunk prev; totalChunks := totalChunks prev;
     items := items |}.

Definition set_running (flag : bool) (prev : InstallSessionState) : InstallSessionState :=
  {| running := flag; total := total prev; completed := completed prev;
     remaining := remaining prev; currentChunk := currentChunk prev;
     totalChunks := totalChunks prev; items := items prev |}.

Definition start_run (n : nat) (prev : InstallSessionState) : InstallSessionState :=
  {| running := true; total := n; completed := 0; remaining := n;
     currentChunk := currentChunk prev; totalChunks := totalChunks prev;
     items := items prev |}.

Definition set_totalChunks (n : nat) (prev : InstallSessionState) : InstallSessionState :=
  {| running := running prev; total := total prev; completed := completed prev;
     remaining := remaining prev; currentChunk := currentChunk prev;
     totalChunks := n; items := items prev |}.

Definition set_currentChunk (n : nat) (prev : InstallSessionState) : InstallSessionState :=
  {| running := running prev; total := total prev; completed := completed prev;
     remaining := remaining prev; currentChunk := n;
     totalChunks := totalChunks prev; items := items prev |}.

(** What happens around the session while it runs.  [preflight_http] is
    whether the preflight request came back with a 2xx status;
    [compat_set_ok] and [snapshot_ok] whether the two preparation requests
    returned without throwing; [canceled k] is the cancel flag when chunk
    [k] is about to be queued; [batch_error k] is the message of the error
    thrown while queueing chunk [k], if any. *)
Record Surroundings := {
  server : Auditor.Server;
  preflight_http : bool;
  compat_set_ok : bool;
  snapshot_ok : bool;
  canceled : nat -> bool;
  batch_error : nat -> option string;
}.

(** What a run leaves behind: the session and the chunks handed to
    [runPackBatchAction], oldest first. *)
Record Run := {
  session : option InstallSessionState;
  submitted : list (list Row);
}.

(** [arr.slice(i, j)]. *)
Definition slice {A} (i j : nat) (l : list A) : list A := take (j - i) (drop i l).

(** The [for (let i = 0; i < rows.length; i += chunkSize)] loop; [fuel]
    bounds the number of iterations. *)
Fixpoint submit_loop (env : Surroundings) (chunkSize : nat) (rows : list Row)
    (fuel i : nat) (st : InstallSessionState) (sent : list (list Row))
    : InstallSessionState * list (list Row) :=
  match fuel with
  | O => (st, sent)
  | S fuel' =>
      if negb (i <? length rows)%nat then (st, sent)
      else
        let chunkIndex := (i / chunkSize + 1)%nat in
        if canceled env chunkIndex then (st, sent)
        else
          let chunk := slice i (i + chunkSize) rows in
          let chunkKeys := key <$> chunk in
          let st1 := set_currentChunk chunkIndex st in
          let st2 := updateInstallItems chunkKeys queued
                       (Some ("queued in chunk " +:+ Js.show_nat chunkIndex)) st1 in
          let st3 :=
            match batch_error env chunkIndex with
            | None =>
                updateInstallItems chunkKeys done
                  (Some ("queued successfully in chunk " +:+ Js.show_nat chunkIndex)) st2
            | Some message =>
                updateInstallItems chunkKeys failed
                  (Some (if Js.is_empty message then "chunk failed" else message)) st2
            end in
          submit_loop env chunkSize rows fuel' (i + chunkSize) st3 (sent ++ [chunk])
  end.

(** The keys that the session takes out of the install list. *)
Definition incompatibleKeys (report : Auditor.PreflightReport) : list string :=
  Auditor.key <$>
    filter (fun entry => Auditor.has_decision Auditor.installable entry = false)
           (Auditor.perItem report).

Definition skip_reason : string := "removed by compatibility preflight".

(** [executeInstallSession] up to the end of the queueing loop and its
    [finally]; the drain wait, the reboot and the post-install heal that
    follow touch neither the items nor the chunks.  Log lines and the
    banner text are left out. *)
Definition executeInstallSession (env : Surroundings)
    (installSession : option InstallSessionState) (managerPackRows : list Row) : Run :=
  match installSession with
  | None => {| session := None; submitted := [] |}
  | Some s0 =>
      if running s0 then {| session := Some s0; submitted := [] |}
      else
        let selectedKeys := item_key <$> filter (fun it => selected it = true) (items s0) in
        let candidateRows :=
          filter (fun row => isInstalledPackAction (action row) = false)
            (filter (fun row => Js.mem (key row) selectedKeys = true) managerPackRows) in
        if bool_decide (length candidateRows = 0)
        then {| session := Some s0; submitted := [] |}
        else
          let s1 := start_run (length candidateRows) s0 in
          let finish st sent := {| session := Some (set_running false st); submitted := sent |} in
          if negb (preflight_http env) then finish s1 []
          else
            match Auditor.POST (server env) (Some "install")
                    (toCompatibilityPayload <$> candidateRows) with
            | inl _ => finish s1 []
            | inr preflight =>
                let bad := incompatibleKeys preflight in
                let s2 := if bool_decide (0 < length bad)
                          then updateInstallItems bad skipped (Some skip_reason) s1
                          else s1 in
                let installableRows :=
                  filter (fun row => Js.mem (key row) bad = false) candidateRows in
                if bool_decide (length installableRows = 0) then finish s2 []
                else if negb (compat_set_ok env) then finish s2 []
                else if negb (snapshot_ok env) then finish s2 []
                else
                  let chunkSize := if bool_decide (200 < length installableRows)
                                   then 20 else 40 in
                  let totalChunks :=
                    ((length installableRows + chunkSize - 1) / chunkSize)%nat in
                  let s3 := set_totalChunks totalChunks s2 in
                  let '(s4, sent) :=
                    submit_loop env chunkSize installableRows
                      (length installableRows) 0 s3 [] in
                  finish s4 sent
            end
  end.

(** A two-row catalog for closed examples: the packs of scenario E4. *)
Definition plain (id_ descr : string) : ManagerCatalogItem :=
  {| item_id := Some id_; item_title := Some id_; item_author := None;
     item_description := Some descr; item_repository := None;
     item_reference := None; item_files := None |}.

Definition demo_rows : list Row :=
  [ {| key := "flash"; row_title := "CUDA-only Flash Attention"; action := "not-installed";
       item := plain "CUDA-only Flash Attention" "requires cuda" |};
    {| key := "nvtools"; row_title := "NV tools"; action := "not-installed";
       item := plain "NV tools" "uses cuda kernels when present" |};
    {| key := "standard"; row_title := "Standard pack"; action := "not-installed";
       item := plain "Standard pack" "pure python" |} ].

Definition demo_session : InstallSessionState :=
  {| running := false; total := 3; completed := 0; remaining := 3;
     currentChunk := 0; totalChunks := 0;
     items := (fun row => {| item_key := key row; title := row_title row;
                             selected := true; status := pending; details := None |})
              <$> demo_rows |}.

Definition demo_env : Surroundings :=
  {| server := Auditor.e4_server;
     preflight_http := true; compat_set_ok := true; snapshot_ok := true;
     canceled := fun _ => false;
     batch_error := fun _ => None |}.

End Orchestrator.

(** ** Version specifiers (the [packaging] library, as far as the
       reconciliation script relies on it) *)

Module Pep440.

(** White space as Python's [str.strip] and [\s] see it, below 256. *)
Definition is_space (c : ascii) : bool :=
  Js.in_range 9 13 c || Js.in_range 28 32 c
  || (Js.code c =? 133)%nat || (Js.code c =? 160)%nat.

Fixpoint lstrip (s : string) : string :=
  match s with
  | EmptyString => EmptyString
  | String c rest => if is_space c then lstrip rest else s
  end.

Fixpoint rstrip (s : string) : string :=
  match s with
  | EmptyString => EmptyString
  | String c rest =>
      match rstrip rest with
      | EmptyString => if is_space c then EmptyString else String c EmptyString
      | kept => String c kept
      end
  end.

Definition strip (s : string) : string := rstrip (lstrip s).

Definition is_digit (c : ascii) : bool := Js.in_range 48 57 c.

Fixpoint digits_value (acc : nat) (s : string) : nat :=
  match s with
  | EmptyString => acc
  | String c rest => digits_value (10 * acc + (Js.code c - 48)) rest
  end.

Definition parse_number (s : string) : option nat :=
  if Js.is_empty s then None
  else if Js.all_chars is_digit s then Some (digits_value 0 s)
  else None.

(** What a call into the library gives: a value, the exception that the
    script catches, or [Beyond] for a text that this model of the library
    does not cover.  The model covers versions that consist of a release
    segment ([1.15.3]); texts with an epoch, a pre-, post- or development
    release, a local label or a leading [v] are [Beyond], unless they are
    certainly malformed.  Whatever meets [Beyond] has no answer in the
    model, so no statement is made about it. *)
Inductive answer (A : Type) :=
  | Value (a : A)
  | Raised
  | Beyond.
Arguments Value {A} a.
Arguments Raised {A}.
Arguments Beyond {A}.

Record Version := { release : list nat }.

(** The segments of a text of the form [N(.N)*]. *)
Definition release_of (text : string) : option (list nat) :=
  mapM parse_number (Js.split "." text).

(** The characters that can occur in a version at all: letters, digits and
    [. _ - ! +]. *)
Definition version_char (c : ascii) : bool :=
  Js.in_range 65 90 c || Js.in_range 97 122 c || is_digit c
  || Js.includes (String c EmptyString) "._-!+".

(** [Version(text)]; [Raised] is [InvalidVersion].  A version starts with a
    digit or with [v], and has no character outside [version_char]; a text
    that breaks one of these rules is certainly invalid. *)
Definition parse (text : string) : answer Version :=
  let text := strip text in
  match release_of text with
  | Some segments => Value {| release := segments |}
  | None =>
      match text with
      | EmptyString => Raised
      | String c _ =>
          if negb (is_digit c || Ascii.eqb c "v" || Ascii.eqb c "V") then Raised
          else if negb (Js.all_chars version_char text) then Raised
          else Beyond
      end
  end.

(** [str(version)]. *)
Definition str (v : Version) : string :=
  Js.join "." (Js.show_nat <$> release v).

(** Versions compare by their release with trailing zeros dropped. *)
Fixpoint strip_zeros (l : list nat) : list nat :=
  match l with
  | [] => []
  | x :: rest =>
      match strip_zeros rest with
      | [] => if (x =? 0)%nat then [] else [x]
      | kept => x :: kept
      end
  end.

Fixpoint lex (a b : list nat) : comparison :=
  match a, b with
  | [], [] => Eq
  | [], _ :: _ => Lt
  | _ :: _, [] => Gt
  | x :: a', y :: b' =>
      match Nat.compare x y with
      | Eq => lex a' b'
      | other => other
      end
  end.

Definition cmp (v w : Version) : comparison :=
  lex (strip_zeros (release v)) (strip_zeros (release w)).

Definition eqv (v w : Version) : bool := if cmp v w is Eq then true else false.
Definition ltv (v w : Version) : bool := if cmp v w is Lt then true else false.
Definition gtv (v w : Version) : bool := if cmp v w is Gt then true else false.

Record Specifier := {
  operator : string;
  version : string;
}.

(** Longest operators first, as the pattern of [Specifier] tries them. *)
Definition operators : list string :=
  ["~="; "==="; "=="; "!="; "<="; ">="; "<"; ">"].

Definition drop_suffix (suffix s : string) : option string :=
  let n := String.length s - String.length suffix in
  if String.eqb (String.substring n (String.length suffix) s) suffix
     && (String.length suffix <=? String.length s)%nat
  then Some (String.substring 0 n s) else None.

(** [Specifier(text)]; [Raised] is [InvalidSpecifier].  A value is given
    for an operator followed by a release (after [~=] one of at least two
    segments, after [==] and [!=] possibly followed by [.*]); [version]
    is the text after the operator, stripped, as the library keeps it.  A
    text that starts with no operator, and [~=] with a release of a single
    segment, are certainly invalid; every other text is [Beyond]. *)
Definition parse_specifier (text : string) : answer Specifier :=
  let text := strip text in
  match filter (fun op => String.prefix op text = true) operators with
  | [] => Raised
  | op :: _ =>
      let rest := strip (String.substring (String.length op)
                           (String.length text - String.length op) text) in
      let found := Value {| operator := op; version := rest |} in
      match release_of rest with
      | Some segments =>
          if String.eqb op "~=" && negb (2 <=? length segments)%nat then Raised
          else found
      | None =>
          if String.eqb op "==" || String.eqb op "!=" then
            match drop_suffix ".*" rest with
            | Some stem => if bool_decide (is_Some (release_of stem)) then found else Beyond
            | None => Beyond
            end
          else Beyond
      end
  end.

Definition is_raised {A} (a : answer A) : bool :=
  match a with Raised => true | _ => false end.

Definition value_of {A} (a : answer A) : option A :=
  match a with Value v => Some v | _ => None end.

(** [SpecifierSet(text)]: the specifiers of the text, or the exception of
    a part that is invalid.  The library keeps the specifiers in a frozen
    set, so the order in which a loop receives them is not the order of the
    text (see [iteration] below). *)
Definition SpecifierSet (text : string) : answer (list Specifier) :=
  let parsed :=
    parse_specifier <$>
      filter (fun part => Js.is_empty part = false) (strip <$> Js.split "," text) in
  if existsb is_raised parsed then Raised
  else match mapM value_of parsed with
       | Some members => Value members
       | None => Beyond
       end.

End Pep440.

(** ** Dependency reconciliation (the script of [runDependencyAudit]) *)

Module DepReconciler.
Import Pep440.

Definition exact_versions (spec : string) : list string :=
  omap (fun part =>
          if String.prefix "==" part
          then Some (strip (String.substring 2 (String.length part - 2) part))
          else None)
       (filter (fun part => Js.is_empty part = false) (strip <$> Js.split "," spec)).

(** [Raised] is the [None] that the function returns from its [except]. *)
Definition _compatible_upper_for (version_text : string) : answer Version :=
  match parse version_text with
  | Beyond => Beyond
  | Raised => Raised
  | Value version =>
      let release := release version in
      if (length release <=? 1)%nat then
        let major := match release with [m] => m | _ => 0 end in
        Value {| Pep440.release := [major + 1] |}
      else
        let prefix := removelast release in
        Value {| Pep440.release := removelast prefix ++ [List.last prefix 0 + 1] |}
  end.

Record Bounds := {
  lower : option Version;
  lower_inclusive : bool;
  upper : option Version;
  upper_inclusive : bool;
  exact : option Version;
  not_equals : list Version;
  unsupported : list string;
}.

Record Intersection := {
  ok : bool;
  reason : string;
  normalized : string;
  remarks : list string;
}.

Definition start : Bounds :=
  {| lower := None; lower_inclusive := true; upper := None; upper_inclusive := true;
     exact := None; not_equals := []; unsupported := [] |}.

Definition conflict (why : string) : Intersection :=
  {| ok := false; reason := why; normalized := ""; remarks := [] |}.

Definition remark (b : Bounds) (text : string) : Bounds :=
  {| lower := lower b; lower_inclusive := lower_inclusive b;
     upper := upper b; upper_inclusive := upper_inclusive b;
     exact := exact b; not_equals := not_equals b;
     unsupported := unsupported b ++ [text] |}.

Definition with_lower (b : Bounds) (v : Version) (inclusive : bool) : Bounds :=
  {| lower := Some v; lower_inclusive := inclusive;
     upper := upper b; upper_inclusive := upper_inclusive b;
     exact := exact b; not_equals := not_equals b; unsupported := unsupported b |}.

Definition with_lower_inclusive (b : Bounds) (inclusive : bool) : Bounds :=
  {| lower := lower b; lower_inclusive := inclusive;
     upper := upper b; upper_inclusive := upper_inclusive b;
     exact := exact b; not_equals := not_equals b; unsupported := unsupported b |}.

Definition with_upper (b : Bounds) (v : Version) (inclusive : bool) : Bounds :=
  {| lower := lower b; lower_inclusive := lower_inclusive b;
     upper := Some v; upper_inclusive := inclusive;
     exact := exact b; not_equals := not_equals b; unsupported := unsupported b |}.

Definition with_upper_inclusive (b : Bounds) (inclusive : bool) : Bounds :=
  {| lower := lower b; lower_inclusive := lower_inclusive b;
     upper := upper b; upper_inclusive := inclusive;
     exact := exact b; not_equals := not_equals b; unsupported := unsupported b |}.

Definition with_exact (b : Bounds) (v : Version) : Bounds :=
  {| lower := lower b; lower_inclusive := lower_inclusive b;
     upper := upper b; upper_inclusive := upper_inclusive b;
     exact := Some v; not_equals := not_equals b; unsupported := unsupported b |}.

(** [v in not_equals], and [not_equals.add(v)] on a set of versions. *)
Definition excluded (v : Version) (l : list Version) : bool := existsb (eqv v) l.

Definition exclude (b : Bounds) (v : Version) : Bounds :=
  {| lower := lower b; lower_inclusive := lower_inclusive b;
     upper := upper b; upper_inclusive := upper_inclusive b;
     exact := exact b;
     not_equals := if excluded v (not_equals b) then not_equals b
                   else not_equals b ++ [v];
     unsupported := unsupported b |}.

(** [lower is None or P lower]. *)
Definition none_or (P : Version -> bool) (o : option Version) : bool :=
  match o with None => true | Some w => P w end.

Definition is_eq (v : Version) (o : option Version) : bool :=
  match o with None => false | Some w => eqv v w end.

(** The body of [for sp in spec_set]: [inl] is the early [return], and
    [None] is a version text beyond the model. *)
Definition absorb (spec_text : string) (b : Bounds) (sp : Specifier)
    : option (Intersection + Bounds) :=
  let op := operator sp in
  let version_text := version sp in
  if String.eqb op "==" then
    match parse version_text with
    | Beyond => None
    | Raised =>
        Some (inr (remark b ("unable to parse exact version '" +:+ version_text +:+ "'")))
    | Value v =>
        match exact b with
        | None => Some (inr (with_exact b v))
        | Some pinned =>
            if negb (eqv pinned v)
            then Some (inl (conflict ("multiple exact pins: " +:+ str pinned
                                       +:+ ", " +:+ str v)))
            else Some (inr b)
        end
    end
  else if String.eqb op "!=" then
    match parse version_text with
    | Beyond => None
    | Raised =>
        Some (inr (remark b ("unable to parse exclusion '" +:+ version_text +:+ "'")))
    | Value v => Some (inr (exclude b v))
    end
  else if String.eqb op ">" || String.eqb op ">=" then
    match parse version_text with
    | Beyond => None
    | Raised =>
        Some (inr (remark b ("unable to parse lower bound '" +:+ version_text +:+ "'")))
    | Value v =>
        if none_or (fun low => gtv v low) (lower b)
           || is_eq v (lower b) && String.eqb op ">"
        then Some (inr (with_lower b v (String.eqb op ">=")))
        else if is_eq v (lower b) && String.eqb op ">"
        then Some (inr (with_lower_inclusive b false))
        else Some (inr b)
    end
  else if String.eqb op "<" || String.eqb op "<=" then
    match parse version_text with
    | Beyond => None
    | Raised =>
        Some (inr (remark b ("unable to parse upper bound '" +:+ version_text +:+ "'")))
    | Value v =>
        if none_or (fun up => ltv v up) (upper b)
           || is_eq v (upper b) && String.eqb op "<"
        then Some (inr (with_upper b v (String.eqb op "<=")))
        else if is_eq v (upper b) && String.eqb op "<"
        then Some (inr (with_upper_inclusive b false))
        else Some (inr b)
    end
  else if String.eqb op "~=" then
    match parse version_text with
    | Beyond => None
    | Raised =>
        Some (inr (remark b ("unable to parse compatible lower bound '"
                             +:+ version_text +:+ "'")))
    | Value low =>
        let b1 := if none_or (fun cur => gtv low cur) (lower b)
                  then with_lower b low true else b in
        match _compatible_upper_for version_text with
        | Beyond => None
        | Raised => Some (inr b1)
        | Value up =>
            if none_or (fun cur => ltv up cur) (upper b1)
               || is_eq up (upper b1) && negb (upper_inclusive b1)
            then Some (inr (with_upper b1 up false))
            else Some (inr b1)
        end
    end
  else if String.eqb op "===" then
    Some (inr (remark b ("arbitrary equality '" +:+ spec_text
                         +:+ "' is not fully analyzable")))
  else Some (inr (remark b ("unsupported operator '" +:+ op +:+ "'"))).

Fixpoint absorb_all (spec_text : string) (b : Bounds) (sps : list Specifier)
    : option (Intersection + Bounds) :=
  match sps with
  | [] => Some (inr b)
  | sp :: rest =>
      match absorb spec_text b sp with
      | None => None
      | Some (inl stop) => Some (inl stop)
      | Some (inr b1) => absorb_all spec_text b1 rest
      end
  end.

Definition version_le (v w : Version) : Prop := gtv v w = false.

Global Instance version_le_dec v w : Decision (version_le v w).
Proof. unfold version_le. apply _. Defined.

(** What follows the loops. *)
Definition conclude (b : Bounds) : Intersection :=
  match exact b with
  | Some pinned =>
      if excluded pinned (not_equals b)
      then conflict ("exact pin " +:+ str pinned +:+ " is explicitly excluded")
      else if match lower b with
              | Some low => ltv pinned low || eqv pinned low && negb (lower_inclusive b)
              | None => false
              end
      then conflict ("exact pin " +:+ str pinned +:+ " is below lower bound")
      else if match upper b with
              | Some up => gtv pinned up || eqv pinned up && negb (upper_inclusive b)
              | None => false
              end
      then conflict ("exact pin " +:+ str pinned +:+ " is above upper bound")
      else {| ok := true; reason := ""; normalized := "==" +:+ str pinned;
              remarks := unsupported b |}
  | None =>
      let clash :=
        match lower b, upper b with
        | Some low, Some up =>
            if gtv low up
            then Some ("lower bound " +:+ str low +:+ " is greater than upper bound "
                       +:+ str up)
            else if eqv low up && (negb (lower_inclusive b) || negb (upper_inclusive b))
            then Some ("bounds collapse to excluded single version " +:+ str low)
            else if eqv low up && excluded low (not_equals b)
            then Some ("only allowed version " +:+ str low +:+ " is excluded")
            else None
        | _, _ => None
        end in
      match clash with
      | Some why => conflict why
      | None =>
          let parts :=
            (match lower b with
             | Some low => [(if lower_inclusive b then ">=" else ">") +:+ str low]
             | None => []
             end)
            ++ (match upper b with
                | Some up => [(if upper_inclusive b then "<=" else "<") +:+ str up]
                | None => []
                end)
            ++ ((fun v => "!=" +:+ str v) <$> merge_sort version_le (not_equals b)) in
          {| ok := true; reason := ""; normalized := Js.join "," parts;
             remarks := unsupported b |}
      end
  end.

(** One parsed requirement line and where it came from. *)
Record Entry := {
  node : string;
  file : string;
  spec : string;
  marker : string;
  raw : string;
}.

Record Conflict := {
  package : string;
  specs : list string;
  markers : list string;
  reasons : list string;
  entries : list Entry;
}.

(** [sorted(set(texts))]. *)
Definition sorted_set (texts : list string) : list string :=
  merge_sort Js.str_le (remove_dups texts).

Definition stripped_nonempty (texts : list string) : list string :=
  filter (fun t => Js.is_empty t = false) (strip <$> texts).

Record Tally := {
  conflicts : list Conflict;
  compatible_requirements : list string;
  incompatible_lines : list string;
}.

Section Audit.

(** [Version(v) in SpecifierSet(s)] of the library. *)
Variable contains : Version -> list Specifier -> bool.

(** The order in which [for sp in spec_set] receives the members of a
    specifier set: some rearrangement of them. *)
Variable iteration : list Specifier -> list Specifier.

(** The outer [for spec_text in specs]; [None] is a specifier beyond the
    model. *)
Fixpoint scan (b : Bounds) (specs : list string) : option (Intersection + Bounds) :=
  match specs with
  | [] => Some (inr b)
  | spec_text :: rest =>
      if Js.is_empty spec_text then scan b rest
      else
        match SpecifierSet spec_text with
        | Beyond => None
        | Raised => scan (remark b ("unable to parse specifier '" +:+ spec_text +:+ "'")) rest
        | Value spec_set =>
            match absorb_all spec_text b (iteration spec_set) with
            | None => None
            | Some (inl stop) => Some (inl stop)
            | Some (inr b1) => scan b1 rest
            end
        end
  end.

Definition specifiers_intersection (specs : list string) : option Intersection :=
  match scan start specs with
  | None => None
  | Some (inl stop) => Some stop
  | Some (inr b) => Some (conclude b)
  end.

(** [Version(version)] is evaluated first, so an invalid version answers
    [False] whatever the specifier is. *)
Definition satisfies (version_text spec_text : string) : option bool :=
  if Js.is_empty spec_text then Some true
  else match parse version_text with
       | Beyond => None
       | Raised => Some false
       | Value v =>
           match SpecifierSet spec_text with
           | Beyond => None
           | Raised => Some true
           | Value spec_set => Some (contains v spec_set)
           end
       end.

Definition incompatible_line (pkg : string) (specs reasons : list string) : string :=
  pkg +:+ " :: " +:+ Js.join " | " specs +:+ " :: " +:+ Js.join " | " reasons.

(** The two nested loops that fill [pin_conflicts]. *)
Definition pin_conflicts_of (exacts specs : list string) : option (list string) :=
  mjoin <$>
    mapM (fun pair : string * string =>
            let '(ev, s) := pair in
            match satisfies ev s with
            | None => None
            | Some fits =>
                Some (if fits then []
                      else ["exact pin " +:+ ev +:+ " not compatible with spec '"
                            +:+ s +:+ "'"])
            end)
         (ev ← exacts; s ← specs; [(ev, s)]).

(** The body of [for pkg, entries in sorted(pkg_map.items())]; [None] is a
    group with a text beyond the model. *)
Definition audit_package (acc : Tally) (group : string * list Entry) : option Tally :=
  let '(pkg, entries) := group in
  let specs := sorted_set (stripped_nonempty (spec <$> entries)) in
  let markers := sorted_set (stripped_nonempty (marker <$> entries)) in
  match specs with
  | [] => Some {| conflicts := conflicts acc;
                  compatible_requirements := compatible_requirements acc ++ [pkg];
                  incompatible_lines := incompatible_lines acc |}
  | _ :: _ =>
      intersect ← specifiers_intersection specs;
      if negb (ok intersect) then
        let exacts := sorted_set (mbind exact_versions specs) in
        pin_conflicts ← pin_conflicts_of exacts specs;
        let reasons := sorted_set (reason intersect :: pin_conflicts) in
        Some {| conflicts := conflicts acc ++
                  [{| package := pkg; specs := specs; markers := markers;
                      reasons := reasons; entries := entries |}];
                compatible_requirements := compatible_requirements acc;
                incompatible_lines := incompatible_lines acc
                                      ++ [incompatible_line pkg specs reasons] |}
      else
        let normalized := strip (normalized intersect) in
        let unsupported := filter (fun x => Js.is_empty x = false) (remarks intersect) in
        match unsupported with
        | _ :: _ =>
            Some {| conflicts := conflicts acc ++
                      [{| package := pkg; specs := specs; markers := markers;
                          reasons := unsupported; entries := entries |}];
                    compatible_requirements := compatible_requirements acc;
                    incompatible_lines := incompatible_lines acc
                                          ++ [incompatible_line pkg specs unsupported] |}
        | [] =>
            Some {| conflicts := conflicts acc;
                    compatible_requirements :=
                      compatible_requirements acc ++ [pkg +:+ normalized];
                    incompatible_lines := incompatible_lines acc |}
        end
  end.

(** The rows of one requirements file, as [parse_requirements_file] returns
    them: package name (lower case), specifier, marker, line. *)
Record FileRows := {
  path : string;
  parent : string;
  rows : list (string * string * string * string);
}.

Definition add_rows (pkg_map : gmap string (list Entry)) (f : FileRows)
    : gmap string (list Entry) :=
  foldl (fun m row =>
           let '(pkg, spec, marker, raw) := row in
           if String.prefix "__unparsed__:" pkg then m
           else <[pkg := default [] (m !! pkg)
                         ++ [{| node := parent f; file := path f; spec := spec;
                                marker := marker; raw := raw |}]]> m)
        pkg_map (rows f).

Definition group_le (a b : string * list Entry) : Prop := Js.str_le (fst a) (fst b).

Global Instance group_le_dec a b : Decision (group_le a b).
Proof. unfold group_le. apply _. Defined.

Record Audit := {
  tally : Tally;
  compatible_text : string;
  incompatible_text : string;
  filesScanned : nat;
  packagesScanned : nat;
  compatibleRequirementCount : nat;
  conflictCount : nat;
  reported_conflicts : list Conflict;
}.

Definition newline : string := String (ascii_of_nat 10) EmptyString.

(** The script from the grouping on; [files] are the parsed requirement
    files in sorted order.  [None] is an input with a text beyond the
    model. *)
Definition audit (files : list FileRows) : option Audit :=
  let pkg_map := foldl add_rows ∅ files in
  result ←
    foldl (fun acc group => acc ← acc; audit_package acc group)
      (Some {| conflicts := []; compatible_requirements := []; incompatible_lines := [] |})
      (merge_sort group_le (map_to_list pkg_map));
  Some
  {| tally := result;
     compatible_text :=
       Js.join newline (sorted_set (compatible_requirements result)) +:+ newline;
     incompatible_text :=
       Js.join newline (incompatible_lines result)
       +:+ (match incompatible_lines result with [] => "" | _ => newline end);
     filesScanned := length files;
     packagesScanned := size pkg_map;
     compatibleRequirementCount := length (compatible_requirements result);
     conflictCount := length (conflicts result);
     reported_conflicts := take 200 (conflicts result) |}.

End Audit.

(** The specifiers of a package group, as the loop body derives them. *)
Definition specs_of (entries : list Entry) : list string :=
  sorted_set (stripped_nonempty (spec <$> entries)).

(** Every rearrangement is possible. *)
Definition rearranges (iteration : list Specifier -> list Specifier) : Prop :=
  forall members, iteration members ≡ₚ members.

(** Scenario E3: two packs, one requirement line each. *)
Definition e3_files : list FileRows :=
  [ {| path := "custom_nodes/pack-a/requirements.txt"; parent := "pack-a";
       rows := [("starlette", "<0.47.0,>=0.40.0", "", "starlette<0.47.0,>=0.40.0")] |};
    {| path := "custom_nodes/pack-b/requirements.txt"; parent := "pack-b";
       rows := [("starlette", ">=0.49.1", "", "starlette>=0.49.1")] |} ].

End DepReconciler.

(** ** AutoHeal (app/api/manager/fix/route.ts and
       app/api/manager/compatibility-set/route.ts) *)

Module AutoHeal.

(** What the routes' own [runPython] returns. *)
Record PyResult := {
  ok : bool;
  output : string;
  status : Z;
}.

Record Step := {
  command : string;
  step_ok : bool;
  step_output : string;
}.

Record Healed := {
  finalCheck : PyResult;
  steps : list Step;
}.

Definition newline : ascii := ascii_of_nat 10.

(** The characters that [.] does not match. *)
Definition is_line_terminator (c : ascii) : bool :=
  (Js.code c =? 10)%nat || (Js.code c =? 13)%nat.

(** A lower-case literal of a pattern with the [i] flag, matched at the
    start of [text]. *)
Definition literal_here (literal text : string) : bool :=
  String.prefix literal (Auditor.fold_case text).

(** [(.+)] followed by the literal [suffix], matched at the start of
    [rest]: the longest capture wins. *)
Fixpoint longest_capture (suffix rest : string) : option string :=
  match rest with
  | EmptyString => None
  | String c rest' =>
      if is_line_terminator c then None
      else match longest_capture suffix rest' with
           | Some more => Some (String c more)
           | None => if literal_here suffix rest'
                     then Some (String c EmptyString) else None
           end
  end.

(** [line.match(/prefix(.+)suffix/i)?.[1]]: the leftmost match. *)
Fixpoint capture (prefix suffix line : string) : option string :=
  let here :=
    if literal_here prefix line
    then longest_capture suffix
           (String.substring (String.length prefix)
              (String.length line - String.length prefix) line)
    else None in
  match here with
  | Some found => Some found
  | None =>
      match line with
      | EmptyString => None
      | String _ rest => capture prefix suffix rest
      end
  end.

(** [output.split('\n').map((line) => line.trim()).filter(Boolean)]. *)
Definition lines_of (output : string) : list string :=
  filter (fun line => Js.is_empty line = false) (Js.trim <$> Js.split newline output).

Definition extract_line (specs : list string) (line : string) : list string :=
  match capture "has requirement " ", but you have " line with
  | Some found => Js.set_add specs (Js.trim found)
  | None =>
      match capture "requires " ", which is not installed." line with
      | Some found => Js.set_add specs (Js.trim found)
      | None => specs
      end
  end.

Definition extractPipRequiredSpecs (output : string) : list string :=
  fold_left extract_line (lines_of output) [].

(** [specs.slice().sort().join('|')]. *)
Definition spec_key (specs : list string) : string :=
  Js.join "|" (merge_sort Js.str_le specs).

Record PipConflicts := {
  hasShaderflowScipyConflict : bool;
  hasGradioPillowConflict : bool;
  hasDepthflowMissingDeps : bool;
  hasRembgStrictPins : bool;
  hasFastapiStarletteConflict : bool;
  hasSSEStarletteConflict : bool;
}.

Definition parsePipConflicts (output : string) : PipConflicts :=
  let lines := lines_of output in
  let some (p : string -> bool) := existsb p lines in
  {| hasShaderflowScipyConflict :=
       some (fun line => Js.includes "shaderflow" line && Js.includes "scipy~=1.15.3" line);
     hasGradioPillowConflict :=
       some (fun line => Js.includes "gradio" line && Js.includes "pillow<12.0" line);
     hasDepthflowMissingDeps :=
       some (fun line => Js.includes "depthflow" line
                         && (Js.includes "requires gradio" line
                             || Js.includes "requires shaderflow" line));
     hasRembgStrictPins :=
       some (fun line => Js.includes "rembg" line
                         && (Js.includes "requires pillow" line
                             || Js.includes "requires scipy" line));
     hasFastapiStarletteConflict :=
       some (fun line => Js.includes "fastapi" line
                         && Js.includes "has requirement starlette<0.47.0,>=0.40.0" line);
     hasSSEStarletteConflict :=
       some (fun line => Js.includes "sse-starlette" line
                         && Js.includes "has requirement starlette>=0.49.1" line) |}.

(** How one pass of the loop body ends. *)
Inductive Flow (L : Type) :=
  | Return (result : Healed)
  | Break
  | Continue (next : L).
Arguments Return {L} result.
Arguments Break {L}.
Arguments Continue {L} next.

Section Heal.
Context `{host : Host}.
Variable backendDir : string.

Local Abbreviation M := (@TxEngine.M host).

Local Notation "'let*' x ':=' m 'in' k" := (TxEngine.bind m (fun x => k))
  (at level 10, x name, m at level 100, k at level 200).

Definition pythonBin : string := TxEngine.venvPythonPath backendDir.

Definition runPython (args : list string) : M PyResult :=
  let* present := TxEngine.existsSync pythonBin in
  if negb present then
    TxEngine.ret {| ok := false; output := "ModuSnap-ComfyUI-Backend/venv missing"; status := 1 |}
  else
    let* _ := TxEngine.emit (TxEngine.Spawn pythonBin args) in
    let* proc := TxEngine.lift_ext (spawnSync pythonBin args) in
    let out := Js.trim (sp_stdout proc +:+ sp_stderr proc) in
    TxEngine.ret {| ok := bool_decide (sp_status proc = Some 0%Z);
             output := if Js.is_empty out then "(no output)" else out;
             status := default 1%Z (sp_status proc) |}.

Definition step_of (text : string) (r : PyResult) : Step :=
  {| command := text; step_ok := ok r; step_output := output r |}.

Definition pip_check : list string := ["-m"; "pip"; "check"].

(** [for (const spec of specs)]: one install per specifier. *)
Fixpoint install_each (specs : list string) : M (list Step) :=
  match specs with
  | [] => TxEngine.ret []
  | spec :: rest =>
      let* installSpec := runPython ["-m"; "pip"; "install"; spec] in
      let* more := install_each rest in
      TxEngine.ret (step_of ("python -m pip install " +:+ spec) installSpec :: more)
  end.

(** *** [autoHealPip] of the compatibility-set route *)

Record Loop := {
  so_far : list Step;
  current : string;
  seen : gset string;
}.

Definition canned_fastapi (current : string) : bool :=
  Js.includes "fastapi" current
  && Js.includes "has requirement starlette<0.47.0,>=0.40.0" current
  && Js.includes "sse-starlette" current
  && Js.includes "has requirement starlette>=0.49.1" current.

Definition canned_family (current : string) : bool :=
  Js.includes "shaderflow" current || Js.includes "gradio" current
  || Js.includes "depthflow" current || Js.includes "rembg" current.

(** The three-way [if] at the head of the loop body: [None] is [break]. *)
Definition pip_recipe (l : Loop) : M (option Loop) :=
  if canned_fastapi (current l) then
    let* fixed := runPython ["-m"; "pip"; "install"; "sse-starlette<3.0";
                           "starlette>=0.40.0,<0.47.0"] in
    TxEngine.ret (Some {| so_far := so_far l ++
                     [step_of "python -m pip install sse-starlette<3.0 starlette>=0.40.0,<0.47.0" fixed];
                   current := current l; seen := seen l |})
  else if canned_family (current l) then
    let* compat := runPython ["-m"; "pip"; "install"; "scipy~=1.15.3"; "pillow<12";
                              "rembg==2.0.69"; "onnxruntime"] in
    let* depthflowPins := runPython ["-m"; "pip"; "install"; "--no-deps";
                                     "gradio==5.35.0"; "shaderflow==0.9.1"] in
    TxEngine.ret (Some {| so_far := so_far l ++
                     [step_of "python -m pip install scipy~=1.15.3 pillow<12 rembg==2.0.69 onnxruntime" compat;
                      step_of "python -m pip install --no-deps gradio==5.35.0 shaderflow==0.9.1" depthflowPins];
                   current := current l; seen := seen l |})
  else
    let specs := extractPipRequiredSpecs (current l) in
    if bool_decide (length specs = 0) then TxEngine.ret None
    else
      let key := spec_key specs in
      if bool_decide (key ∈ seen l) then TxEngine.ret None
      else
        let* installed := install_each specs in
        TxEngine.ret (Some {| so_far := so_far l ++ installed; current := current l;
                       seen := {[key]} ∪ seen l |}).

Definition pip_round (round : nat) (l : Loop) : M (Flow Loop) :=
  let* chosen := pip_recipe l in
  match chosen with
  | None => TxEngine.ret Break
  | Some l1 =>
      let* check := runPython pip_check in
      let recorded := so_far l1 ++
        [step_of ("python -m pip check (round " +:+ Js.show_nat round +:+ ")") check] in
      if ok check then TxEngine.ret (Return {| finalCheck := check; steps := recorded |})
      else TxEngine.ret (Continue {| so_far := recorded; current := output check;
                              seen := seen l1 |})
  end.

(** What follows the loop. *)
Definition pip_finish (l : Loop) : M Healed :=
  let* finalCheck := runPython pip_check in
  TxEngine.ret {| finalCheck := finalCheck; steps := so_far l |}.

(** [for (let round = 1; round <= 6; round++)] with [left] passes to go. *)
Fixpoint pip_rounds (left round : nat) (l : Loop) : M Healed :=
  match left with
  | O => pip_finish l
  | S left' =>
      let* flow := pip_round round l in
      match flow with
      | Return result => TxEngine.ret result
      | Break => pip_finish l
      | Continue next => pip_rounds left' (S round) next
      end
  end.

Definition autoHealPip (initialOutput : string) : M Healed :=
  pip_rounds 6 1 {| so_far := []; current := initialOutput; seen := ∅ |}.

(** *** [autoHealPipConflicts] of the fix route *)

Record FixLoop := {
  fix_steps : list Step;
  currentOutput : string;
  seenSpecSets : gset string;
  compatibilityApplied : bool;
}.

Definition applyCompatibilityProfile : M (list Step) :=
  let* baseCompat := runPython ["-m"; "pip"; "install"; "scipy~=1.15.3"; "pillow<12";
                                "rembg==2.0.69"; "onnxruntime"] in
  let* depthflowCompat := runPython ["-m"; "pip"; "install"; "--no-deps";
                                     "gradio==5.35.0"; "shaderflow==0.9.1"] in
  TxEngine.ret [step_of "python -m pip install scipy~=1.15.3 pillow<12 rembg==2.0.69 onnxruntime" baseCompat;
         step_of "python -m pip install --no-deps gradio==5.35.0 shaderflow==0.9.1" depthflowCompat].

Definition applyTyperCompatibilityProfile : M (list Step) :=
  let* installTyper := runPython ["-m"; "pip"; "install"; "typer==0.15.4";
                                  "typer-slim==0.15.4"; "click<8.2,>=8.0.0"] in
  TxEngine.ret [step_of "python -m pip install typer==0.15.4 typer-slim==0.15.4 click<8.2,>=8.0.0" installTyper].

Definition applyFastapiSSECompatibilityProfile : M (list Step) :=
  let* pinned := runPython ["-m"; "pip"; "install"; "starlette>=0.40.0,<0.47.0";
                            "sse-starlette<3.0"] in
  TxEngine.ret [step_of "python -m pip install starlette>=0.40.0,<0.47.0 sse-starlette<3.0" pinned].

Definition needsCompatibilityProfile (output : string) : bool :=
  let parsed := parsePipConflicts output in
  hasShaderflowScipyConflict parsed || hasGradioPillowConflict parsed
  || hasDepthflowMissingDeps parsed || hasRembgStrictPins parsed.

Definition hasTyperConflict (output : string) : bool :=
  Js.includes "broken-source" output && Js.includes "typer~=0.15.4" output
  || Js.includes "typer-slim" output && Js.includes "typer>=0.24.0" output.

Definition hasFastapiSSEConflict (output : string) : bool :=
  hasFastapiStarletteConflict (parsePipConflicts output)
  && hasSSEStarletteConflict (parsePipConflicts output).

(** The tail shared by the four branches: the check after a recipe, with
    its label, then [return] or [continue]. *)
Definition fix_verify (label : string) (round : nat) (l : FixLoop) : M (Flow FixLoop) :=
  let* check := runPython pip_check in
  let recorded := fix_steps l ++
    [step_of ("python -m pip check (" +:+ label +:+ "round " +:+ Js.show_nat round +:+ ")")
       check] in
  if ok check then TxEngine.ret (Return {| finalCheck := check; steps := recorded |})
  else TxEngine.ret (Continue {| fix_steps := recorded; currentOutput := output check;
                          seenSpecSets := seenSpecSets l;
                          compatibilityApplied := compatibilityApplied l |}).

Definition fix_push (l : FixLoop) (added : list Step) : FixLoop :=
  {| fix_steps := fix_steps l ++ added; currentOutput := currentOutput l;
     seenSpecSets := seenSpecSets l; compatibilityApplied := compatibilityApplied l |}.

Definition fix_round (round : nat) (l : FixLoop) : M (Flow FixLoop) :=
  if needsCompatibilityProfile (currentOutput l) && negb (compatibilityApplied l) then
    let* added := applyCompatibilityProfile in
    fix_verify "after compatibility profile, " round
      {| fix_steps := fix_steps l ++ added; currentOutput := currentOutput l;
         seenSpecSets := seenSpecSets l; compatibilityApplied := true |}
  else if hasTyperConflict (currentOutput l) then
    let* added := applyTyperCompatibilityProfile in
    fix_verify "after typer compatibility profile, " round (fix_push l added)
  else if hasFastapiSSEConflict (currentOutput l) then
    let* added := applyFastapiSSECompatibilityProfile in
    fix_verify "after fastapi/sse-starlette compatibility profile, " round (fix_push l added)
  else
    let specs := extractPipRequiredSpecs (currentOutput l) in
    if bool_decide (length specs = 0) then TxEngine.ret Break
    else
      let specKey := spec_key specs in
      if bool_decide (specKey ∈ seenSpecSets l) then TxEngine.ret Break
      else
        let* installed := install_each specs in
        fix_verify "" round
          {| fix_steps := fix_steps l ++ installed; currentOutput := currentOutput l;
             seenSpecSets := {[specKey]} ∪ seenSpecSets l;
             compatibilityApplied := compatibilityApplied l |}.

Definition fix_finish (l : FixLoop) : M Healed :=
  let* finalCheck := runPython pip_check in
  TxEngine.ret {| finalCheck := finalCheck; steps := fix_steps l |}.

Fixpoint fix_rounds (left round : nat) (l : FixLoop) : M Healed :=
  match left with
  | O => fix_finish l
  | S left' =>
      let* flow := fix_round round l in
      match flow with
      | Return result => TxEngine.ret result
      | Break => fix_finish l
      | Continue next => fix_rounds left' (S round) next
      end
  end.

Definition autoHealPipConflicts (initialPipCheckOutput : string) : M Healed :=
  fix_rounds 6 1 {| fix_steps := []; currentOutput := initialPipCheckOutput;
                    seenSpecSets := ∅; compatibilityApplied := false |}.

End Heal.

(** A step that records a [pip check]. *)
Definition is_check (s : Step) : bool :=
  String.prefix "python -m pip check" (command s).

(** Number of recorded checks. *)
Definition checks (l : list Step) : nat :=
  length (filter (fun s => is_check s = true) l).

(** The round in which nothing new is asked for: one missing requirement,
    already tried. *)
Definition stuck_output : string :=
  "foo 1.0 has requirement bar>=2, but you have bar 1.0.".

Definition stuck_loop : Loop :=
  {| so_far := []; current := stuck_output; seen := {["bar>=2"]} |}.

Definition stuck_fix_loop : FixLoop :=
  {| fix_steps := []; currentOutput := stuck_output; seenSpecSets := {["bar>=2"]};
     compatibilityApplied := false |}.

Definition venv : @TxEngine.World Demo.broken :=
  {| TxEngine.ext := (O : @Ext Demo.broken);
     TxEngine.disk := {[TxEngine.venvPythonPath Demo.backend := TxEngine.Raw ""]};
     TxEngine.log := [] |}.

(** A requirement that a plain install has already tried and that comes
    back in an output naming a known family: the first output names none,
    every later check names gradio (for the fix route: typer-slim). *)
Definition tried_output : string :=
  "foo 1.0 has requirement pillow<12.0, but you have pillow 12.1.0.".

Definition gradio_output : string :=
  "gradio 5.35.0 has requirement pillow<12.0, but you have pillow 12.1.0.".

Definition gradio_host : Host := Demo.scripted 1 gradio_output.

Definition gradio_venv : @TxEngine.World gradio_host :=
  {| TxEngine.ext := (O : @Ext gradio_host);
     TxEngine.disk := {[TxEngine.venvPythonPath Demo.backend := TxEngine.Raw ""]};
     TxEngine.log := [] |}.

Definition tried_typer_output : string :=
  "foo 1.0 has requirement typer>=0.24.0, but you have typer 0.15.4.".

Definition typer_output : string :=
  "typer-slim 0.24.0 has requirement typer>=0.24.0, but you have typer 0.15.4.".

Definition typer_host : Host := Demo.scripted 1 typer_output.

Definition typer_venv : @TxEngine.World typer_host :=
  {| TxEngine.ext := (O : @Ext typer_host);
     TxEngine.disk := {[TxEngine.venvPythonPath Demo.backend := TxEngine.Raw ""]};
     TxEngine.log := [] |}.

End AutoHeal.

(** ** License policy (app/api/_lib/policy) *)

Module Policy.

(** What [TIER_RULES[tier]] evaluates to.  [TIER_RULES] is an object
    literal, so besides its three own members a lookup finds the members
    that every object inherits from [Object.prototype]; those are functions
    (an object for [__proto__]), all truthy and none with an
    [allowedPolicies] member. *)
Inductive member :=
  | Own (allowedPolicies : list string)
  | Inherited
  | Missing.

Definition object_prototype_members : list string :=
  ["constructor"; "__proto__"; "__defineGetter__"; "__defineSetter__";
   "__lookupGetter__"; "__lookupSetter__"; "hasOwnProperty"; "isPrototypeOf";
   "propertyIsEnumerable"; "toLocaleString"; "toString"; "valueOf"].

Definition TIER_RULES (tier : string) : member :=
  if String.eqb tier "free" then Own ["open"]
  else if String.eqb tier "pro" then Own ["open"; "non-commercial"]
  else if String.eqb tier "enterprise" then Own ["open"; "non-commercial"; "commercial"]
  else if Js.mem tier object_prototype_members then Inherited
  else Missing.

Record Evaluation := {
  allowed : bool;
  violations : list string;
}.

(** [None] is the [TypeError] of [undefined.includes], raised by the first
    call of the filter's callback when the rule has no [allowedPolicies]. *)
Definition evaluatePolicy (tier : string) (policies : list string) : option Evaluation :=
  let rule := match TIER_RULES tier with
              | Missing => TIER_RULES "free"
              | found => found
              end in
  match rule with
  | Own allowedPolicies =>
      let violations := filter (fun p => negb (Js.mem p allowedPolicies)) policies in
      Some {| allowed := bool_decide (length violations = 0); violations := violations |}
  | _ =>
      match policies with
      | [] => Some {| allowed := true; violations := [] |}
      | _ :: _ => None
      end
  end.

(** The three tiers, from the least to the most permissive. *)
Definition tier_rank (tier : string) : option nat :=
  if String.eqb tier "free" then Some 0
  else if String.eqb tier "pro" then Some 1
  else if String.eqb tier "enterprise" then Some 2
  else None.

End Policy.

(** ** The engine's read-only exports and the routes in front of it *)

Module TxQueries.
Import TxEngine.

Record LatestTransaction := {
  latest_id : string;
  latest_status : EnvTxStatus;
  latest_kind : EnvTxKind;
  latest_updatedAt : string;
}.

Record EnvStatus := {
  env_ok : bool;
  env_backendDir : string;
  venvExists : bool;
  env_pipHealthy : bool;
  env_pipCheckOutput : string;
  transactions : nat;
  latestTransaction : option LatestTransaction;
}.

Record TxSummary := {
  sum_id : string;
  sum_kind : EnvTxKind;
  sum_status : EnvTxStatus;
  sum_createdAt : string;
  sum_updatedAt : string;
  sum_requestedPackages : list string;
  sum_rollbackOf : option string;
}.

(** [tx.rollbackOf || null]. *)
Definition rollbackOf_or_null (tx : EnvTx) : option string :=
  match rollbackOf tx with
  | Some target => if Js.is_empty target then None else Some target
  | None => None
  end.

Definition summary_of (tx : EnvTx) : TxSummary :=
  {| sum_id := id tx; sum_kind := kind tx; sum_status := status tx;
     sum_createdAt := createdAt tx; sum_updatedAt := updatedAt tx;
     sum_requestedPackages := requestedPackages tx;
     sum_rollbackOf := rollbackOf_or_null tx |}.

(** The answers of the three POST routes of /api/manager/env. *)
Inductive Response :=
  | Json (http_status : nat) (message : string)
  | PolicyViolation (violations : list string) (hint : string)
  | Transaction (tx : EnvTx)
  | Failure.

Definition http_status_of (r : Response) : nat :=
  match r with
  | Json http_status _ => http_status
  | PolicyViolation _ _ => 403
  | Transaction _ => 200
  | Failure => 500
  end.

(** The body of a plan request. *)
Record PlanBody := {
  body_mode : option string;
  body_packages : Js.unknown;
  body_policies : option (list string);
}.

Section Queries.
Context `{host : Host}.
Variable backendDir : string.

Notation "'let*' x ':=' m 'in' k" := (bind m (fun x => k))
  (at level 10, x name, m at level 100, k at level 200).

Definition getEnvStatus : M EnvStatus :=
  let* venvExists := existsSync (venvPythonPath backendDir) in
  let* pipCheck := runPython backendDir ["-m"; "pip"; "check"] in
  let* store := readStore backendDir in
  ret {| env_ok := ok pipCheck;
         env_backendDir := backendDir;
         venvExists := venvExists;
         env_pipHealthy := ok pipCheck;
         env_pipCheckOutput := output pipCheck;
         transactions := length store;
         latestTransaction :=
           (fun latest => {| latest_id := id latest;
                             latest_status := status latest;
                             latest_kind := kind latest;
                             latest_updatedAt := updatedAt latest |})
           <$> last store |}.

Definition listTransactions : M (list TxSummary) :=
  let* store := readStore backendDir in
  ret (map summary_of store).

Definition getTransaction (wanted : string) : M (option EnvTx) :=
  let* found := findTx backendDir wanted in
  ret (fst <$> snd found).

(** POST /api/manager/env/plan, the variant that enforces the license tier.
    [tier_env] is the environment variable MODUSNAP_LICENSE_TIER. *)
Definition plan_route (tier_env : option string) (body : PlanBody) : M Response :=
  let userTier := match tier_env with
                  | Some t => if Js.is_empty t then "free" else t
                  | None => "free"
                  end in
  let policies := default [] (body_policies body) in
  match Policy.evaluatePolicy userTier policies with
  | None => ret Failure
  | Some evaluation =>
      if negb (Policy.allowed evaluation)
      then ret (PolicyViolation (Policy.violations evaluation)
                  ("Your current tier (" +:+ userTier
                   +:+ ") does not permit installing these nodes."))
      else
        let* tx := createPlan backendDir
                     {| mode := body_mode body; packages := body_packages body |} in
        ret (Transaction tx)
  end.

(** [String(body?.id || body?.transactionId || '').trim()]. *)
Definition requested_id (body_id body_transactionId : Js.value) : string :=
  Js.trim (Js.to_String
             (Js.or_else (Js.or_else body_id body_transactionId) (Js.VString ""))).

(** POST /api/manager/env/apply. *)
Definition apply_route (body_id body_transactionId : Js.value) : M Response :=
  let wanted := requested_id body_id body_transactionId in
  if Js.is_empty wanted then ret (Json 400 "Missing transaction id.")
  else
    let* result := applyTransaction backendDir wanted in
    match result with
    | Refused http_status message => ret (Json http_status message)
    | Done tx => ret (Transaction tx)
    end.

End Queries.

End TxQueries.

(** ** The catalog audit of the compatibility set
       (app/api/manager/compatibility-set/route.ts) *)

Module CatalogAudit.

(** [marker] is the text of [<backend>/.torch_profile], [None] when the file
    does not exist. *)
Definition readHardwareProfile (marker : option string) : string :=
  match marker with
  | None => "unknown"
  | Some raw =>
      let text := Js.trim raw in
      if Js.is_empty text then "unknown" else text
  end.

Definition parseHardwareProfile (profile : string) : Auditor.HardwareProfile :=
  let lower := Js.toLowerCase profile in
  {| Auditor.profile := if Js.is_empty profile then "unknown" else profile;
     Auditor.hasNvidia := Js.includes "nvidia:true" lower;
     Auditor.hasRocm := Js.includes "rocm:true" lower;
     Auditor.isDarwinArm64 := Js.includes "darwin-arm64" lower |}.

Record AuditRow := {
  key : string;
  row_id : string;
  row_title : string;
  decision : Auditor.Decision;
  reasons : list string;
}.

(** The three consecutive [if] statements of the row callback, each acting
    on the decision and the reasons gathered so far. *)
Definition cuda_stage (hw : Auditor.HardwareProfile) (text : string)
    (acc : Auditor.Decision * list string) : Auditor.Decision * list string :=
  if negb (Auditor.hasNvidia hw) && Auditor.test_any Auditor.cudaOnlyMarkers text then
    (Auditor.blocked, snd acc ++ ["Pack appears NVIDIA/CUDA-only on this hardware."])
  else if negb (Auditor.hasNvidia hw) && Auditor.test_any Auditor.cudaMarkers text then
    (Auditor.warning,
     snd acc ++ ["Pack metadata suggests NVIDIA/CUDA dependency without NVIDIA hardware."])
  else acc.

Definition rocm_stage (hw : Auditor.HardwareProfile) (text : string)
    (acc : Auditor.Decision * list string) : Auditor.Decision * list string :=
  if negb (Auditor.hasRocm hw) && Auditor.test_any Auditor.rocmOnlyMarkers text then
    (Auditor.blocked, snd acc ++ ["Pack appears ROCm-only on this hardware."])
  else if negb (Auditor.hasRocm hw) && Auditor.test_any Auditor.rocmMarkers text then
    (if bool_decide (fst acc <> Auditor.blocked) then Auditor.warning else fst acc,
     snd acc ++ ["Pack metadata suggests ROCm dependency without ROCm hardware."])
  else acc.

Definition darwin_stage (hw : Auditor.HardwareProfile) (text : string)
    (acc : Auditor.Decision * list string) : Auditor.Decision * list string :=
  if Auditor.isDarwinArm64 hw && Auditor.test_any Auditor.darwinMarkers text then
    (if bool_decide (fst acc <> Auditor.blocked) then Auditor.warning else fst acc,
     snd acc ++ ["Likely requires binaries often unavailable on macOS ARM64."])
  else acc.

(** The callback of [items.map]. *)
Definition audit_row (hw : Auditor.HardwareProfile) (item : Auditor.CatalogItem)
    : AuditRow :=
  let text := Auditor.getTextBlob item in
  let verdict :=
    darwin_stage hw text
      (rocm_stage hw text (cuda_stage hw text (Auditor.installable, []))) in
  {| key := Auditor.first_given
              [Auditor.uiKey item; Auditor.id item; Auditor.title item;
               Auditor.repository item; Auditor.reference item] "";
     row_id := Auditor.first_given [Auditor.id item] "";
     row_title := Auditor.first_given [Auditor.title item; Auditor.id item] "Unknown pack";
     decision := fst verdict;
     reasons := snd verdict |}.

(** What [runCatalogAudit] returns, together with the two pack lists that
    it writes to modusnap_catalog_installable_packs.json and
    modusnap_catalog_incompatible_packs.json. *)
Record CatalogAuditResult := {
  hardwareProfile : string;
  totalCatalogItems : nat;
  installableCount : nat;
  incompatibleCount : nat;
  installable_packs : list AuditRow;
  incompatible_packs : list AuditRow;
}.

Definition runCatalogAudit (marker : option string) (items : list Auditor.CatalogItem)
    : CatalogAuditResult :=
  let profile := readHardwareProfile marker in
  let hw := parseHardwareProfile profile in
  let rows := filter (fun row => Js.is_empty (key row) = false) (audit_row hw <$> items) in
  let installable := filter (fun row => decision row = Auditor.installable) rows in
  let incompatible := filter (fun row => decision row <> Auditor.installable) rows in
  {| hardwareProfile := profile;
     totalCatalogItems := length rows;
     installableCount := length installable;
     incompatibleCount := length incompatible;
     installable_packs := installable;
     incompatible_packs := incompatible |}.

(** [value.replace(/[^a-zA-Z0-9._-]/g, '_')]. *)
Definition segment_char (c : ascii) : bool :=
  Js.in_range 97 122 c || Js.in_range 65 90 c || Js.in_range 48 57 c
  || Js.includes (String c EmptyString) "._-".

Fixpoint sanitizeFileSegment (value : string) : string :=
  match value with
  | EmptyString => EmptyString
  | String c rest =>
      String (if segment_char c then c else "_"%char) (sanitizeFileSegment rest)
  end.

(** [value.replace(/[:.]/g, '-')]. *)
Fixpoint dash_stamp (value : string) : string :=
  match value with
  | EmptyString => EmptyString
  | String c rest =>
      String (if Ascii.eqb c ":" || Ascii.eqb c "." then "-"%char else c) (dash_stamp rest)
  end.

(** The members of the payload that [saveCompatibilitySet] reads; a member
    that is missing is [None]. *)
Record SetPayload := {
  payload_createdAt : option string;
  payload_hardwareProfile : option string;
  payload_lockId : option string;
}.

(** The name of the history file; [now] is [new Date().toISOString()]. *)
Definition historyFileName (setPayload : SetPayload) (now : string) : string :=
  let stamp := if Auditor.given (payload_createdAt setPayload)
               then dash_stamp (default "" (payload_createdAt setPayload))
               else dash_stamp now in
  let profile :=
    sanitizeFileSegment (Orchestrator.or_text (payload_hardwareProfile setPayload) "unknown") in
  let lockId :=
    sanitizeFileSegment
      (Orchestrator.or_text (payload_lockId setPayload) (stamp +:+ "_" +:+ profile)) in
  "compat_set_" +:+ lockId +:+ ".json".

(** [entry.endsWith('.json')]. *)
Definition ends_with_json (entry : string) : bool :=
  let n := String.length entry in
  (5 <=? n)%nat && String.eqb (String.substring (n - 5) 5 entry) ".json".

End CatalogAudit.

(** ** The page's view of a preflight report (app/page.tsx) *)

Module Client.
Import Orchestrator.

(** The keys that [applyPreflightIncompatibleKeys] stores; [None] is a
    missing payload. *)
Definition applyPreflightIncompatibleKeys (payload : option Auditor.PreflightReport)
    : list string :=
  match payload with
  | None => []
  | Some report =>
      let fallbackKeys :=
        Auditor.key <$>
          filter (fun entry => Auditor.decision entry <> Auditor.installable)
                 (Auditor.perItem report) in
      filter (fun k => Js.is_empty k = false)
        (fold_left Js.set_add
           (Auditor.warningKeys report ++ Auditor.blockedKeys report ++ fallbackKeys) [])
  end.

Definition getInstallCandidates (rows : list Row) : list Row :=
  filter (fun row => isInstalledPackAction (action row) = false) rows.

(** [openInstallCenter]: the session that is prepared, [None] when the
    function returns without one.  [preflight_http] is whether the
    preflight request came back with a 2xx status. *)
Definition openInstallCenter (srv : Auditor.Server) (preflight_http : bool)
    (sourceRows : list Row) : option InstallSessionState :=
  let rows := getInstallCandidates sourceRows in
  if bool_decide (length rows = 0) then None
  else if negb preflight_http then None
  else
    match Auditor.POST srv (Some "install") (toCompatibilityPayload <$> rows) with
    | inl _ => None
    | inr preflight =>
        let incompatibleKeys :=
          filter (fun k => Js.is_empty k = false)
            (Auditor.key <$>
               filter (fun entry => Auditor.decision entry <> Auditor.installable)
                      (Auditor.perItem preflight)) in
        let installableRows :=
          filter (fun row => Js.mem (key row) incompatibleKeys = false) rows in
        if bool_decide (length installableRows = 0) then None
        else
          Some {| running := false;
                  total := length installableRows;
                  completed := 0;
                  remaining := length installableRows;
                  currentChunk := 0;
                  totalChunks := 0;
                  items := (fun row => {| item_key := key row; title := row_title row;
                                          selected := true; status := pending;
                                          details := None |})
                           <$> installableRows |}
    end.

End Client.

(** ** Pruning of conflicting packages (app/api/manager/fix/route.ts) *)

Module Prune.
Import AutoHeal.













Section Enforce.
Context `{host : Host}.
Variable backendDir : string.

(** The text of a file that holds a transaction store. *)
Variable store_text : list TxEngine.EnvTx -> string.

Local Abbreviation M := (@TxEngine.M host).

Local Notation "'let*' x ':=' m 'in' k" := (TxEngine.bind m (fun x => k))
  (at level 10, x name, m at level 100, k at level 200).








End Enforce.


End Prune.

(** ** Properties of the transaction engine *)

Module TxProps.
Import TxEngine.

Lemma mem_elem_of v l : Js.mem v l = true <-> v ∈ l.
Proof.
  unfold Js.mem. rewrite existsb_exists. split.
  - intros (x & Hin & Heq). apply String.eqb_eq in Heq. subst.
    by apply list_elem_of_In.
  - intros Hin. exists v. split; [by apply list_elem_of_In | apply String.eqb_refl].
Qed.

Lemma mem_false v l : Js.mem v l = false <-> v ∉ l.
Proof.
  rewrite <- mem_elem_of. destruct (Js.mem v l); split; congruence.
Qed.

#[local] Arguments readStore : simpl never.
#[local] Arguments writeStore : simpl never.
#[local] Arguments runPython : simpl never.
#[local] Arguments writeFreezeSnapshot : simpl never.
#[local] Arguments findTx : simpl never.
#[local] Arguments slice_last : simpl never.

Section Sanitizer.

Lemma sanitize_step_eq out item :
  sanitize_step out item =
  if spec_ok (item_text item) then Js.set_add out (item_text item) else out.
Proof.
  unfold sanitize_step, spec_ok.
  destruct (Js.is_empty (item_text item)); simpl; [done|].
  by destruct (Js.all_chars spec_char (item_text item)).
Qed.

Lemma set_add_elem_of out v x : x ∈ Js.set_add out v <-> x ∈ out ∨ x = v.
Proof.
  unfold Js.set_add. destruct (Js.mem v out) eqn:E.
  - apply mem_elem_of in E. split; [tauto|]. intros [?| ->]; done.
  - rewrite elem_of_app, list_elem_of_singleton. tauto.
Qed.

Lemma set_add_NoDup out v : NoDup out -> NoDup (Js.set_add out v).
Proof.
  intros Hnd. unfold Js.set_add. destruct (Js.mem v out) eqn:E; [done|].
  apply mem_false in E. apply NoDup_app. split_and!; [done| |apply NoDup_singleton].
  intros x Hx Hv. apply list_elem_of_singleton in Hv. by subst.
Qed.

Lemma fold_sanitize_elem_of items acc x :
  x ∈ fold_left sanitize_step items acc <->
  x ∈ acc ∨ (x ∈ map item_text items ∧ spec_ok x = true).
Proof.
  revert acc. induction items as [|item items IH]; intros acc; simpl.
  - rewrite elem_of_nil. tauto.
  - rewrite IH, sanitize_step_eq, elem_of_cons.
    destruct (spec_ok (item_text item)) eqn:E.
    + rewrite set_add_elem_of. split.
      * intros [[?| ->]|[? ?]]; eauto.
      * intros [?|[[->|?] ?]]; eauto.
    + split.
      * intros [?|[? ?]]; eauto.
      * intros [?|[[->|?] ?]]; eauto. congruence.
Qed.

Lemma fold_sanitize_NoDup items acc :
  NoDup acc -> NoDup (fold_left sanitize_step items acc).
Proof.
  revert acc. induction items as [|item items IH]; intros acc Hnd; simpl; [done|].
  apply IH. rewrite sanitize_step_eq.
  destruct (spec_ok (item_text item)); [by apply set_add_NoDup | done].
Qed.

Lemma fold_sanitize_order items acc :
  exists kept, fold_left sanitize_step items acc = acc ++ kept
               ∧ sublist kept (map item_text items).
Proof.
  revert acc. induction items as [|item items IH]; intros acc; simpl.
  - exists []. by rewrite app_nil_r.
  - destruct (IH (sanitize_step acc item)) as (kept & -> & Hsub).
    rewrite sanitize_step_eq. destruct (spec_ok (item_text item)).
    + unfold Js.set_add. destruct (Js.mem (item_text item) acc).
      * exists kept. split; [done | by apply sublist_cons].
      * exists (item_text item :: kept). rewrite <- app_assoc. simpl.
        split; [done | by apply sublist_skip].
    + exists kept. split; [done | by apply sublist_cons].
Qed.

End Sanitizer.

Section Store.
Context `{host : Host}.
Variable backendDir : string.

Local Abbreviation World := (@World host).

Lemma persisted_disk (w : World) :
  persisted backendDir w =
  match disk w !! txStorePath backendDir with
  | Some (StoreJson txs) => txs
  | _ => []
  end.
Proof.
  unfold persisted, readStore, bind, ensureDirs, mkdirSync, emit, existsSync,
    readFileSync, ret. simpl.
  destruct (disk w !! txStorePath backendDir) as [[t|txs]|] eqn:E; simpl;
    rewrite ?E; done.
Qed.

(** [readStore] reads; it only issues the two [mkdir -p] of [ensureDirs]. *)
Lemma readStore_run (w : World) :
  readStore backendDir w =
  (persisted backendDir w,
   {| ext := ext w; disk := disk w;
      log := log w ++ [MkdirP (envRoot backendDir)]
                   ++ [MkdirP (snapshotsDir backendDir)] |}).
Proof.
  unfold persisted.
  unfold readStore, bind, ensureDirs, mkdirSync, emit, existsSync,
    readFileSync, ret. simpl.
  rewrite <- app_assoc.
  destruct (bool_decide (is_Some (disk w !! txStorePath backendDir))); simpl;
    [|done].
  by destruct (disk w !! txStorePath backendDir) as [[t|txs]|].
Qed.

Lemma writeStore_run (txs : list EnvTx) (w : World) :
  writeStore backendDir txs w =
  (tt,
   {| ext := ext w;
      disk := <[txStorePath backendDir := StoreJson (slice_last MAX_TX txs)]> (disk w);
      log := log w ++ [MkdirP (envRoot backendDir)]
                   ++ [MkdirP (snapshotsDir backendDir)]
                   ++ [WriteFile (txStorePath backendDir)
                         (StoreJson (slice_last MAX_TX txs))] |}).
Proof.
  unfold writeStore, bind, ensureDirs, mkdirSync, emit, writeFileSync. simpl.
  by rewrite <- !app_assoc.
Qed.

Lemma persisted_writeStore (txs : list EnvTx) (w : World) :
  persisted backendDir (snd (writeStore backendDir txs w)) = slice_last MAX_TX txs.
Proof.
  rewrite writeStore_run, persisted_disk. simpl. by rewrite lookup_insert_eq.
Qed.

Lemma slice_last_length {A} n (l : list A) :
  length (slice_last n l) = min (length l) n.
Proof. unfold slice_last. rewrite length_drop. lia. Qed.

Lemma slice_last_app {A} n (l l' : list A) :
  slice_last n (slice_last n l ++ l') = slice_last n (l ++ l').
Proof.
  unfold slice_last. rewrite !length_app, length_drop.
  destruct (decide (length l <= n)) as [Hle|Hgt].
  - replace (length l - n) with 0 by lia. simpl. f_equal. lia.
  - replace (length l - (length l - n) + length l' - n) with (length l') by lia.
    replace (length l + length l' - n) with ((length l - n) + length l') by lia.
    rewrite <- drop_drop. f_equal. rewrite drop_app_le by lia. done.
Qed.

Lemma slice_last_snoc {A} n (l : list A) (x : A) :
  0 < n -> last (slice_last n (l ++ [x])) = Some x.
Proof.
  intros Hn. unfold slice_last. rewrite length_app. simpl.
  rewrite drop_app_le by lia. apply last_snoc.
Qed.

Lemma createPlan_requested (input : PlanInput) (w : World) :
  requestedPackages (fst (createPlan backendDir input w)) =
  sanitizePackages (packages input).
Proof.
  unfold createPlan, bind, lift_ext, ret. simpl.
  destruct (randomUUID (ext w)) as [txid e1]; simpl.
  destruct (nowIso e1) as [t1 e2]; simpl.
  destruct (nowIso e2) as [t2 e3]; simpl.
  rewrite readStore_run. simpl. by rewrite ?writeStore_run.
Qed.

Lemma createPlan_persisted (input : PlanInput) (w : World) :
  persisted backendDir (snd (createPlan backendDir input w)) =
  slice_last MAX_TX (persisted backendDir w ++ [fst (createPlan backendDir input w)]).
Proof.
  unfold createPlan, bind, lift_ext, ret. simpl.
  destruct (randomUUID (ext w)) as [txid e1]; simpl.
  destruct (nowIso e1) as [t1 e2]; simpl.
  destruct (nowIso e2) as [t2 e3]; simpl.
  rewrite readStore_run. simpl. rewrite ?writeStore_run. simpl.
  rewrite !persisted_disk. simpl. by rewrite lookup_insert_eq.
Qed.

Lemma createPlans_cons (input : PlanInput) (rest : list PlanInput) (w : World) :
  createPlans backendDir (input :: rest) w =
  let '(tx, w1) := createPlan backendDir input w in
  let '(txs, w2) := createPlans backendDir rest w1 in
  (tx :: txs, w2).
Proof.
  simpl. unfold bind. destruct (createPlan backendDir input w) as [tx w1].
  by destruct (createPlans backendDir rest w1).
Qed.

Lemma createPlans_persisted (inputs : list PlanInput) (w : World) :
  inputs ≠ [] ->
  persisted backendDir (snd (createPlans backendDir inputs w)) =
  slice_last MAX_TX (persisted backendDir w ++ fst (createPlans backendDir inputs w)).
Proof.
  revert w. induction inputs as [|input rest IH]; intros w Hne; [done|].
  rewrite createPlans_cons.
  pose proof (createPlan_persisted input w) as Hone.
  destruct (createPlan backendDir input w) as [tx w1]. simpl in Hone.
  destruct rest as [|input' rest'].
  - done.
  - specialize (IH w1 ltac:(done)).
    destruct (createPlans backendDir (input' :: rest') w1) as [txs w2].
    simpl in *. rewrite IH, Hone, slice_last_app. by rewrite <- app_assoc.
Qed.

Lemma createPlans_length (inputs : list PlanInput) (w : World) :
  length (fst (createPlans backendDir inputs w)) = length inputs.
Proof.
  revert w. induction inputs as [|input rest IH]; intros w; [done|].
  rewrite createPlans_cons. destruct (createPlan backendDir input w) as [tx w1].
  specialize (IH w1).
  destruct (createPlans backendDir rest w1) as [txs w2]. simpl in *. by rewrite IH.
Qed.

Lemma findTx_run (wanted : string) (w : World) :
  findTx backendDir wanted w =
  ((persisted backendDir w, locate wanted (persisted backendDir w)),
   {| ext := ext w; disk := disk w;
      log := log w ++ [MkdirP (envRoot backendDir)]
                   ++ [MkdirP (snapshotsDir backendDir)] |}).
Proof.
  unfold findTx, bind. by rewrite readStore_run.
Qed.

(** Effects only accumulate, and none of them is a rename. *)
Definition tidy {A} (m : M A) : Prop :=
  forall w, exists added,
    log (snd (m w)) = log w ++ added /\ forall src dst, Rename src dst ∉ added.

Lemma tidy_ret {A} (a : A) : tidy (ret a).
Proof.
  intros w. exists []. simpl. rewrite app_nil_r. split; [done|]. intros ??; apply not_elem_of_nil.
Qed.

Lemma tidy_bind {A B} (m : M A) (k : A -> M B) :
  tidy m -> (forall a, tidy (k a)) -> tidy (bind m k).
Proof.
  intros Hm Hk w. unfold bind. destruct (Hm w) as (a1 & E1 & N1).
  destruct (m w) as [a w1]. simpl in *.
  destruct (Hk a w1) as (a2 & E2 & N2).
  exists (a1 ++ a2). rewrite E2, E1, app_assoc. split; [done|].
  intros src dst Hin. apply elem_of_app in Hin as [Hin|Hin]; [by eapply N1 | by eapply N2].
Qed.

Lemma tidy_lift_ext {A} (f : Ext -> A * Ext) : tidy (lift_ext f).
Proof.
  intros w. exists []. unfold lift_ext. destruct (f (ext w)). simpl.
  rewrite app_nil_r. split; [done|]. intros ??; apply not_elem_of_nil.
Qed.

Lemma tidy_existsSync p : tidy (existsSync p).
Proof.
  intros w. exists []. simpl. rewrite app_nil_r. split; [done|]. intros ??; apply not_elem_of_nil.
Qed.

Lemma tidy_emit e : (forall src dst, e <> Rename src dst) -> tidy (emit e).
Proof.
  intros Hne w. exists [e]. simpl. split; [done|].
  intros src dst Hin. apply list_elem_of_singleton in Hin. by eapply Hne.
Qed.

Lemma tidy_writeFileSync p c : tidy (writeFileSync p c).
Proof.
  intros w. exists [WriteFile p c]. simpl. split; [done|].
  intros src dst Hin. by apply list_elem_of_singleton in Hin.
Qed.

Lemma tidy_if {A} (b : bool) (m1 m2 : M A) :
  tidy m1 -> tidy m2 -> tidy (if b then m1 else m2).
Proof. by destruct b. Qed.

Ltac tidy_step :=
  first
    [ apply tidy_ret
    | apply tidy_lift_ext
    | apply tidy_existsSync
    | apply tidy_writeFileSync
    | apply tidy_emit; intros; discriminate
    | apply tidy_if
    | apply tidy_bind; [|intros ?] ].

Lemma tidy_readStore : tidy (readStore backendDir).
Proof.
  intros w. rewrite readStore_run. simpl.
  exists ([MkdirP (envRoot backendDir)] ++ [MkdirP (snapshotsDir backendDir)]).
  split; [done|]. intros src dst Hin. simpl in Hin.
  repeat (apply elem_of_cons in Hin as [Hin|Hin]; [discriminate|]).
  by apply elem_of_nil in Hin.
Qed.

Lemma tidy_writeStore txs : tidy (writeStore backendDir txs).
Proof.
  unfold writeStore, ensureDirs, mkdirSync. repeat tidy_step.
Qed.

Lemma tidy_runPython args : tidy (runPython backendDir args).
Proof.
  unfold runPython. repeat tidy_step.
Qed.

Lemma tidy_writeFreezeSnapshot tag : tidy (writeFreezeSnapshot backendDir tag).
Proof.
  unfold writeFreezeSnapshot. apply tidy_bind; [apply tidy_runPython|intros st].
  repeat tidy_step.
Qed.

Lemma tidy_findTx wanted : tidy (findTx backendDir wanted).
Proof.
  unfold findTx. apply tidy_bind; [apply tidy_readStore|intros store].
  apply tidy_ret.
Qed.

Lemma tidy_createPlan input : tidy (createPlan backendDir input).
Proof.
  unfold createPlan. do 3 (apply tidy_bind; [apply tidy_lift_ext|intros ?]).
  apply tidy_bind; [apply tidy_readStore|intros store].
  apply tidy_bind; [apply tidy_writeStore|intros ?]. apply tidy_ret.
Qed.

Lemma tidy_applyTransaction wanted : tidy (applyTransaction backendDir wanted).
Proof.
  unfold applyTransaction. apply tidy_bind; [apply tidy_findTx|intros [store found]].
  destruct found as [[tx index]|]; [|apply tidy_ret].
  apply tidy_if; [apply tidy_ret|].
  apply tidy_bind; [apply tidy_lift_ext|intros now].
  apply tidy_bind; [apply tidy_writeFreezeSnapshot|intros before].
  apply tidy_bind; [apply tidy_writeStore|intros ?].
  do 2 (apply tidy_bind; [apply tidy_runPython|intros ?]).
  apply tidy_bind.
  { simpl. destruct (kind tx); [apply tidy_ret|].
    destruct (requestedPackages tx); [apply tidy_ret|].
    apply tidy_bind; [apply tidy_runPython|intros ?]. apply tidy_ret. }
  intros s3.
  apply tidy_bind; [apply tidy_runPython|intros pipCheck].
  apply tidy_bind; [apply tidy_writeFreezeSnapshot|intros after].
  apply tidy_bind; [apply tidy_lift_ext|intros now2].
  apply tidy_bind; [apply tidy_writeStore|intros ?]. apply tidy_ret.
Qed.

Lemma tidy_rollbackTransaction wanted : tidy (rollbackTransaction backendDir wanted).
Proof.
  unfold rollbackTransaction. apply tidy_bind; [apply tidy_findTx|intros [store found]].
  destruct found as [[tx index]|]; [|apply tidy_ret].
  destruct (snapshotBefore tx) as [| |snap]; try apply tidy_ret.
  apply tidy_if; [apply tidy_ret|].
  apply tidy_bind; [apply tidy_existsSync|intros on_disk].
  apply tidy_if; [apply tidy_ret|].
  do 3 (apply tidy_bind; [apply tidy_lift_ext|intros ?]).
  do 2 (apply tidy_bind; [apply tidy_runPython|intros ?]).
  apply tidy_bind; [apply tidy_writeFreezeSnapshot|intros after].
  apply tidy_bind; [apply tidy_lift_ext|intros now].
  apply tidy_bind; [apply tidy_writeStore|intros ?]. apply tidy_ret.
Qed.

End Store.

End TxProps.

(** ** Life cycle of a transaction *)

Module TxLife.
Import TxEngine TxProps.

Section Lifecycle.
Context `{host : Host}.
Variable backendDir : string.

Local Abbreviation World := (@World host).

Definition refusal : string := "No pre-apply snapshot found for this transaction.".

Definition after_lookup (w : World) : World :=
  {| ext := ext w; disk := disk w;
     log := log w ++ [MkdirP (envRoot backendDir)]
                  ++ [MkdirP (snapshotsDir backendDir)] |}.

Lemma apply_refused (wanted : string) (w : World) (tx : EnvTx) (index : nat) :
  locate wanted (persisted backendDir w) = Some (tx, index) ->
  status tx <> planned -> status tx <> failed ->
  applyTransaction backendDir wanted w =
  (Refused 409 ("Transaction is " +:+ EnvTxStatus_str (status tx)
                 +:+ "; only planned/failed can be applied."),
   after_lookup w).
Proof.
  intros Hloc Hp Hf. unfold applyTransaction, bind.
  rewrite findTx_run, Hloc.
  rewrite (bool_decide_eq_false_2 _ Hp), (bool_decide_eq_false_2 _ Hf). done.
Qed.

Lemma rollback_refused (wanted : string) (w : World) (tx : EnvTx) (index : nat) :
  locate wanted (persisted backendDir w) = Some (tx, index) ->
  (forall snap, snapshotBefore tx = Present snap -> snap = "" \/ disk w !! snap = None) ->
  rollbackTransaction backendDir wanted w = (Refused 409 refusal, after_lookup w).
Proof.
  intros Hloc Hsnap. unfold rollbackTransaction, bind.
  rewrite findTx_run, Hloc.
  destruct (snapshotBefore tx) as [| |snap] eqn:E; try done.
  destruct (Hsnap snap eq_refl) as [->|Hnone]; [done|].
  destruct (Js.is_empty snap); [done|].
  unfold existsSync. cbn [after_lookup disk]. rewrite Hnone.
  rewrite bool_decide_eq_false_2; [done|]. by intros [? ?].
Qed.

(** The record that a rollback builds from its ingredients. *)
Definition rollback_record (rid created now snap target : string)
    (inst check : EnvStep) (after : field string) : EnvTx :=
  {| id := rid; kind := repair;
     status := if ok check then rolled_back else failed;
     createdAt := created; updatedAt := now;
     requestedPackages := [];
     planCommands := ["python -m pip install -r <snapshot-before>";
                      "python -m pip check"];
     steps := [inst; check];
     pipCheckOutput := Some (output check);
     pipHealthy := Some (ok check);
     rollbackOf := Some target;
     snapshotBefore := Present snap; snapshotAfter := after;
     error := if ok check then Null
              else Present "Rollback completed but pip check still reports conflicts." |}.

Lemma rollback_runs (wanted : string) (w : World) (tx : EnvTx) (index : nat)
    (snap : string) :
  locate wanted (persisted backendDir w) = Some (tx, index) ->
  snapshotBefore tx = Present snap -> snap <> "" -> is_Some (disk w !! snap) ->
  exists rid created now after w1 w2 w',
    rollbackTransaction backendDir wanted w =
      (Done (rollback_record rid created now snap (id tx)
               (fst (runPython backendDir ["-m"; "pip"; "install"; "-r"; snap] w1))
               (fst (runPython backendDir ["-m"; "pip"; "check"] w2)) after),
       w')
    /\ persisted backendDir w' =
       slice_last MAX_TX
         (persisted backendDir w ++
          [rollback_record rid created now snap (id tx)
             (fst (runPython backendDir ["-m"; "pip"; "install"; "-r"; snap] w1))
             (fst (runPython backendDir ["-m"; "pip"; "check"] w2)) after]).
Proof.
  intros Hloc Hsnap Hne Hdisk. unfold rollbackTransaction, bind.
  rewrite findTx_run, Hloc, Hsnap.
  destruct (Js.is_empty snap) eqn:Eempty; [by destruct snap|].
  unfold existsSync. cbn [after_lookup disk].
  rewrite (bool_decide_eq_true_2 _ Hdisk). cbn [negb].
  set (wa := {| ext := ext w; disk := disk w;
                log := log w ++ [MkdirP (envRoot backendDir)]
                             ++ [MkdirP (snapshotsDir backendDir)] |}).
  destruct (lift_ext randomUUID wa) as [rid wb].
  destruct (lift_ext nowIso wb) as [created wc].
  destruct (lift_ext nowIso wc) as [updated wd].
  destruct (runPython backendDir ["-m"; "pip"; "install"; "-r"; snap] wd)
    as [inst we] eqn:Einst.
  destruct (runPython backendDir ["-m"; "pip"; "check"] we) as [check wf] eqn:Echeck.
  destruct (writeFreezeSnapshot backendDir (rid +:+ "-after") wf) as [after wg].
  destruct (lift_ext nowIso wg) as [now wh].
  rewrite writeStore_run. unfold ret.
  eexists rid, created, now, after, wd, we, _.
  rewrite Einst, Echeck. cbn [fst]. split; [reflexivity|].
  rewrite persisted_disk. cbn [disk]. by rewrite lookup_insert_eq.
Qed.

End Lifecycle.

End TxLife.

(** ** Statements about the transaction engine *)

Module TxClaims.
Import TxEngine TxProps TxLife.

(** C1 (as the code has it).  [createPlan] records the sanitized request:
    every element is turned into text and trimmed; the trimmed texts that
    are non-empty and made only of characters of the class
    [[A-Za-z0-9_.\-<>=!~\[\],:@+/ ]] survive, without duplicates and in
    their original order.  The class contains the space, the dash and the
    slash, so for the packages of scenario E2 the recorded list is
    ["torch==2.4"; "rm -rf /"; "pillow"]. *)
Theorem C1_sanitized_request `{host : Host} (backendDir : string)
    (m : option string) (items : list Js.value) (w : World) :
  let recorded input :=
    requestedPackages
      (fst (createPlan backendDir {| mode := m; packages := Js.IsArray input |} w)) in
  NoDup (recorded items)
  /\ (forall v, v ∈ recorded items <-> v ∈ map item_text items /\ spec_ok v = true)
  /\ sublist (recorded items) (map item_text items)
  /\ recorded [Js.VString "torch==2.4"; Js.VString "rm -rf /"; Js.VString "pillow"]
     = ["torch==2.4"; "rm -rf /"; "pillow"].
Proof.
  intros recorded. subst recorded. cbn beta. rewrite !createPlan_requested. simpl.
  split_and!.
  - apply fold_sanitize_NoDup, NoDup_nil_2.
  - intros v. rewrite fold_sanitize_elem_of, elem_of_nil. tauto.
  - destruct (fold_sanitize_order items []) as (kept & -> & Hsub). done.
  - reflexivity.
Qed.

(** The request of scenario E2 on a fresh backend. *)
Lemma C1_sanitized_request_e2 :
  requestedPackages (fst (createPlan Demo.backend Demo.e2_input Demo.fresh))
  = ["torch==2.4"; "rm -rf /"; "pillow"].
Proof.
  exact (proj2 (proj2 (proj2
    (C1_sanitized_request (host := Demo.healthy) Demo.backend (Some "install")
       [] Demo.fresh)))).
Defined.

(** C1, scenario E2 as the specification words it, fails: the plan does not
    record exactly ["torch==2.4"; "pillow"]. *)
Lemma C1_e2_keeps_every_element :
  requestedPackages (fst (createPlan Demo.backend Demo.e2_input Demo.fresh))
  <> ["torch==2.4"; "pillow"].
Proof. vm_compute. discriminate. Qed.

(** C2 (as the code has it).  For a stored transaction T, rollback answers
    409 when T has no pre-apply snapshot on disk; otherwise it builds and
    persists a new transaction of kind "repair" (the kind type has no
    "rollback" member) with rollbackOf = T.id, the two plan commands, the
    install and the check as its steps, and status rolled_back when that
    check succeeded and failed otherwise. *)
Theorem C2_rollback `{host : Host} (backendDir : string) (wanted : string)
    (w : World) (tx : EnvTx) (index : nat) :
  locate wanted (persisted backendDir w) = Some (tx, index) ->
  ((forall snap, snapshotBefore tx = Present snap -> snap = "" \/ disk w !! snap = None) ->
     exists msg w', rollbackTransaction backendDir wanted w = (Refused 409 msg, w')
                    /\ disk w' = disk w)
  /\ (forall snap, snapshotBefore tx = Present snap -> snap <> "" ->
      is_Some (disk w !! snap) ->
      exists rtx w1 w2 w',
        rollbackTransaction backendDir wanted w = (Done rtx, w')
        /\ EnvTxKind_str (kind rtx) = "repair"
        /\ rollbackOf rtx = Some (id tx)
        /\ planCommands rtx = ["python -m pip install -r <snapshot-before>";
                               "python -m pip check"]
        /\ steps rtx = [fst (runPython backendDir ["-m"; "pip"; "install"; "-r"; snap] w1);
                        fst (runPython backendDir ["-m"; "pip"; "check"] w2)]
        /\ status rtx =
             (if ok (fst (runPython backendDir ["-m"; "pip"; "check"] w2))
              then rolled_back else failed)
        /\ persisted backendDir w' = slice_last MAX_TX (persisted backendDir w ++ [rtx])
        /\ last (persisted backendDir w') = Some rtx).
Proof.
  intros Hloc. split.
  - intros Hsnap. eexists _, _. rewrite (rollback_refused _ _ _ _ _ Hloc Hsnap).
    split; reflexivity.
  - intros snap Hsnap Hne Hdisk.
    destruct (rollback_runs backendDir wanted w tx index snap Hloc Hsnap Hne Hdisk)
      as (rid & created & now & after & w1 & w2 & w' & Hrun & Hstore).
    eexists _, w1, w2, w'. split; [exact Hrun|]. split_and!; try reflexivity.
    + exact Hstore.
    + rewrite Hstore. apply slice_last_snoc. unfold MAX_TX. lia.
Qed.

(** Rolling back the transaction of scenario E1. *)
Lemma C2_rollback_after_e1 :
  exists rtx (w1 w2 w' : @World Demo.healthy),
    rollbackTransaction Demo.backend "T1" Demo.after_e1 = (Done rtx, w')
    /\ EnvTxKind_str (kind rtx) = "repair"
    /\ rollbackOf rtx = Some "T1"
    /\ planCommands rtx = ["python -m pip install -r <snapshot-before>";
                           "python -m pip check"]
    /\ steps rtx =
       [fst (runPython Demo.backend ["-m"; "pip"; "install"; "-r"; Demo.t1_snapshot] w1);
        fst (runPython Demo.backend ["-m"; "pip"; "check"] w2)]
    /\ status rtx =
         (if ok (fst (runPython Demo.backend ["-m"; "pip"; "check"] w2))
          then rolled_back else failed)
    /\ persisted Demo.backend w' =
       slice_last MAX_TX (persisted Demo.backend Demo.after_e1 ++ [rtx])
    /\ last (persisted Demo.backend w') = Some rtx.
Proof.
  refine (proj2 (C2_rollback (host := Demo.healthy) Demo.backend "T1" Demo.after_e1
                   Demo.t1 0 _) Demo.t1_snapshot _ _ _).
  - vm_compute. reflexivity.
  - reflexivity.
  - vm_compute. discriminate.
  - vm_compute. eexists. reflexivity.
Defined.

(** C2 as the specification words it fails: after E1, the transaction that
    rollback creates has kind "repair", not "rollback". *)
Lemma C2_rollback_kind_is_not_rollback :
  match fst (rollbackTransaction Demo.backend "T1" Demo.after_e1) with
  | Done rtx => rollbackOf rtx = Some "T1" /\ EnvTxKind_str (kind rtx) <> "rollback"
  | Refused _ _ => False
  end.
Proof. vm_compute. split; [reflexivity | discriminate]. Qed.

(** C3.  [applyTransaction] on a stored transaction whose status is neither
    planned nor failed answers 409 and changes nothing: no clock, UUID or
    interpreter call is made, the disk is the same, the only effects are
    the two idempotent [mkdir -p] of the read, and the store reads back
    the same. *)
Theorem C3_apply_conflict `{host : Host} (backendDir : string) (wanted : string)
    (w : World) (tx : EnvTx) (index : nat) :
  locate wanted (persisted backendDir w) = Some (tx, index) ->
  status tx <> planned -> status tx <> failed ->
  exists msg w',
    applyTransaction backendDir wanted w = (Refused 409 msg, w')
    /\ ext w' = ext w
    /\ disk w' = disk w
    /\ log w' = log w ++ [MkdirP (envRoot backendDir); MkdirP (snapshotsDir backendDir)]
    /\ persisted backendDir w' = persisted backendDir w
    /\ locate wanted (persisted backendDir w') = Some (tx, index).
Proof.
  intros Hloc Hp Hf. eexists _, _.
  rewrite (apply_refused backendDir wanted w tx index Hloc Hp Hf).
  split; [reflexivity|]. split_and!; try reflexivity.
  - by rewrite !persisted_disk.
  - by rewrite <- Hloc, !persisted_disk.
Qed.

(** Applying a transaction that has already succeeded. *)
Lemma C3_apply_conflict_succeeded :
  exists msg (w' : @World Demo.healthy),
    applyTransaction Demo.backend "T1" Demo.after_e1 = (Refused 409 msg, w')
    /\ ext w' = ext Demo.after_e1
    /\ disk w' = disk Demo.after_e1
    /\ log w' = log Demo.after_e1
                ++ [MkdirP (envRoot Demo.backend); MkdirP (snapshotsDir Demo.backend)]
    /\ persisted Demo.backend w' = persisted Demo.backend Demo.after_e1
    /\ locate "T1" (persisted Demo.backend w') = Some (Demo.t1, 0).
Proof.
  apply (C3_apply_conflict (host := Demo.healthy) Demo.backend "T1" Demo.after_e1
           Demo.t1 0).
  - vm_compute. reflexivity.
  - discriminate.
  - discriminate.
Defined.

(** C4 (as the code has it).  Every mutation of the transaction store goes
    through [writeStore], which rewrites transactions.json in place: after
    the two [mkdir -p] it issues one [writeFileSync] on the store path
    itself, holding the last 200 entries.  No operation of the engine
    renames a file, so no write is of the write-new-then-rename kind. *)
Theorem C4_store_rewritten_in_place `{host : Host} (backendDir : string) :
  (forall txs w,
      log (snd (writeStore backendDir txs w)) =
      log w ++ [MkdirP (envRoot backendDir); MkdirP (snapshotsDir backendDir);
                WriteFile (txStorePath backendDir) (StoreJson (slice_last MAX_TX txs))])
  /\ (forall txs (w : World),
      ~ replaces_by_rename (txStorePath backendDir)
          (log (snd (writeStore backendDir txs w))))
  /\ (forall input, tidy (createPlan backendDir input))
  /\ (forall wanted, tidy (applyTransaction backendDir wanted))
  /\ (forall wanted, tidy (rollbackTransaction backendDir wanted)).
Proof.
  split_and!.
  - intros txs w. by rewrite writeStore_run.
  - intros txs w [_ Hnone]. rewrite writeStore_run in Hnone. cbn [snd log] in Hnone.
    eapply Hnone. rewrite !elem_of_app. right. right. right.
    apply list_elem_of_singleton. reflexivity.
  - apply tidy_createPlan.
  - apply tidy_applyTransaction.
  - apply tidy_rollbackTransaction.
Qed.

(** C4 as the specification words it fails: the effects of one store write
    on a fresh disk contain no write-new-then-rename. *)
Lemma C4_no_rename_on_write :
  ~ replaces_by_rename (txStorePath Demo.backend)
      (log (snd (writeStore Demo.backend [Demo.t1] Demo.fresh))).
Proof.
  intros [(tmp & content & Hne & Hwrite & Hrename) _].
  vm_compute in Hrename.
  repeat (apply elem_of_cons in Hrename as [Hrename|Hrename]; [discriminate|]).
  by apply elem_of_nil in Hrename.
Qed.

(** C5.  Starting from an empty store, after N calls of [createPlan] the
    persisted store holds the last min(N, 200) created transactions in
    creation order; every write keeps the last 200 entries of what it is
    given. *)
Theorem C5_store_bound `{host : Host} (backendDir : string)
    (inputs : list PlanInput) (w : World) :
  persisted backendDir w = [] ->
  let created := fst (createPlans backendDir inputs w) in
  let stored := persisted backendDir (snd (createPlans backendDir inputs w)) in
  length created = length inputs
  /\ stored = drop (length created - 200) created
  /\ length stored = min (length inputs) 200
  /\ (forall txs w0, persisted backendDir (snd (writeStore backendDir txs w0))
                     = drop (length txs - 200) txs).
Proof.
  intros Hempty created stored. subst created stored.
  assert (Hstored :
    persisted backendDir (snd (createPlans backendDir inputs w)) =
    slice_last MAX_TX (fst (createPlans backendDir inputs w))).
  { destruct inputs as [|input rest].
    - simpl. by rewrite Hempty.
    - rewrite createPlans_persisted by done. by rewrite Hempty. }
  split_and!.
  - apply createPlans_length.
  - exact Hstored.
  - rewrite Hstored, slice_last_length, createPlans_length. done.
  - intros txs w0. apply persisted_writeStore.
Qed.

(** Two hundred and one plans on a fresh backend: the first one is evicted. *)
Lemma C5_store_bound_201 :
  let inputs := replicate 201 Demo.repair_input in
  let created := fst (createPlans Demo.backend inputs Demo.fresh) in
  let stored := persisted Demo.backend (snd (createPlans Demo.backend inputs Demo.fresh)) in
  length created = length inputs
  /\ stored = drop (length created - 200) created
  /\ length stored = min (length inputs) 200
  /\ (forall txs (w0 : @World Demo.healthy),
        persisted Demo.backend (snd (writeStore Demo.backend txs w0))
        = drop (length txs - 200) txs).
Proof.
  apply (C5_store_bound (host := Demo.healthy) Demo.backend
           (replicate 201 Demo.repair_input) Demo.fresh).
  vm_compute. reflexivity.
Defined.

End TxClaims.

(** ** Properties of the compatibility preflight *)

Module AuditorProps.
Import Auditor.

Lemma assessItem_decision (item : CatalogItem) (hw : HardwareProfile) (now : string) :
  decision (assessItem item hw now) =
  fst (darwin_stage hw (getTextBlob item)
         (rocm_stage hw (getTextBlob item)
            (cuda_stage hw (getTextBlob item) (installable, [])))).
Proof. reflexivity. Qed.

Lemma decision_now (item : CatalogItem) (hw : HardwareProfile) (n1 n2 : string) :
  decision (assessItem item hw n1) = decision (assessItem item hw n2).
Proof. reflexivity. Qed.

(** The three stages compute the decision table. *)
Lemma stages_table (hw : HardwareProfile) (text : string) :
  fst (darwin_stage hw text (rocm_stage hw text (cuda_stage hw text (installable, []))))
  = table_decision hw text.
Proof.
  unfold table_decision, blocking_rule, warning_rule, darwin_stage, rocm_stage, cuda_stage.
  destruct (hasNvidia hw), (hasRocm hw), (isDarwinArm64 hw);
    destruct (test_any cudaOnlyMarkers text), (test_any cudaMarkers text),
      (test_any rocmOnlyMarkers text), (test_any rocmMarkers text),
      (test_any darwinMarkers text); reflexivity.
Qed.

End AuditorProps.

Module AuditorClaims.
Import Auditor AuditorProps.

(** C8.  The decision of [assessItem] is the one of the decision table:
    blocked when a blocking rule fires, otherwise warning when a warning
    rule fires, otherwise installable.  Without NVIDIA hardware a CUDA-only
    marker blocks and a general CUDA marker alone warns; with NVIDIA
    hardware an item on which no other rule fires is installable.  In
    scenario E4 the summary is total 2, installable 1, warning 0, blocked 1
    and the blocked keys are exactly the key of the first item. *)
Theorem C8_precedence (item : CatalogItem) (hw : HardwareProfile) (now : string) :
  let text := getTextBlob item in
  let verdict := decision (assessItem item hw now) in
  verdict = table_decision hw text
  /\ (hasNvidia hw = false -> test_any cudaOnlyMarkers text = true -> verdict = blocked)
  /\ (hasNvidia hw = false -> test_any cudaOnlyMarkers text = false ->
      test_any rocmOnlyMarkers text = false -> test_any cudaMarkers text = true ->
      verdict = warning)
  /\ (hasNvidia hw = true -> other_rule_fires hw text = false -> verdict = installable)
  /\ (exists report,
        POST e4_server (Some "install") [e4_flash; e4_standard] = inr report
        /\ summary report =
           {| total := 2; n_installable := 1; n_warning := 0; n_blocked := 1 |}
        /\ blockedKeys report = [key (assessItem e4_flash (readHardwareProfile (marker e4_server)) now)]).
Proof.
  intros text verdict. subst verdict.
  rewrite assessItem_decision, stages_table. fold text.
  unfold table_decision, blocking_rule, warning_rule, other_rule_fires.
  split_and!.
  - reflexivity.
  - intros -> ->. reflexivity.
  - intros -> -> -> ->. by destruct (hasRocm hw).
  - intros ->.
    destruct (hasRocm hw), (isDarwinArm64 hw),
      (test_any rocmOnlyMarkers text), (test_any rocmMarkers text),
      (test_any darwinMarkers text), (test_any cudaOnlyMarkers text);
      simpl; intros; (reflexivity || discriminate).
  - eexists. split; [vm_compute; reflexivity|]. split; reflexivity.
Qed.

(** The first pack of scenario E4 on the hardware of E4 and on an NVIDIA
    machine, and a pack that only mentions CUDA. *)
Lemma C8_precedence_e4 :
  decision (assessItem e4_flash (readHardwareProfile (marker e4_server)) "0") = blocked
  /\ decision (assessItem
                 {| ui_id := None; uiKey := None; id := Some "cuda-kernels";
                    title := None; author := None; description := None;
                    repository := None; reference := None; files := None |}
                 (readHardwareProfile (marker e4_server)) "0") = warning
  /\ decision (assessItem e4_flash
                 (readHardwareProfile (Some "linux-x86_64-nvidia:true-rocm:false")) "0")
     = installable.
Proof.
  split_and!.
  - apply (proj1 (proj2 (C8_precedence e4_flash
                           (readHardwareProfile (marker e4_server)) "0")));
      vm_compute; reflexivity.
  - apply (proj1 (proj2 (proj2 (C8_precedence _
                           (readHardwareProfile (marker e4_server)) "0"))));
      vm_compute; reflexivity.
  - apply (proj1 (proj2 (proj2 (proj2 (C8_precedence e4_flash
             (readHardwareProfile (Some "linux-x86_64-nvidia:true-rocm:false")) "0")))));
      vm_compute; reflexivity.
Defined.

End AuditorClaims.

(** ** Properties of the install session *)

Module OrchProps.
Import Orchestrator.

Lemma payload_key (row : Row) (hw : Auditor.HardwareProfile) (now : string) :
  key row <> "" ->
  Auditor.key (Auditor.assessItem (toCompatibilityPayload row) hw now) = key row.
Proof.
  intros Hne. unfold Auditor.assessItem, toCompatibilityPayload. simpl.
  by destruct (key row).
Qed.

Lemma filter_twice {A} (P : A -> Prop) `{forall x, Decision (P x)} (l : list A) :
  filter P (filter P l) = filter P l.
Proof.
  induction l as [|x l IH]; [done|].
  rewrite filter_cons. destruct (decide (P x)) as [Hp|Hp]; [|done].
  rewrite filter_cons, decide_True by done. by rewrite IH.
Qed.

Definition not_installable (entry : Auditor.PackDecision) : Prop :=
  Auditor.has_decision Auditor.installable entry = false.

(** The keys taken out of the list are those of the assessed items that are
    not installable, whether or not the report is compact. *)
Lemma POST_incompatibleKeys (srv : Auditor.Server) (m : option string)
    (payload : list Auditor.CatalogItem) (report : Auditor.PreflightReport) :
  Auditor.POST srv m payload = inr report ->
  incompatibleKeys report =
  Auditor.key <$>
    filter not_installable
      (imap (fun i it => Auditor.assessItem it
                           (Auditor.readHardwareProfile (Auditor.marker srv))
                           (Auditor.clock srv i)) payload).
Proof.
  unfold Auditor.POST. case_bool_decide; [discriminate|].
  intros [= <-]. unfold incompatibleKeys. cbn [Auditor.perItem].
  case_bool_decide; [|done]. f_equal. apply filter_twice.
Qed.

Lemma bad_key (srv : Auditor.Server) (m : option string) (rows : list Row)
    (report : Auditor.PreflightReport) (r : Row) (now : string) :
  Auditor.POST srv m (toCompatibilityPayload <$> rows) = inr report ->
  r ∈ rows -> key r <> "" ->
  Auditor.decision
    (Auditor.assessItem (toCompatibilityPayload r)
       (Auditor.readHardwareProfile (Auditor.marker srv)) now) <> Auditor.installable ->
  key r ∈ incompatibleKeys report.
Proof.
  intros Hpost Hin Hkey Hdec. rewrite (POST_incompatibleKeys _ _ _ _ Hpost).
  apply list_elem_of_lookup in Hin as [i Hi].
  set (hw := Auditor.readHardwareProfile (Auditor.marker srv)) in *.
  set (entry := Auditor.assessItem (toCompatibilityPayload r) hw (Auditor.clock srv i)).
  rewrite <- (payload_key r hw (Auditor.clock srv i) Hkey).
  apply (list_elem_of_fmap_2 Auditor.key). apply list_elem_of_filter. split.
  - unfold not_installable, Auditor.has_decision. apply bool_decide_eq_false_2.
    by rewrite (AuditorProps.decision_now _ _ _ now).
  - apply list_elem_of_lookup. exists i.
    rewrite list_lookup_imap, list_lookup_fmap, Hi. done.
Qed.

(** The part of a session that concerns the keys in [K]. *)
Definition view (K : list string) (st : InstallSessionState) : list InstallSessionItem :=
  filter (fun it => Js.mem (item_key it) K = true) (items st).

Lemma filter_fmap_fixed {A} (P : A -> Prop) `{forall x, Decision (P x)}
    (f : A -> A) (l : list A) :
  (forall x, P (f x) <-> P x) -> (forall x, P x -> f x = x) ->
  filter P (f <$> l) = filter P l.
Proof.
  intros Hiff Hfix. induction l as [|x l IH]; [done|].
  rewrite fmap_cons, !filter_cons.
  destruct (decide (P x)) as [Hp|Hp].
  - rewrite decide_True by by apply Hiff. by rewrite IH, Hfix.
  - rewrite decide_False by by rewrite Hiff. done.
Qed.

Lemma mem_true v l : Js.mem v l = true <-> v ∈ l.
Proof. apply TxProps.mem_elem_of. Qed.

Lemma view_update (K keys : list string) (stt : InstallItemStatus)
    (note : option string) (st : InstallSessionState) :
  (forall k, k ∈ keys -> k ∉ K) ->
  view K (updateInstallItems keys stt note st) = view K st.
Proof.
  intros Hdisj. unfold view, updateInstallItems. cbn [items].
  apply filter_fmap_fixed.
  - intros it. by destruct (Js.mem (item_key it) keys).
  - intros it Hk. destruct (Js.mem (item_key it) keys) eqn:E; [|done].
    apply mem_true in E, Hk. by destruct (Hdisj _ E).
Qed.

Lemma slice_subseteq {A} (i j : nat) (l : list A) (x : A) :
  x ∈ slice i j l -> x ∈ l.
Proof.
  unfold slice. intros Hin. apply subseteq_drop with i. by apply subseteq_take with (j - i).
Qed.

(** The loop only queues rows of the list it is given, and leaves alone the
    session items whose keys the list does not mention. *)
Lemma submit_loop_sound (env : Surroundings) (cs : nat) (rows : list Row)
    (K : list string) (fuel i : nat) (st : InstallSessionState)
    (sent : list (list Row)) :
  (forall r, r ∈ rows -> key r ∉ K) ->
  let out := submit_loop env cs rows fuel i st sent in
  view K (fst out) = view K st
  /\ forall chunk, chunk ∈ snd out -> chunk ∈ sent \/ forall r, r ∈ chunk -> r ∈ rows.
Proof.
  intros Hdisj. revert i st sent.
  induction fuel as [|fuel IH]; intros i st sent; cbn [submit_loop].
  - split; [done|]. intros chunk ?. by left.
  - destruct (negb (i <? length rows)%nat); [split; [done|]; intros chunk ?; by left|].
    destruct (canceled env (i / cs + 1)); [split; [done|]; intros chunk ?; by left|].
    set (chunk := slice i (i + cs) rows).
    assert (Hkeys : forall k, k ∈ key <$> chunk -> k ∉ K).
    { intros k Hk. apply list_elem_of_fmap in Hk as (r & -> & Hr).
      apply Hdisj. by eapply slice_subseteq. }
    match goal with
    | |- context [submit_loop env cs rows fuel (i + cs) ?st' ?sent'] =>
        destruct (IH (i + cs) st' sent') as [Hview Hsent];
        assert (Hst : view K st' = view K st)
    end.
    { destruct (batch_error env (i / cs + 1)); rewrite !view_update by done; done. }
    split; [by rewrite Hview, Hst|].
    intros c Hc. destruct (Hsent c Hc) as [Hold|Hnew]; [|by right].
    apply elem_of_app in Hold as [?|Hone]; [by left|].
    apply list_elem_of_singleton in Hone as ->. right.
    intros r Hr. by eapply slice_subseteq.
Qed.

(** The bound on the iterations is never what ends the loop: when nobody
    cancels, every row of the list is queued, in order. *)
Lemma submit_loop_complete (env : Surroundings) (cs : nat) (rows : list Row)
    (fuel i : nat) (st : InstallSessionState) (sent : list (list Row)) :
  (forall k, canceled env k = false) -> 0 < cs ->
  length rows - i <= fuel * cs ->
  concat (snd (submit_loop env cs rows fuel i st sent)) = concat sent ++ drop i rows.
Proof.
  intros Hgo Hcs. revert i st sent.
  induction fuel as [|fuel IH]; intros i st sent Hfuel; cbn [submit_loop].
  - rewrite drop_ge by lia. by rewrite app_nil_r.
  - destruct (i <? length rows)%nat eqn:Hi; cbn [negb].
    + apply Nat.ltb_lt in Hi. rewrite Hgo.
      rewrite IH by lia. rewrite concat_app. cbn [concat]. rewrite app_nil_r.
      rewrite <- app_assoc. f_equal. unfold slice.
      replace (i + cs - i) with cs by lia.
      rewrite <- drop_drop. apply take_drop.
    + apply Nat.ltb_ge in Hi. rewrite drop_ge by lia. by rewrite app_nil_r.
Qed.

Lemma updated_items (keys : list string) (stt : InstallItemStatus)
    (note : option string) (st : InstallSessionState) (it : InstallSessionItem) :
  it ∈ items (updateInstallItems keys stt note st) -> item_key it ∈ keys ->
  status it = stt /\ details it = note.
Proof.
  unfold updateInstallItems. cbn [items]. intros Hin Hk.
  apply list_elem_of_fmap in Hin as (old & -> & _).
  destruct (Js.mem (item_key old) keys) eqn:E; [done|].
  apply TxProps.mem_false in E. done.
Qed.

Lemma updated_keys (keys : list string) (stt : InstallItemStatus)
    (note : option string) (st : InstallSessionState) :
  item_key <$> items (updateInstallItems keys stt note st) = item_key <$> items st.
Proof.
  unfold updateInstallItems. cbn [items]. rewrite <- list_fmap_compose.
  apply list_fmap_ext. intros ? it _. simpl. by destruct (Js.mem (item_key it) keys).
Qed.

End OrchProps.

Module OrchRun.
Import Orchestrator OrchProps.

Definition selectedKeys (s0 : InstallSessionState) : list string :=
  item_key <$> filter (fun it => selected it = true) (items s0).

Definition candidateRows (s0 : InstallSessionState) (rows : list Row) : list Row :=
  filter (fun row => isInstalledPackAction (action row) = false)
    (filter (fun row => Js.mem (key row) (selectedKeys s0) = true) rows).

Definition payload (s0 : InstallSessionState) (rows : list Row) : list Auditor.CatalogItem :=
  toCompatibilityPayload <$> candidateRows s0 rows.

Lemma candidate_row (s0 : InstallSessionState) (rows : list Row) (r : Row) :
  r ∈ candidateRows s0 rows <->
  r ∈ rows /\ Js.mem (key r) (selectedKeys s0) = true
  /\ isInstalledPackAction (action r) = false.
Proof.
  unfold candidateRows. rewrite !list_elem_of_filter. tauto.
Qed.

Lemma POST_answers (srv : Auditor.Server) (m : option string)
    (items : list Auditor.CatalogItem) :
  items <> [] -> exists report, Auditor.POST srv m items = inr report.
Proof.
  intros Hne. unfold Auditor.POST. case_bool_decide as Hlen.
  - by destruct items.
  - eauto.
Qed.

(** No chunk is queued when the session does not get past the preflight. *)
Lemma run_stops_early (env : Surroundings) (s0 : InstallSessionState) (rows : list Row) :
  running s0 = true \/ candidateRows s0 rows = [] \/ preflight_http env = false ->
  submitted (executeInstallSession env (Some s0) rows) = [].
Proof.
  intros Hwhy. unfold executeInstallSession.
  fold (selectedKeys s0). fold (candidateRows s0 rows).
  destruct (running s0); [done|].
  case_bool_decide as Hlen; [done|].
  destruct (preflight_http env); [|done].
  destruct Hwhy as [?|[Hnil|?]]; try done. by rewrite Hnil in Hlen.
Qed.

(** Past the preflight: the session that is left agrees with the one right
    after the skip marking on every incompatible key, and every queued row
    is a candidate whose key is not among the incompatible ones. *)
Lemma run_past_preflight (env : Surroundings) (s0 : InstallSessionState)
    (rows : list Row) :
  running s0 = false -> candidateRows s0 rows <> [] -> preflight_http env = true ->
  exists report st,
    Auditor.POST (server env) (Some "install") (payload s0 rows) = inr report
    /\ session (executeInstallSession env (Some s0) rows) = Some st
    /\ (let bad := incompatibleKeys report in
        let marked :=
          if bool_decide (0 < length bad)
          then updateInstallItems bad skipped (Some skip_reason)
                 (start_run (length (candidateRows s0 rows)) s0)
          else start_run (length (candidateRows s0 rows)) s0 in
        view bad st = view bad marked
        /\ forall chunk r,
             chunk ∈ submitted (executeInstallSession env (Some s0) rows) ->
             r ∈ chunk -> r ∈ candidateRows s0 rows /\ key r ∉ bad).
Proof.
  intros Hrun Hcand Hhttp.
  destruct (POST_answers (server env) (Some "install") (payload s0 rows))
    as [report Hpost].
  { unfold payload. by destruct (candidateRows s0 rows). }
  exists report.
  unfold executeInstallSession.
  fold (selectedKeys s0). fold (candidateRows s0 rows). fold (payload s0 rows).
  rewrite Hrun, Hhttp. cbn [negb].
  rewrite bool_decide_eq_false_2 by (by destruct (candidateRows s0 rows)).
  rewrite Hpost.
  set (bad := incompatibleKeys report).
  set (marked := if bool_decide (0 < length bad) then _ else _).
  set (installableRows := filter (fun row => Js.mem (key row) bad = false)
                            (candidateRows s0 rows)).
  assert (Hrows : forall r, r ∈ installableRows ->
                            r ∈ candidateRows s0 rows /\ key r ∉ bad).
  { intros r Hr. apply list_elem_of_filter in Hr as [Hmem Hin].
    split; [done|]. by apply TxProps.mem_false. }
  case_bool_decide as Hnone.
  { eexists. split; [done|]. split; [reflexivity|]. cbn [submitted]. split; [done|].
    intros chunk r Hc. by apply elem_of_nil in Hc. }
  destruct (compat_set_ok env); cbn [negb].
  2:{ eexists. split; [done|]. split; [reflexivity|]. cbn [submitted]. split; [done|].
      intros chunk r Hc. by apply elem_of_nil in Hc. }
  destruct (snapshot_ok env); cbn [negb].
  2:{ eexists. split; [done|]. split; [reflexivity|]. cbn [submitted]. split; [done|].
      intros chunk r Hc. by apply elem_of_nil in Hc. }
  match goal with
  | |- context [submit_loop env ?cs installableRows ?fuel 0 ?st0 []] =>
      pose proof (submit_loop_sound env cs installableRows bad fuel 0 st0 []
                    (fun r Hr => proj2 (Hrows r Hr))) as [Hview Hsent];
      destruct (submit_loop env cs installableRows fuel 0 st0 []) as [s4 sent]
  end.
  cbn [fst snd] in Hview, Hsent.
  eexists. split; [done|]. split; [reflexivity|]. cbn [submitted]. split.
  - exact Hview.
  - intros chunk r Hc Hr. destruct (Hsent chunk Hc) as [Hnil|Hin].
    + by apply elem_of_nil in Hnil.
    + by apply Hrows, Hin.
Qed.

End OrchRun.

Module OrchClaims.
Import Orchestrator OrchProps OrchRun.

(** The preflight decision of a row, as the route computes it for the
    payload that the session sends. *)
Definition verdict (env : Surroundings) (r : Row) (now : string) : Auditor.Decision :=
  Auditor.decision
    (Auditor.assessItem (toCompatibilityPayload r)
       (Auditor.readHardwareProfile (Auditor.marker (server env))) now).

(** C10.  With non-empty pack keys: every row handed to the queue has the
    preflight decision installable; a selected, not yet installed row whose
    decision is warning or blocked is in no queued chunk, and once the
    preflight has answered, its session item exists and is skipped with the
    reason "removed by compatibility preflight". *)
Theorem C10_only_installable_queued (env : Surroundings)
    (s0 : InstallSessionState) (rows : list Row) :
  (forall r, r ∈ rows -> key r <> "") ->
  let run := executeInstallSession env (Some s0) rows in
  (forall chunk r now, chunk ∈ submitted run -> r ∈ chunk ->
     verdict env r now = Auditor.installable)
  /\ (forall r now, verdict env r now <> Auditor.installable ->
      forall chunk, chunk ∈ submitted run -> r ∉ chunk)
  /\ (running s0 = false -> preflight_http env = true ->
      forall r now, r ∈ candidateRows s0 rows ->
        verdict env r now <> Auditor.installable ->
        exists st, session run = Some st
          /\ (exists it, it ∈ items st /\ item_key it = key r)
          /\ forall it, it ∈ items st -> item_key it = key r ->
               status it = skipped /\ details it = Some skip_reason).
Proof.
  intros Hkeys run.
  assert (Hqueued : forall chunk r now, chunk ∈ submitted run -> r ∈ chunk ->
                      verdict env r now = Auditor.installable).
  { intros chunk r now Hc Hr. subst run.
    destruct (running s0) eqn:Hrun.
    { rewrite run_stops_early in Hc by auto. by apply elem_of_nil in Hc. }
    destruct (decide (candidateRows s0 rows = [])) as [Hnil|Hcand].
    { rewrite run_stops_early in Hc by auto. by apply elem_of_nil in Hc. }
    destruct (preflight_http env) eqn:Hhttp.
    2:{ rewrite run_stops_early in Hc by auto. by apply elem_of_nil in Hc. }
    destruct (run_past_preflight env s0 rows Hrun Hcand Hhttp)
      as (report & st & Hpost & _ & _ & Hsent).
    destruct (Hsent chunk r Hc Hr) as [Hin Hbad].
    destruct (decide (verdict env r now = Auditor.installable)) as [|Hno]; [done|].
    destruct Hbad. eapply (bad_key _ _ _ _ _ now); [exact Hpost| exact Hin | | exact Hno].
    apply Hkeys. by apply candidate_row in Hin as [? _]. }
  split; [exact Hqueued|]. split.
  - intros r now Hno chunk Hc Hr. apply Hno. by eapply Hqueued.
  - intros Hrun Hhttp r now Hin Hno. subst run.
    assert (Hcand : candidateRows s0 rows <> []) by (intros E; rewrite E in Hin; by apply elem_of_nil in Hin).
    destruct (run_past_preflight env s0 rows Hrun Hcand Hhttp)
      as (report & st & Hpost & Hsession & Hview & _).
    assert (Hbad : key r ∈ incompatibleKeys report).
    { eapply (bad_key _ _ _ _ _ now); [exact Hpost| exact Hin | | exact Hno].
      apply Hkeys. by apply candidate_row in Hin as [? _]. }
    rewrite bool_decide_eq_true_2 in Hview
      by (destruct (incompatibleKeys report); [by apply elem_of_nil in Hbad | simpl; lia]).
    exists st. split; [exact Hsession|]. split.
    + apply candidate_row in Hin as (_ & Hsel & _).
      apply mem_true in Hsel. unfold selectedKeys in Hsel.
      apply list_elem_of_fmap in Hsel as (it0 & Hk & Hit0).
      apply list_elem_of_filter in Hit0 as [_ Hit0].
      assert (Hk2 : key r ∈ item_key <$>
                items (updateInstallItems (incompatibleKeys report) skipped
                         (Some skip_reason)
                         (start_run (length (candidateRows s0 rows)) s0))).
      { rewrite updated_keys. cbn [start_run items]. rewrite Hk.
        by apply list_elem_of_fmap_2. }
      apply list_elem_of_fmap in Hk2 as (it2 & Hk2 & Hit2).
      exists it2. split; [|done].
      assert (Hv : it2 ∈ view (incompatibleKeys report) st).
      { rewrite Hview. apply list_elem_of_filter. split; [|done].
        apply mem_true. by rewrite <- Hk2. }
      by apply list_elem_of_filter in Hv as [_ ?].
    + intros it Hit Hk.
      assert (Hv : it ∈ view (incompatibleKeys report) st).
      { apply list_elem_of_filter. split; [|done]. apply mem_true. by rewrite Hk. }
      rewrite Hview in Hv. apply list_elem_of_filter in Hv as [_ Hv].
      eapply updated_items; [exact Hv|]. by rewrite Hk.
Qed.

(** A session over a blocked, a warned and an installable pack. *)
Lemma C10_only_installable_queued_demo :
  let run := executeInstallSession demo_env (Some demo_session) demo_rows in
  (forall chunk r now, chunk ∈ submitted run -> r ∈ chunk ->
     verdict demo_env r now = Auditor.installable)
  /\ (forall r now, verdict demo_env r now <> Auditor.installable ->
      forall chunk, chunk ∈ submitted run -> r ∉ chunk)
  /\ (running demo_session = false -> preflight_http demo_env = true ->
      forall r now, r ∈ candidateRows demo_session demo_rows ->
        verdict demo_env r now <> Auditor.installable ->
        exists st, session run = Some st
          /\ (exists it, it ∈ items st /\ item_key it = key r)
          /\ forall it, it ∈ items st -> item_key it = key r ->
               status it = skipped /\ details it = Some skip_reason).
Proof.
  apply (C10_only_installable_queued demo_env demo_session demo_rows).
  intros r Hr. vm_compute in Hr.
  repeat (apply elem_of_cons in Hr as [->|Hr]; [discriminate|]).
  by apply elem_of_nil in Hr.
Defined.

End OrchClaims.

(** ** Properties of the dependency reconciliation *)

Module DepProps.
Import Pep440 DepReconciler.

Lemma lex_flip (a b : list nat) : lex a b = CompOpp (lex b a).
Proof.
  revert b. induction a as [|x a IH]; intros [|y b]; simpl; try done.
  rewrite (Nat.compare_antisym y x).
  destruct (y ?= x)%nat; simpl; auto.
Qed.

(** [a <= b] and [b < c] give [a < c]. *)
Lemma lex_le_lt (a b c : list nat) :
  lex a b <> Gt -> lex b c = Lt -> lex a c = Lt.
Proof.
  revert b c. induction a as [|x a IH]; intros [|y b] [|z c]; simpl; try done.
  destruct (x ?= y)%nat eqn:Exy; try done; destruct (y ?= z)%nat eqn:Eyz; try done.
  - apply Nat.compare_eq in Exy, Eyz. subst. rewrite Nat.compare_refl. apply IH.
  - apply Nat.compare_eq in Exy. subst. by rewrite Eyz.
  - apply Nat.compare_eq in Eyz. subst. by rewrite Exy.
  - intros _ _. apply Nat.compare_lt_iff in Exy, Eyz.
    by rewrite (proj2 (Nat.compare_lt_iff x z)) by lia.
Qed.

Lemma pinned_between (pinned low up : Version) :
  ltv pinned low = false -> gtv pinned up = false -> gtv low up = true -> False.
Proof.
  unfold ltv, gtv, cmp. intros Hlow Hup Hclash.
  assert (H1 : lex (strip_zeros (release pinned)) (strip_zeros (release up)) <> Gt)
    by (intros E; by rewrite E in Hup).
  assert (H2 : lex (strip_zeros (release up)) (strip_zeros (release low)) = Lt).
  { rewrite lex_flip.
    by destruct (lex (strip_zeros (release low)) (strip_zeros (release up))). }
  by rewrite (lex_le_lt _ _ _ H1 H2) in Hlow.
Qed.

(** Merged bounds with the lower one above the upper one never pass. *)
Lemma conclude_clash (b : Bounds) (low up : Version) :
  lower b = Some low -> upper b = Some up -> gtv low up = true ->
  ok (conclude b) = false
  /\ (exact b = None ->
      conclude b =
      conflict ("lower bound " +:+ str low +:+ " is greater than upper bound " +:+ str up)).
Proof.
  intros Hlow Hup Hclash. unfold conclude. rewrite Hlow, Hup, Hclash.
  split; [|by intros ->].
  destruct (exact b) as [pinned|]; [|done].
  destruct (excluded pinned (not_equals b)); [done|].
  destruct (ltv pinned low) eqn:E1; [done|]. simpl.
  destruct (eqv pinned low && negb (lower_inclusive b)); [done|].
  destruct (gtv pinned up) eqn:E2; [done|].
  by destruct (pinned_between pinned low up).
Qed.

Lemma sorted_set_elem_of (x : string) (l : list string) : x ∈ sorted_set l <-> x ∈ l.
Proof.
  unfold sorted_set. rewrite merge_sort_Permutation. apply elem_of_remove_dups.
Qed.

Section AuditStep.
Variable contains : Version -> list Specifier -> bool.
Variable iteration : list Specifier -> list Specifier.

(** A scan that ran to its end met no specifier beyond the model. *)
Lemma scan_covered (b0 b : Bounds) (specs : list string) :
  scan iteration b0 specs = Some (inr b) ->
  forall s, s ∈ specs -> s <> "" -> SpecifierSet s <> Beyond.
Proof.
  revert b0. induction specs as [|t specs IH]; intros b0 Hscan s Hin Hne.
  - by apply elem_of_nil in Hin.
  - cbn [scan] in Hscan. apply elem_of_cons in Hin as [->|Hin].
    + destruct (Js.is_empty t) eqn:E; [by destruct t|].
      by destruct (SpecifierSet t).
    + destruct (Js.is_empty t); [by eapply IH|].
      destruct (SpecifierSet t) as [spec_set| |]; [| by eapply IH | done].
      destruct (absorb_all t b0 (iteration spec_set)) as [[stop|b1]|]; try done.
      by eapply IH.
Qed.

(** With the specifiers covered, an exact pin that the model covers is
    checked against every specifier. *)
Lemma satisfies_answers (ev s : string) :
  parse ev <> Beyond -> (s <> "" -> SpecifierSet s <> Beyond) ->
  is_Some (satisfies contains ev s).
Proof.
  intros Hev Hs. unfold satisfies.
  destruct (Js.is_empty s) eqn:E; [eauto|].
  destruct (parse ev); [|eauto|done].
  destruct (SpecifierSet s) eqn:Es; eauto.
  destruct Hs; [by destruct s|done].
Qed.

Lemma pin_conflicts_answer (exacts specs : list string) :
  (forall ev, ev ∈ exacts -> parse ev <> Beyond) ->
  (forall s, s ∈ specs -> s <> "" -> SpecifierSet s <> Beyond) ->
  is_Some (pin_conflicts_of contains exacts specs).
Proof.
  intros Hev Hs. unfold pin_conflicts_of. apply fmap_is_Some, mapM_is_Some.
  apply Forall_forall. intros [ev s] Hin.
  apply list_elem_of_bind in Hin as (ev' & Hin & Hev').
  apply list_elem_of_bind in Hin as (s' & Hin & Hs').
  apply list_elem_of_singleton in Hin as [= <- <-].
  destruct (satisfies_answers ev s) as [fits Hfits]; [by apply Hev | by apply Hs|].
  unfold compose. rewrite Hfits. eauto.
Qed.

(** A group whose specifiers do not intersect goes to the conflicts and to
    the incompatible lines, and adds nothing to the compatible ones. *)
Lemma audit_package_conflict (acc : Tally) (pkg : string) (entries : list Entry)
    (result : Intersection) :
  specs_of entries <> [] ->
  specifiers_intersection iteration (specs_of entries) = Some result ->
  ok result = false ->
  is_Some (pin_conflicts_of contains
             (sorted_set (mbind exact_versions (specs_of entries))) (specs_of entries)) ->
  exists acc' c,
    audit_package contains iteration acc (pkg, entries) = Some acc'
    /\ compatible_requirements acc' = compatible_requirements acc
    /\ conflicts acc' = conflicts acc ++ [c]
    /\ package c = pkg
    /\ reason result ∈ reasons c
    /\ incompatible_lines acc' =
       incompatible_lines acc ++ [incompatible_line pkg (specs_of entries) (reasons c)].
Proof.
  intros Hne Hint Hbad [pins Hpins]. unfold audit_package. fold (specs_of entries).
  destruct (specs_of entries) as [|s0 rest] eqn:Especs; [done|].
  set (exacts := sorted_set (mbind exact_versions (s0 :: rest))) in *.
  rewrite Hint. cbn [mbind option_bind]. rewrite Hbad. cbn [negb].
  rewrite Hpins. cbn [mbind option_bind].
  eexists _, _. split; [reflexivity|]. cbn [package reasons compatible_requirements
    conflicts incompatible_lines].
  split_and!; try reflexivity.
  apply sorted_set_elem_of. apply list_elem_of_here.
Qed.

(** A set with one member is handed out as it is, one with two members in
    one of two orders. *)
Lemma iteration_one (sp : Specifier) :
  rearranges iteration -> iteration [sp] = [sp].
Proof. intros Hperm. apply Permutation_singleton_r, Hperm. Qed.

Lemma iteration_two (sp1 sp2 : Specifier) :
  rearranges iteration ->
  iteration [sp1; sp2] = [sp1; sp2] \/ iteration [sp1; sp2] = [sp2; sp1].
Proof.
  intros Hperm. apply Permutation_length_2_inv. symmetry. apply Hperm.
Qed.

Definition v_0_40_0 : Version := {| release := [0; 40; 0] |}.
Definition v_0_47_0 : Version := {| release := [0; 47; 0] |}.
Definition v_0_49_1 : Version := {| release := [0; 49; 1] |}.

Definition e3_specs : list string := ["<0.47.0,>=0.40.0"; ">=0.49.1"].

(** The bounds that the two specifier texts of scenario E3 merge into,
    whatever the iteration order. *)
Lemma e3_scan :
  rearranges iteration ->
  scan iteration start e3_specs =
  Some (inr {| lower := Some v_0_49_1; lower_inclusive := true;
               upper := Some v_0_47_0; upper_inclusive := false;
               exact := None; not_equals := []; unsupported := [] |}).
Proof.
  intros Hperm. unfold e3_specs. cbn [scan Js.is_empty].
  change (SpecifierSet "<0.47.0,>=0.40.0")
    with (Value [ {| operator := "<"; version := "0.47.0" |};
                  {| operator := ">="; version := "0.40.0" |} ]).
  change (SpecifierSet ">=0.49.1")
    with (Value [ {| operator := ">="; version := "0.49.1" |} ]).
  cbv match. rewrite (iteration_one _ Hperm).
  destruct (iteration_two {| operator := "<"; version := "0.47.0" |}
              {| operator := ">="; version := "0.40.0" |} Hperm) as [-> | ->];
    vm_compute; reflexivity.
Qed.

Lemma e3_intersection :
  rearranges iteration ->
  specifiers_intersection iteration e3_specs =
  Some (conflict "lower bound 0.49.1 is greater than upper bound 0.47.0").
Proof.
  intros Hperm. unfold specifiers_intersection. rewrite (e3_scan Hperm).
  vm_compute. reflexivity.
Qed.

Definition e3_entries : list Entry :=
  [{| node := "pack-a"; file := "custom_nodes/pack-a/requirements.txt";
      spec := "<0.47.0,>=0.40.0"; marker := "";
      raw := "starlette<0.47.0,>=0.40.0" |};
   {| node := "pack-b"; file := "custom_nodes/pack-b/requirements.txt";
      spec := ">=0.49.1"; marker := "";
      raw := "starlette>=0.49.1" |}].

Definition e3_tally : Tally :=
  {| conflicts :=
       [{| package := "starlette";
           specs := e3_specs;
           markers := [];
           reasons := ["lower bound 0.49.1 is greater than upper bound 0.47.0"];
           entries := e3_entries |}];
     compatible_requirements := [];
     incompatible_lines :=
       ["starlette :: <0.47.0,>=0.40.0 | >=0.49.1 :: lower bound 0.49.1 is greater than upper bound 0.47.0"] |}.

Lemma e3_audit :
  rearranges iteration ->
  exists report,
    audit contains iteration e3_files = Some report
    /\ tally report = e3_tally
    /\ compatible_text report = newline
    /\ incompatible_text report =
       "starlette :: <0.47.0,>=0.40.0 | >=0.49.1 :: lower bound 0.49.1 is greater than upper bound 0.47.0"
       +:+ newline.
Proof.
  intros Hperm. unfold audit.
  replace (merge_sort group_le (map_to_list (foldl add_rows ∅ e3_files)))
    with [("starlette", e3_entries)] by (vm_compute; reflexivity).
  cbn [foldl mbind option_bind].
  assert (Hpkg : audit_package contains iteration
                   {| conflicts := []; compatible_requirements := [];
                      incompatible_lines := [] |} ("starlette", e3_entries)
                 = Some e3_tally).
  { unfold audit_package.
    replace (sorted_set (stripped_nonempty (spec <$> e3_entries))) with e3_specs
      by (vm_compute; reflexivity).
    unfold e3_specs at 1. fold e3_specs. rewrite (e3_intersection Hperm).
    vm_compute. reflexivity. }
  rewrite Hpkg. cbn [mbind option_bind].
  eexists. split; [reflexivity|]. cbn [tally compatible_text incompatible_text].
  split; [reflexivity|]. split; vm_compute; reflexivity.
Qed.

End AuditStep.

End DepProps.

Module DepClaims.
Import Pep440 DepReconciler DepProps.

(** C6.  On specifier lists that the model of the [packaging] library
    covers (the scan gives an answer): when the merged lower bound is above
    the merged upper bound the intersection fails, with the reason "lower
    bound L is greater than upper bound U" when there is no exact pin; and
    a package group with these specifiers, whose exact pins the model
    covers too, is recorded as a conflict and as an incompatible line and
    adds nothing to the compatible requirements.  For the two files of
    scenario E3, whatever the order in which specifier sets are iterated,
    starlette is the only conflict, its line carries "lower bound 0.49.1 is
    greater than upper bound 0.47.0", and the compatible requirements are
    empty. *)
Theorem C6_lower_above_upper (contains : Version -> list Specifier -> bool)
    (iteration : list Specifier -> list Specifier) :
  (forall specs b low up,
      scan iteration start specs = Some (inr b) ->
      lower b = Some low -> upper b = Some up -> gtv low up = true ->
      exists result,
        specifiers_intersection iteration specs = Some result
        /\ ok result = false
        /\ (exact b = None ->
            reason result =
            "lower bound " +:+ str low +:+ " is greater than upper bound " +:+ str up)
        /\ (forall acc pkg entries,
              specs_of entries = specs -> specs <> [] ->
              (forall ev, ev ∈ mbind exact_versions specs -> parse ev <> Beyond) ->
              exists acc' c,
                audit_package contains iteration acc (pkg, entries) = Some acc'
                /\ compatible_requirements acc' = compatible_requirements acc
                /\ conflicts acc' = conflicts acc ++ [c] /\ package c = pkg
                /\ reason result ∈ reasons c
                /\ incompatible_lines acc' =
                   incompatible_lines acc ++ [incompatible_line pkg specs (reasons c)]))
  /\ (rearranges iteration ->
      exists report,
        audit contains iteration e3_files = Some report
        /\ tally report =
          {| conflicts :=
               [{| package := "starlette";
                   specs := ["<0.47.0,>=0.40.0"; ">=0.49.1"];
                   markers := [];
                   reasons := ["lower bound 0.49.1 is greater than upper bound 0.47.0"];
                   entries :=
                     [{| node := "pack-a"; file := "custom_nodes/pack-a/requirements.txt";
                         spec := "<0.47.0,>=0.40.0"; marker := "";
                         raw := "starlette<0.47.0,>=0.40.0" |};
                      {| node := "pack-b"; file := "custom_nodes/pack-b/requirements.txt";
                         spec := ">=0.49.1"; marker := "";
                         raw := "starlette>=0.49.1" |}] |}];
             compatible_requirements := [];
             incompatible_lines :=
               ["starlette :: <0.47.0,>=0.40.0 | >=0.49.1 :: lower bound 0.49.1 is greater than upper bound 0.47.0"] |}
        /\ compatible_text report = newline).
Proof.
  split.
  - intros specs b low up Hscan Hlow Hup Hclash.
    destruct (conclude_clash b low up Hlow Hup Hclash) as [Hok Hwhy].
    assert (Hint : specifiers_intersection iteration specs = Some (conclude b))
      by (unfold specifiers_intersection; by rewrite Hscan).
    exists (conclude b). split; [exact Hint|]. split; [exact Hok|].
    split; [intros Hnone; by rewrite Hwhy|].
    intros acc pkg entries <- Hne Hpins.
    apply (audit_package_conflict contains iteration acc pkg entries (conclude b));
      try done.
    apply pin_conflicts_answer.
    + intros ev Hev. apply Hpins. apply (proj1 (sorted_set_elem_of ev _)). exact Hev.
    + by apply (scan_covered iteration start b).
  - intros Hperm. destruct (e3_audit contains iteration Hperm) as (report & Ha & Ht & Hc & _).
    exists report. split; [exact Ha|]. split; [exact Ht | exact Hc].
Qed.

(** Scenario E3 with the specifiers iterated as written. *)
Lemma C6_lower_above_upper_e3 :
  let specs := ["<0.47.0,>=0.40.0"; ">=0.49.1"] in
  (exists result,
     specifiers_intersection id specs = Some result
     /\ ok result = false
     /\ reason result = "lower bound 0.49.1 is greater than upper bound 0.47.0")
  /\ (exists report,
        audit (fun _ _ => true) id e3_files = Some report
        /\ compatible_text report = newline).
Proof.
  pose (b := {| lower := Some v_0_49_1; lower_inclusive := true;
                upper := Some v_0_47_0; upper_inclusive := false;
                exact := None; not_equals := []; unsupported := [] |}).
  destruct (C6_lower_above_upper (fun _ _ => true) id) as [Hgen He3].
  split.
  - destruct (Hgen ["<0.47.0,>=0.40.0"; ">=0.49.1"] b v_0_49_1 v_0_47_0)
      as (result & Hint & Hok & Hwhy & _); try reflexivity.
    exists result. split; [exact Hint|]. split; [exact Hok | exact (Hwhy eq_refl)].
  - destruct He3 as (report & Ha & _ & Hc); [intros members; reflexivity|].
    exists report. split; [exact Ha | exact Hc].
Defined.

(** C7 (evaluation of the code).  [_compatible_upper_for] bumps the
    second-to-last release segment, or the only one, and a lone ~=1.15.3
    becomes >=1.15.3,<1.16.  Next to an inclusive upper bound equal to that
    boundary the exclusive bound is lost: the sorted specifiers <=1.16 and
    ~=1.15.3 give >=1.15.3,<=1.16, whereas <=1.16 with >=1.15.3 and <1.16
    gives >=1.15.3,<1.16. *)
Theorem C7_compatible_release_keeps_inclusive_bound
    (iteration : list Specifier -> list Specifier) :
  rearranges iteration ->
  _compatible_upper_for "1.15.3" = Value {| release := [1; 16] |}
  /\ _compatible_upper_for "2" = Value {| release := [3] |}
  /\ specifiers_intersection iteration ["~=1.15.3"] =
     Some {| ok := true; reason := ""; normalized := ">=1.15.3,<1.16"; remarks := [] |}
  /\ sorted_set ["~=1.15.3"; "<=1.16"] = ["<=1.16"; "~=1.15.3"]
  /\ specifiers_intersection iteration ["<=1.16"; "~=1.15.3"] =
     Some {| ok := true; reason := ""; normalized := ">=1.15.3,<=1.16"; remarks := [] |}
  /\ specifiers_intersection iteration ["<1.16"; "<=1.16"; ">=1.15.3"] =
     Some {| ok := true; reason := ""; normalized := ">=1.15.3,<1.16"; remarks := [] |}.
Proof.
  intros Hperm.
  assert (Hone : forall texts,
            Forall (fun t => exists sp, SpecifierSet t = Value [sp] /\ t <> "") texts ->
            scan iteration start texts = scan id start texts).
  { intros texts. generalize start.
    induction texts as [|t texts IH]; intros b0 Hall; [done|].
    inversion Hall as [|? ? (sp & Hsp & Hne) Hrest]; subst.
    cbn [scan]. destruct (Js.is_empty t) eqn:E; [by destruct t|].
    rewrite Hsp, (iteration_one iteration sp Hperm). unfold id at 1.
    destruct (absorb_all t b0 [sp]) as [[stop|b1]|]; [done| |done]. by apply IH. }
  assert (Hint : forall texts,
            Forall (fun t => exists sp, SpecifierSet t = Value [sp] /\ t <> "") texts ->
            specifiers_intersection iteration texts = specifiers_intersection id texts).
  { intros texts Hall. unfold specifiers_intersection. by rewrite Hone. }
  split_and!.
  - vm_compute. reflexivity.
  - vm_compute. reflexivity.
  - rewrite Hint; [vm_compute; reflexivity|].
    repeat constructor; eexists; (split; [vm_compute; reflexivity | discriminate]).
  - vm_compute. reflexivity.
  - rewrite Hint; [vm_compute; reflexivity|].
    repeat constructor; eexists; (split; [vm_compute; reflexivity | discriminate]).
  - rewrite Hint; [vm_compute; reflexivity|].
    repeat constructor; eexists; (split; [vm_compute; reflexivity | discriminate]).
Qed.

(** The same evaluation with the specifiers iterated as written. *)
Lemma C7_compatible_release_keeps_inclusive_bound_id :
  normalized <$> specifiers_intersection id ["<=1.16"; "~=1.15.3"] = Some ">=1.15.3,<=1.16"
  /\ normalized <$> specifiers_intersection id ["<1.16"; "<=1.16"; ">=1.15.3"]
     = Some ">=1.15.3,<1.16".
Proof.
  destruct (C7_compatible_release_keeps_inclusive_bound id) as (_ & _ & _ & _ & H1 & H2).
  - intros members. reflexivity.
  - rewrite H1, H2. split; reflexivity.
Defined.

End DepClaims.

(** ** Properties of AutoHeal *)

Module HealProps.
Import AutoHeal.

(** The code-unit order on strings is a total order. *)
Lemma compare_le_trans (a b c : string) :
  String.compare a b <> Gt -> String.compare b c <> Gt -> String.compare a c <> Gt.
Proof.
  revert b c. induction a as [|x a IH]; intros [|y b] [|z c]; simpl; try done.
  unfold Ascii.compare.
  destruct (N.compare_spec (N_of_ascii x) (N_of_ascii y)) as [Hxy|Hxy|Hxy]; try done;
    destruct (N.compare_spec (N_of_ascii y) (N_of_ascii z)) as [Hyz|Hyz|Hyz]; try done.
  - rewrite Hxy, Hyz, N.compare_refl. apply IH.
  - rewrite Hxy. by rewrite (proj2 (N.compare_lt_iff _ _) Hyz).
  - rewrite <- Hyz. by rewrite (proj2 (N.compare_lt_iff _ _) Hxy).
  - intros _ _. by rewrite (proj2 (N.compare_lt_iff _ _) (N.lt_trans _ _ _ Hxy Hyz)).
Qed.

Global Instance str_le_trans : Transitive Js.str_le.
Proof.
  intros a b c. unfold Js.str_le, String.leb. intros Hab Hbc.
  pose proof (compare_le_trans a b c) as H.
  destruct (String.compare a b), (String.compare b c), (String.compare a c);
    try done; exfalso; by apply H.
Qed.

Global Instance str_le_antisym : AntiSymm (=) Js.str_le.
Proof. intros a b. apply String.leb_antisym. Qed.

Global Instance str_le_total : Total Js.str_le.
Proof. intros a b. apply String.leb_total. Qed.

(** Equal sets of specifiers have the same key. *)
Lemma spec_key_of_set (s1 s2 : list string) :
  NoDup s1 -> NoDup s2 -> (forall x, x ∈ s1 <-> x ∈ s2) -> spec_key s1 = spec_key s2.
Proof.
  intros H1 H2 Hsame. unfold spec_key. f_equal.
  apply (Sorted_unique Js.str_le).
  - apply Sorted_merge_sort, _.
  - apply Sorted_merge_sort, _.
  - rewrite !merge_sort_Permutation. by apply NoDup_Permutation.
Qed.

Lemma extract_NoDup (output : string) : NoDup (extractPipRequiredSpecs output).
Proof.
  unfold extractPipRequiredSpecs.
  assert (H : forall lines acc, NoDup acc -> NoDup (fold_left extract_line lines acc)).
  { induction lines as [|line lines IH]; intros acc Hacc; simpl; [done|].
    apply IH. unfold extract_line.
    repeat case_match; try done; by apply TxProps.set_add_NoDup. }
  apply H, NoDup_nil_2.
Qed.

Lemma checks_app (a b : list Step) : checks (a ++ b) = checks a + checks b.
Proof. unfold checks. by rewrite filter_app, length_app. Qed.

Lemma checks_none (l : list Step) :
  Forall (fun s => is_check s = false) l -> checks l = 0.
Proof.
  unfold checks. induction 1 as [|s l Hs _ IH]; [done|].
  rewrite filter_cons, decide_False by congruence. done.
Qed.

Section Heal.
Context `{host : Host}.
Variable backendDir : string.

Local Abbreviation M := (@TxEngine.M host).

(** [Q] holds of the value of [m] whatever the world is. *)
Definition always {A} (m : M A) (Q : A -> Prop) : Prop := forall w, Q (fst (m w)).

Lemma always_ret {A} (a : A) (Q : A -> Prop) : Q a -> always (TxEngine.ret a) Q.
Proof. by intros H w. Qed.

Lemma always_bind {A B} (m : M A) (k : A -> M B) (P : A -> Prop) (Q : B -> Prop) :
  always m P -> (forall a, P a -> always (k a) Q) -> always (TxEngine.bind m k) Q.
Proof.
  intros Hm Hk w. unfold TxEngine.bind. specialize (Hm w).
  destruct (m w) as [a w1]. by apply Hk.
Qed.

Lemma always_any {A} (m : M A) : always m (fun _ => True).
Proof. by intros w. Qed.

Definition installs (l : list Step) : Prop := Forall (fun s => is_check s = false) l.

Lemma install_each_installs (specs : list string) :
  always (install_each backendDir specs) installs.
Proof.
  induction specs as [|spec rest IH]; simpl.
  - apply always_ret. constructor.
  - eapply always_bind; [apply always_any|]. intros r _.
    eapply always_bind; [apply IH|]. intros more Hmore.
    apply always_ret. constructor; [reflexivity | done].
Qed.

(** How a pass relates the steps before it to what it hands on: some
    installs and then one check, which failed if the loop goes on and
    succeeded, and is the final check, if the function returns. *)
Definition pass (before : list Step) (flow_steps : list Step) (check_ok : bool)
    : Prop :=
  exists added check,
    flow_steps = before ++ added ++ [check]
    /\ installs added /\ is_check check = true /\ step_ok check = check_ok.

Definition pip_pass (l : Loop) (flow : Flow Loop) : Prop :=
  match flow with
  | Return r => pass (so_far l) (steps r) true
                /\ (exists check, last (steps r) = Some check
                                  /\ ok (finalCheck r) = step_ok check
                                  /\ output (finalCheck r) = step_output check)
  | Break => True
  | Continue next => pass (so_far l) (so_far next) false
  end.

Lemma pip_recipe_installs (l : Loop) :
  always (pip_recipe backendDir l)
    (fun chosen => match chosen with
                   | Some l1 => exists added, so_far l1 = so_far l ++ added /\ installs added
                   | None => True
                   end).
Proof.
  unfold pip_recipe.
  destruct (canned_fastapi (current l)).
  { eapply always_bind; [apply always_any|]. intros r _. apply always_ret.
    eexists. split; [reflexivity|]. repeat constructor. }
  destruct (canned_family (current l)).
  { eapply always_bind; [apply always_any|]. intros r1 _.
    eapply always_bind; [apply always_any|]. intros r2 _. apply always_ret.
    eexists. split; [reflexivity|]. repeat constructor. }
  case_bool_decide; [by apply always_ret|].
  case_bool_decide; [by apply always_ret|].
  eapply always_bind; [apply install_each_installs|]. intros added Hadded.
  apply always_ret. eauto.
Qed.

Lemma pip_round_pass (round : nat) (l : Loop) :
  always (pip_round backendDir round l) (pip_pass l).
Proof.
  unfold pip_round. eapply always_bind; [apply pip_recipe_installs|].
  intros [l1|] Hl1; [|by apply always_ret].
  destruct Hl1 as (added & Hsteps & Hadded).
  eapply always_bind; [apply always_any|]. intros check _.
  destruct (ok check) eqn:Hok; apply always_ret; simpl.
  - split.
    + eexists added, _. rewrite Hsteps, <- app_assoc. split; [reflexivity|].
      split; [done|]. split; [reflexivity|]. done.
    + eexists. rewrite last_snoc. split; [reflexivity|]. by rewrite Hok.
  - eexists added, _. rewrite Hsteps, <- app_assoc. split; [reflexivity|].
    split; [done|]. split; [reflexivity|]. done.
Qed.

Definition fix_pass (l : FixLoop) (flow : Flow FixLoop) : Prop :=
  match flow with
  | Return r => pass (fix_steps l) (steps r) true
                /\ (exists check, last (steps r) = Some check
                                  /\ ok (finalCheck r) = step_ok check
                                  /\ output (finalCheck r) = step_output check)
  | Break => True
  | Continue next => pass (fix_steps l) (fix_steps next) false
  end.

Lemma fix_verify_pass (label : string) (round : nat) (l l1 : FixLoop)
    (added : list Step) :
  fix_steps l1 = fix_steps l ++ added -> installs added ->
  always (fix_verify backendDir label round l1) (fix_pass l).
Proof.
  intros Hsteps Hadded. unfold fix_verify.
  eapply always_bind; [apply always_any|]. intros check _.
  destruct (ok check) eqn:Hok; apply always_ret; simpl.
  - split.
    + eexists added, _. rewrite Hsteps, <- app_assoc. split; [reflexivity|].
      split; [done|]. split; [reflexivity|]. done.
    + eexists. rewrite last_snoc. split; [reflexivity|]. by rewrite Hok.
  - eexists added, _. rewrite Hsteps, <- app_assoc. split; [reflexivity|].
    split; [done|]. split; [reflexivity|]. done.
Qed.

Lemma fix_round_pass (round : nat) (l : FixLoop) :
  always (fix_round backendDir round l) (fix_pass l).
Proof.
  unfold fix_round.
  destruct (needsCompatibilityProfile (currentOutput l) && negb (compatibilityApplied l)).
  { unfold applyCompatibilityProfile.
    eapply always_bind with (P := installs).
    - eapply always_bind; [apply always_any|]. intros r1 _.
      eapply always_bind; [apply always_any|]. intros r2 _.
      apply always_ret. repeat constructor.
    - intros added Hadded. by eapply fix_verify_pass. }
  destruct (hasTyperConflict (currentOutput l)).
  { unfold applyTyperCompatibilityProfile.
    eapply always_bind with (P := installs).
    - eapply always_bind; [apply always_any|]. intros r1 _.
      apply always_ret. repeat constructor.
    - intros added Hadded. by eapply fix_verify_pass. }
  destruct (hasFastapiSSEConflict (currentOutput l)).
  { unfold applyFastapiSSECompatibilityProfile.
    eapply always_bind with (P := installs).
    - eapply always_bind; [apply always_any|]. intros r1 _.
      apply always_ret. repeat constructor.
    - intros added Hadded. by eapply fix_verify_pass. }
  case_bool_decide; [by apply always_ret|].
  case_bool_decide; [by apply always_ret|].
  eapply always_bind; [apply install_each_installs|]. intros added Hadded.
  by eapply fix_verify_pass.
Qed.

(** What a run that started with the steps [before] ends with: at most
    [budget] more checks, and if any recorded check succeeded it is the
    last step and the final check. *)
Definition settled (before : list Step) (budget : nat) (r : Healed) : Prop :=
  checks (steps r) <= checks before + budget
  /\ forall s, s ∈ steps r -> is_check s = true -> step_ok s = true ->
       last (steps r) = Some s
       /\ ok (finalCheck r) = true /\ output (finalCheck r) = step_output s.

Definition no_success (l : list Step) : Prop :=
  forall s, s ∈ l -> is_check s = true -> step_ok s = false.

Lemma pass_failed (before after : list Step) :
  no_success before -> pass before after false ->
  no_success after /\ checks after = checks before + 1.
Proof.
  intros Hbefore (added & check & -> & Hadded & Hcheck & Hok). split.
  - intros s Hs Hc. rewrite !elem_of_app in Hs. destruct Hs as [Hs|[Hs|Hs]].
    + by apply Hbefore.
    + unfold installs in Hadded. rewrite Forall_forall in Hadded.
      specialize (Hadded s Hs). congruence.
    + apply list_elem_of_singleton in Hs. by subst.
  - rewrite !checks_app, (checks_none added) by done.
    unfold checks. simpl. rewrite filter_cons, decide_True by done. simpl. lia.
Qed.

Lemma pass_succeeded (before : list Step) (r : Healed) (budget : nat) :
  no_success before -> pass before (steps r) true ->
  (exists check, last (steps r) = Some check
                 /\ ok (finalCheck r) = step_ok check
                 /\ output (finalCheck r) = step_output check) ->
  settled before (S budget) r.
Proof.
  intros Hbefore (added & check & Hsteps & Hadded & Hcheck & Hok) (c & Hlast & Hfok & Hfout).
  rewrite Hsteps, app_assoc, last_snoc in Hlast. injection Hlast as <-.
  split.
  - rewrite Hsteps, !checks_app, (checks_none added) by done.
    unfold checks. simpl. rewrite filter_cons, decide_True by done. simpl. lia.
  - intros s Hs Hc Hsok. rewrite Hsteps in Hs. rewrite !elem_of_app in Hs.
    destruct Hs as [Hs|[Hs|Hs]].
    + specialize (Hbefore s Hs Hc). congruence.
    + unfold installs in Hadded. rewrite Forall_forall in Hadded.
      specialize (Hadded s Hs). congruence.
    + apply list_elem_of_singleton in Hs. subst s.
      rewrite Hsteps, app_assoc, last_snoc. split; [done|]. split; congruence.
Qed.

Lemma settled_weaken (before before' : list Step) (n n' : nat) (r : Healed) :
  checks before + n <= checks before' + n' -> settled before n r -> settled before' n' r.
Proof. intros Hle [H1 H2]. split; [lia | done]. Qed.

Lemma settled_untouched (before : list Step) (budget : nat) (final : PyResult) :
  no_success before ->
  settled before budget {| finalCheck := final; steps := before |}.
Proof.
  intros Hbefore. split; [simpl; lia|].
  intros s Hs Hc Hok. specialize (Hbefore s Hs Hc). congruence.
Qed.

Lemma pip_rounds_settled (left round : nat) (l : Loop) :
  no_success (so_far l) ->
  always (pip_rounds backendDir left round l) (settled (so_far l) left).
Proof.
  revert round l. induction left as [|left IH]; intros round l Hl; simpl.
  - unfold pip_finish. eapply always_bind; [apply always_any|]. intros final _.
    apply always_ret. by apply settled_untouched.
  - eapply always_bind; [apply pip_round_pass|]. intros [r| |next] Hflow.
    + apply always_ret. destruct Hflow as [Hpass Hlast]. by apply pass_succeeded.
    + unfold pip_finish. eapply always_bind; [apply always_any|]. intros final _.
      apply always_ret. by apply settled_untouched.
    + simpl in Hflow. destruct (pass_failed _ _ Hl Hflow) as [Hnext Hcount].
      intros w. eapply settled_weaken; [|by apply IH]. lia.
Qed.

Lemma fix_rounds_settled (left round : nat) (l : FixLoop) :
  no_success (fix_steps l) ->
  always (fix_rounds backendDir left round l) (settled (fix_steps l) left).
Proof.
  revert round l. induction left as [|left IH]; intros round l Hl; simpl.
  - unfold fix_finish. eapply always_bind; [apply always_any|]. intros final _.
    apply always_ret. by apply settled_untouched.
  - eapply always_bind; [apply fix_round_pass|]. intros [r| |next] Hflow.
    + apply always_ret. destruct Hflow as [Hpass Hlast]. by apply pass_succeeded.
    + unfold fix_finish. eapply always_bind; [apply always_any|]. intros final _.
      apply always_ret. by apply settled_untouched.
    + simpl in Hflow. destruct (pass_failed _ _ Hl Hflow) as [Hnext Hcount].
      intros w. eapply settled_weaken; [|by apply IH]. lia.
Qed.

(** A pass that finds an already seen key breaks at once, calling nothing. *)
Lemma pip_round_seen (round : nat) (l : Loop) (w : TxEngine.World) :
  canned_fastapi (current l) = false -> canned_family (current l) = false ->
  spec_key (extractPipRequiredSpecs (current l)) ∈ seen l ->
  pip_round backendDir round l w = (Break, w).
Proof.
  intros H1 H2 Hseen. unfold pip_round, pip_recipe, TxEngine.bind.
  rewrite H1, H2. case_bool_decide; [done|].
  by rewrite bool_decide_eq_true_2.
Qed.

Lemma fix_round_seen (round : nat) (l : FixLoop) (w : TxEngine.World) :
  needsCompatibilityProfile (currentOutput l) && negb (compatibilityApplied l) = false ->
  hasTyperConflict (currentOutput l) = false ->
  hasFastapiSSEConflict (currentOutput l) = false ->
  spec_key (extractPipRequiredSpecs (currentOutput l)) ∈ seenSpecSets l ->
  fix_round backendDir round l w = (Break, w).
Proof.
  intros H1 H2 H3 Hseen. unfold fix_round.
  rewrite H1, H2, H3. case_bool_decide; [done|].
  by rewrite bool_decide_eq_true_2.
Qed.

(** A pass that goes on never forgets a key, and a pass that installed an
    extracted set has recorded its key. *)
Definition pip_kept (l : Loop) (flow : Flow Loop) : Prop :=
  match flow with
  | Continue next =>
      seen l ⊆ seen next
      /\ (canned_fastapi (current l) = false -> canned_family (current l) = false ->
          spec_key (extractPipRequiredSpecs (current l)) ∈ seen next)
  | _ => True
  end.

Lemma pip_round_records (round : nat) (l : Loop) :
  always (pip_round backendDir round l) (pip_kept l).
Proof.
  unfold pip_round.
  eapply always_bind with
    (P := fun chosen => match chosen with
                        | Some l1 => pip_kept l (Continue l1)
                        | None => True
                        end).
  - unfold pip_recipe.
    destruct (canned_fastapi (current l)) eqn:E1.
    { eapply always_bind; [apply always_any|]. intros r _. apply always_ret.
      simpl. split; [done|]. congruence. }
    destruct (canned_family (current l)) eqn:E2.
    { eapply always_bind; [apply always_any|]. intros r1 _.
      eapply always_bind; [apply always_any|]. intros r2 _. apply always_ret.
      simpl. split; [done|]. congruence. }
    case_bool_decide; [by apply always_ret|].
    case_bool_decide; [by apply always_ret|].
    eapply always_bind; [apply always_any|]. intros added _.
    apply always_ret. simpl. split; [set_solver|]. intros _ _. set_solver.
  - intros [l1|] Hl1; [|by apply always_ret].
    eapply always_bind; [apply always_any|]. intros check _.
    destruct (ok check); apply always_ret; [done|]. exact Hl1.
Qed.

Definition fix_kept (l : FixLoop) (flow : Flow FixLoop) : Prop :=
  match flow with
  | Continue next =>
      seenSpecSets l ⊆ seenSpecSets next
      /\ (needsCompatibilityProfile (currentOutput l) && negb (compatibilityApplied l) = false ->
          hasTyperConflict (currentOutput l) = false ->
          hasFastapiSSEConflict (currentOutput l) = false ->
          spec_key (extractPipRequiredSpecs (currentOutput l)) ∈ seenSpecSets next)
  | _ => True
  end.

Lemma fix_verify_kept (label : string) (round : nat) (l l1 : FixLoop) :
  fix_kept l (Continue l1) -> always (fix_verify backendDir label round l1) (fix_kept l).
Proof.
  intros Hl1. unfold fix_verify.
  eapply always_bind; [apply always_any|]. intros check _.
  destruct (ok check); apply always_ret; [done|]. exact Hl1.
Qed.

Lemma fix_round_records (round : nat) (l : FixLoop) :
  always (fix_round backendDir round l) (fix_kept l).
Proof.
  unfold fix_round.
  destruct (needsCompatibilityProfile (currentOutput l) && negb (compatibilityApplied l))
    eqn:E1.
  { eapply always_bind; [apply always_any|]. intros added _.
    apply fix_verify_kept. simpl. split; [done|]. congruence. }
  destruct (hasTyperConflict (currentOutput l)) eqn:E2.
  { eapply always_bind; [apply always_any|]. intros added _.
    apply fix_verify_kept. simpl. split; [done|]. congruence. }
  destruct (hasFastapiSSEConflict (currentOutput l)) eqn:E3.
  { eapply always_bind; [apply always_any|]. intros added _.
    apply fix_verify_kept. simpl. split; [done|]. congruence. }
  case_bool_decide; [by apply always_ret|].
  case_bool_decide; [by apply always_ret|].
  eapply always_bind; [apply always_any|]. intros added _.
  apply fix_verify_kept. simpl. split; [set_solver|]. intros _ _ _. set_solver.
Qed.

(** A pass whose output a canned recipe answers never breaks, and the seen
    keys are neither consulted nor changed. *)
Definition pip_unchecked (l : Loop) (flow : Flow Loop) : Prop :=
  match flow with
  | Return _ => True
  | Break => False
  | Continue next => seen next = seen l
  end.

Lemma pip_round_canned (round : nat) (l : Loop) :
  canned_fastapi (current l) || canned_family (current l) = true ->
  always (pip_round backendDir round l) (pip_unchecked l).
Proof.
  intros Hcanned. unfold pip_round.
  eapply always_bind with
    (P := fun chosen => match chosen with
                        | Some l1 => seen l1 = seen l
                        | None => False
                        end).
  - unfold pip_recipe.
    destruct (canned_fastapi (current l)).
    { eapply always_bind; [apply always_any|]. intros r _. by apply always_ret. }
    simpl in Hcanned. rewrite Hcanned.
    eapply always_bind; [apply always_any|]. intros r1 _.
    eapply always_bind; [apply always_any|]. intros r2 _. by apply always_ret.
  - intros [l1|] Hl1; [|done].
    eapply always_bind; [apply always_any|]. intros check _.
    destruct (ok check); apply always_ret; [done|]. exact Hl1.
Qed.

Definition fix_unchecked (l : FixLoop) (flow : Flow FixLoop) : Prop :=
  match flow with
  | Return _ => True
  | Break => False
  | Continue next => seenSpecSets next = seenSpecSets l
  end.

Lemma fix_verify_unchecked (label : string) (round : nat) (l l1 : FixLoop) :
  seenSpecSets l1 = seenSpecSets l ->
  always (fix_verify backendDir label round l1) (fix_unchecked l).
Proof.
  intros Hl1. unfold fix_verify.
  eapply always_bind; [apply always_any|]. intros check _.
  destruct (ok check); apply always_ret; [done|]. exact Hl1.
Qed.

Lemma fix_round_canned (round : nat) (l : FixLoop) :
  needsCompatibilityProfile (currentOutput l) && negb (compatibilityApplied l)
  || hasTyperConflict (currentOutput l) || hasFastapiSSEConflict (currentOutput l) = true ->
  always (fix_round backendDir round l) (fix_unchecked l).
Proof.
  intros Hcanned. unfold fix_round.
  destruct (needsCompatibilityProfile (currentOutput l) && negb (compatibilityApplied l)).
  { eapply always_bind; [apply always_any|]. intros added _.
    by apply fix_verify_unchecked. }
  destruct (hasTyperConflict (currentOutput l)).
  { eapply always_bind; [apply always_any|]. intros added _.
    by apply fix_verify_unchecked. }
  simpl in Hcanned. rewrite Hcanned.
  eapply always_bind; [apply always_any|]. intros added _.
  by apply fix_verify_unchecked.
Qed.

End Heal.

End HealProps.

Module HealClaims.
Import AutoHeal HealProps.

Section Finish.
Context `{host : Host}.
Variable backendDir : string.

(** After the loop only the verifying check runs. *)
Lemma runPython_log (args : list string) (w : TxEngine.World) :
  TxEngine.log (snd (runPython backendDir args w)) = TxEngine.log w
  \/ TxEngine.log (snd (runPython backendDir args w)) =
     TxEngine.log w ++ [TxEngine.Spawn (pythonBin backendDir) args].
Proof.
  unfold runPython, TxEngine.bind, TxEngine.existsSync. simpl.
  destruct (bool_decide (is_Some (TxEngine.disk w !! pythonBin backendDir))); simpl.
  - right. unfold TxEngine.lift_ext. simpl.
    by destruct (spawnSync (pythonBin backendDir) args (TxEngine.ext w)).
  - by left.
Qed.

Lemma pip_finish_run (l : Loop) (w : TxEngine.World) :
  steps (fst (pip_finish backendDir l w)) = so_far l
  /\ (TxEngine.log (snd (pip_finish backendDir l w)) = TxEngine.log w
      \/ TxEngine.log (snd (pip_finish backendDir l w)) =
         TxEngine.log w ++ [TxEngine.Spawn (pythonBin backendDir) pip_check]).
Proof.
  unfold pip_finish, TxEngine.bind.
  pose proof (runPython_log pip_check w) as Hlog.
  destruct (runPython backendDir pip_check w) as [final w1]. simpl in *. done.
Qed.

Lemma fix_finish_run (l : FixLoop) (w : TxEngine.World) :
  steps (fst (fix_finish backendDir l w)) = fix_steps l
  /\ (TxEngine.log (snd (fix_finish backendDir l w)) = TxEngine.log w
      \/ TxEngine.log (snd (fix_finish backendDir l w)) =
         TxEngine.log w ++ [TxEngine.Spawn (pythonBin backendDir) pip_check]).
Proof.
  unfold fix_finish, TxEngine.bind.
  pose proof (runPython_log pip_check w) as Hlog.
  destruct (runPython backendDir pip_check w) as [final w1]. simpl in *. done.
Qed.

End Finish.

(** C9.  Whatever the interpreter answers, both AutoHeal loops return after
    at most six recorded checks; a recorded check that succeeded is the
    last step and is the final check.  In a pass that reaches the
    extraction (no canned recipe applies), when the extracted specifier set
    equals a set whose key was seen before, the loop is left at once: no
    install is run, the steps stay as they are and only the verifying
    [pip check] follows.  A pass that installs an extracted set records
    its key, and the loop never forgets a key.  A pass that a canned recipe
    answers never leaves the loop by [break] and leaves the seen keys as
    they are: there the recipe runs whatever was seen. *)
Theorem C9_autoheal_terminates `{host : Host} (backendDir : string)
    (initial : string) (w : TxEngine.World) :
  (forall r, r = fst (autoHealPip backendDir initial w)
             \/ r = fst (autoHealPipConflicts backendDir initial w) ->
     checks (steps r) <= 6
     /\ forall s, s ∈ steps r -> is_check s = true -> step_ok s = true ->
          last (steps r) = Some s
          /\ ok (finalCheck r) = true /\ output (finalCheck r) = step_output s)
  /\ (forall round left l previous,
        canned_fastapi (current l) = false -> canned_family (current l) = false ->
        NoDup previous ->
        (forall x, x ∈ extractPipRequiredSpecs (current l) <-> x ∈ previous) ->
        spec_key previous ∈ seen l ->
        pip_round backendDir round l w = (Break, w)
        /\ pip_rounds backendDir (S left) round l w = pip_finish backendDir l w
        /\ steps (fst (pip_rounds backendDir (S left) round l w)) = so_far l
        /\ (TxEngine.log (snd (pip_rounds backendDir (S left) round l w)) = TxEngine.log w
            \/ TxEngine.log (snd (pip_rounds backendDir (S left) round l w)) =
               TxEngine.log w ++ [TxEngine.Spawn (pythonBin backendDir) pip_check]))
  /\ (forall round left l previous,
        needsCompatibilityProfile (currentOutput l) && negb (compatibilityApplied l) = false ->
        hasTyperConflict (currentOutput l) = false ->
        hasFastapiSSEConflict (currentOutput l) = false ->
        NoDup previous ->
        (forall x, x ∈ extractPipRequiredSpecs (currentOutput l) <-> x ∈ previous) ->
        spec_key previous ∈ seenSpecSets l ->
        fix_round backendDir round l w = (Break, w)
        /\ fix_rounds backendDir (S left) round l w = fix_finish backendDir l w
        /\ steps (fst (fix_rounds backendDir (S left) round l w)) = fix_steps l
        /\ (TxEngine.log (snd (fix_rounds backendDir (S left) round l w)) = TxEngine.log w
            \/ TxEngine.log (snd (fix_rounds backendDir (S left) round l w)) =
               TxEngine.log w ++ [TxEngine.Spawn (pythonBin backendDir) pip_check]))
  /\ (forall round l next,
        fst (pip_round backendDir round l w) = Continue next ->
        seen l ⊆ seen next
        /\ (canned_fastapi (current l) = false -> canned_family (current l) = false ->
            spec_key (extractPipRequiredSpecs (current l)) ∈ seen next))
  /\ (forall round l next,
        fst (fix_round backendDir round l w) = Continue next ->
        seenSpecSets l ⊆ seenSpecSets next
        /\ (needsCompatibilityProfile (currentOutput l) && negb (compatibilityApplied l) = false ->
            hasTyperConflict (currentOutput l) = false ->
            hasFastapiSSEConflict (currentOutput l) = false ->
            spec_key (extractPipRequiredSpecs (currentOutput l)) ∈ seenSpecSets next))
  /\ (forall round l,
        canned_fastapi (current l) || canned_family (current l) = true ->
        fst (pip_round backendDir round l w) <> Break
        /\ forall next, fst (pip_round backendDir round l w) = Continue next ->
             seen next = seen l)
  /\ (forall round l,
        needsCompatibilityProfile (currentOutput l) && negb (compatibilityApplied l)
        || hasTyperConflict (currentOutput l)
        || hasFastapiSSEConflict (currentOutput l) = true ->
        fst (fix_round backendDir round l w) <> Break
        /\ forall next, fst (fix_round backendDir round l w) = Continue next ->
             seenSpecSets next = seenSpecSets l).
Proof.
  split_and!; try (intros round l next Hflow;
    first [ pose proof (pip_round_records backendDir round l w) as Hkept
          | pose proof (fix_round_records backendDir round l w) as Hkept ];
    rewrite Hflow in Hkept; exact Hkept);
    try (intros round l Hcanned;
      first [ pose proof (pip_round_canned backendDir round l Hcanned w) as Hrun
            | pose proof (fix_round_canned backendDir round l Hcanned w) as Hrun ];
      split; [intros Hflow; by rewrite Hflow in Hrun
             | intros next Hflow; by rewrite Hflow in Hrun]).
  - intros r [-> | ->].
    + apply (pip_rounds_settled backendDir 6 1
               {| so_far := []; current := initial; seen := ∅ |}).
      intros s Hs. by apply elem_of_nil in Hs.
    + apply (fix_rounds_settled backendDir 6 1
               {| fix_steps := []; currentOutput := initial; seenSpecSets := ∅;
                  compatibilityApplied := false |}).
      intros s Hs. by apply elem_of_nil in Hs.
  - intros round left l previous H1 H2 Hnd Hsame Hseen.
    assert (Hkey : spec_key (extractPipRequiredSpecs (current l)) ∈ seen l).
    { by rewrite (spec_key_of_set _ previous (extract_NoDup _) Hnd Hsame). }
    pose proof (pip_round_seen backendDir round l w H1 H2 Hkey) as Hbreak.
    assert (Hrun : pip_rounds backendDir (S left) round l w = pip_finish backendDir l w).
    { simpl. unfold TxEngine.bind at 1. by rewrite Hbreak. }
    split; [done|]. split; [done|]. rewrite Hrun. apply pip_finish_run.
  - intros round left l previous H1 H2 H3 Hnd Hsame Hseen.
    assert (Hkey : spec_key (extractPipRequiredSpecs (currentOutput l)) ∈ seenSpecSets l).
    { by rewrite (spec_key_of_set _ previous (extract_NoDup _) Hnd Hsame). }
    pose proof (fix_round_seen backendDir round l w H1 H2 H3 Hkey) as Hbreak.
    assert (Hrun : fix_rounds backendDir (S left) round l w = fix_finish backendDir l w).
    { simpl. unfold TxEngine.bind at 1. by rewrite Hbreak. }
    split; [done|]. split; [done|]. rewrite Hrun. apply fix_finish_run.
Qed.

(** A third pass that meets the requirement it has already tried. *)
Lemma C9_autoheal_terminates_stuck :
  (checks (steps (fst (autoHealPip Demo.backend stuck_output venv))) <= 6)
  /\ pip_rounds Demo.backend 4 3 stuck_loop venv = pip_finish Demo.backend stuck_loop venv
  /\ fix_rounds Demo.backend 4 3 stuck_fix_loop venv
     = fix_finish Demo.backend stuck_fix_loop venv.
Proof.
  destruct (C9_autoheal_terminates (host := Demo.broken) Demo.backend stuck_output venv)
    as (Hsix & Hpip & Hfix & _).
  split_and!.
  - apply (Hsix _ (or_introl eq_refl)).
  - apply (Hpip 3 3 stuck_loop ["bar>=2"]).
    + reflexivity.
    + reflexivity.
    + apply NoDup_singleton.
    + intros x. reflexivity.
    + vm_compute. reflexivity.
  - apply (Hfix 3 3 stuck_fix_loop ["bar>=2"]).
    + reflexivity.
    + reflexivity.
    + reflexivity.
    + apply NoDup_singleton.
    + intros x. reflexivity.
    + vm_compute. reflexivity.
Defined.

(** C9, as it fails without the restriction to passes that reach the
    extraction.  The first pass installs the extracted set [pillow<12.0]
    and records its key; every later output asks for the same set but
    names gradio, and the canned recipe is run in each of the five
    remaining passes.  The fix route does the same with its typer
    profile. *)
Lemma C9_canned_recipe_ignores_seen :
  extractPipRequiredSpecs gradio_output = extractPipRequiredSpecs tried_output
  /\ command <$> steps (fst (autoHealPip Demo.backend tried_output gradio_venv))
     = ["python -m pip install pillow<12.0"; "python -m pip check (round 1)";
        "python -m pip install scipy~=1.15.3 pillow<12 rembg==2.0.69 onnxruntime";
        "python -m pip install --no-deps gradio==5.35.0 shaderflow==0.9.1";
        "python -m pip check (round 2)";
        "python -m pip install scipy~=1.15.3 pillow<12 rembg==2.0.69 onnxruntime";
        "python -m pip install --no-deps gradio==5.35.0 shaderflow==0.9.1";
        "python -m pip check (round 3)";
        "python -m pip install scipy~=1.15.3 pillow<12 rembg==2.0.69 onnxruntime";
        "python -m pip install --no-deps gradio==5.35.0 shaderflow==0.9.1";
        "python -m pip check (round 4)";
        "python -m pip install scipy~=1.15.3 pillow<12 rembg==2.0.69 onnxruntime";
        "python -m pip install --no-deps gradio==5.35.0 shaderflow==0.9.1";
        "python -m pip check (round 5)";
        "python -m pip install scipy~=1.15.3 pillow<12 rembg==2.0.69 onnxruntime";
        "python -m pip install --no-deps gradio==5.35.0 shaderflow==0.9.1";
        "python -m pip check (round 6)"]
  /\ extractPipRequiredSpecs typer_output = extractPipRequiredSpecs tried_typer_output
  /\ command <$> steps (fst (autoHealPipConflicts Demo.backend tried_typer_output typer_venv))
     = ["python -m pip install typer>=0.24.0"; "python -m pip check (round 1)";
        "python -m pip install typer==0.15.4 typer-slim==0.15.4 click<8.2,>=8.0.0";
        "python -m pip check (after typer compatibility profile, round 2)";
        "python -m pip install typer==0.15.4 typer-slim==0.15.4 click<8.2,>=8.0.0";
        "python -m pip check (after typer compatibility profile, round 3)";
        "python -m pip install typer==0.15.4 typer-slim==0.15.4 click<8.2,>=8.0.0";
        "python -m pip check (after typer compatibility profile, round 4)";
        "python -m pip install typer==0.15.4 typer-slim==0.15.4 click<8.2,>=8.0.0";
        "python -m pip check (after typer compatibility profile, round 5)";
        "python -m pip install typer==0.15.4 typer-slim==0.15.4 click<8.2,>=8.0.0";
        "python -m pip check (after typer compatibility profile, round 6)"].
Proof. split_and!; vm_compute; reflexivity. Qed.

End HealClaims.

(** ** More of the transaction engine: apply, rollback, queries and routes *)

Module TxMore.
Import TxEngine TxProps TxLife TxQueries.

#[local] Arguments readStore : simpl never.
#[local] Arguments writeStore : simpl never.
#[local] Arguments runPython : simpl never.
#[local] Arguments writeFreezeSnapshot : simpl never.
#[local] Arguments findTx : simpl never.
#[local] Arguments slice_last : simpl never.

(** *** Strings *)

Lemma substring_length n s : String.length (String.substring 0 n s) = min n (String.length s).
Proof.
  revert s. induction n as [|n IH]; intros [|c s]; simpl; try done.
  by rewrite IH.
Qed.

Lemma substring_nonempty n s : 0 < n -> s <> "" -> String.substring 0 n s <> "".
Proof. intros Hn Hs. destruct n; [lia|]. by destruct s. Qed.

Lemma is_empty_false s : Js.is_empty s = false <-> s <> "".
Proof. by destruct s. Qed.

Lemma trimEnd_idem s : Js.trimEnd (Js.trimEnd s) = Js.trimEnd s.
Proof.
  induction s as [|c s IH]; [done|]. simpl.
  destruct (Js.trimEnd s) as [|d kept] eqn:E.
  - destruct (Js.is_space c) eqn:Ec; simpl; [done|]. by rewrite Ec.
  - remember (String d kept) as t eqn:Et. simpl. rewrite IH. by subst t.
Qed.

Lemma trimEnd_head c s :
  Js.is_space c = false -> exists rest, Js.trimEnd (String c s) = String c rest.
Proof.
  intros Hc. simpl. destruct (Js.trimEnd s); rewrite ?Hc; eauto.
Qed.

Lemma trimStart_head s :
  Js.trimStart s = "" \/ exists c rest, Js.trimStart s = String c rest /\ Js.is_space c = false.
Proof.
  induction s as [|c s IH]; [by left|]. simpl.
  destruct (Js.is_space c) eqn:E; [done|]. right. eauto.
Qed.

Lemma trimStart_fixed c s : Js.is_space c = false -> Js.trimStart (String c s) = String c s.
Proof. intros Hc. simpl. by rewrite Hc. Qed.

(** [trim] is idempotent. *)
Lemma trim_idem s : Js.trim (Js.trim s) = Js.trim s.
Proof.
  unfold Js.trim. destruct (trimStart_head s) as [->|(c & rest & -> & Hc)]; [done|].
  destruct (trimEnd_head c rest Hc) as (kept & E). rewrite E.
  rewrite (trimStart_fixed _ _ Hc), <- E. apply trimEnd_idem.
Qed.

(** *** The sanitizer *)

Lemma item_text_fixed v : item_text (Js.VString (Js.trim v)) = Js.trim v.
Proof.
  unfold item_text, Js.or_else. simpl.
  destruct (Js.is_empty (Js.trim v)) eqn:E; simpl.
  - by destruct (Js.trim v).
  - apply trim_idem.
Qed.

Definition sanitized (l : list string) : Prop :=
  NoDup l /\ Forall (fun v => spec_ok v = true /\ Js.trim v = v) l.

Lemma sanitize_step_sanitized out item :
  sanitized out -> sanitized (sanitize_step out item).
Proof.
  intros [Hnd Hall]. rewrite sanitize_step_eq.
  destruct (spec_ok (item_text item)) eqn:E; [|done].
  split; [by apply set_add_NoDup|].
  unfold Js.set_add. destruct (Js.mem _ out); [done|].
  apply Forall_app. split; [done|]. apply Forall_singleton. split; [done|].
  unfold item_text. apply trim_idem.
Qed.

Lemma fold_sanitize_sanitized items acc :
  sanitized acc -> sanitized (fold_left sanitize_step items acc).
Proof.
  revert acc. induction items as [|item items IH]; intros acc H; simpl; [done|].
  by apply IH, sanitize_step_sanitized.
Qed.

Lemma sanitizePackages_sanitized input : sanitized (sanitizePackages input).
Proof.
  destruct input as [|items]; simpl.
  - split; [apply NoDup_nil_2 | done].
  - apply fold_sanitize_sanitized. split; [apply NoDup_nil_2 | done].
Qed.

Lemma fold_sanitize_fixed l acc :
  sanitized (acc ++ l) ->
  fold_left sanitize_step (map Js.VString l) acc = acc ++ l.
Proof.
  revert acc. induction l as [|v l IH]; intros acc H; simpl.
  - by rewrite app_nil_r.
  - replace (acc ++ v :: l) with ((acc ++ [v]) ++ l) in * by by rewrite <- app_assoc.
    destruct H as [Hnd Hall].
    assert (Hv : spec_ok v = true /\ Js.trim v = v).
    { rewrite Forall_forall in Hall. apply Hall.
      rewrite !elem_of_app, list_elem_of_singleton. tauto. }
    destruct Hv as [Hok Htrim].
    assert (Etext : item_text (Js.VString v) = v).
    { rewrite <- Htrim at 1. rewrite item_text_fixed. done. }
    rewrite sanitize_step_eq, Etext, Hok.
    unfold Js.set_add.
    assert (Hnew : Js.mem v acc = false).
    { apply mem_false. intros Hin.
      apply NoDup_app in Hnd as (Hnd & _ & _).
      apply NoDup_app in Hnd as (_ & Hdis & _).
      apply (Hdis v Hin). by apply list_elem_of_singleton. }
    rewrite Hnew. by apply IH.
Qed.

Section More.
Context `{host : Host}.
Variable backendDir : string.

Local Abbreviation World := (@World host).

(** *** Steps *)

(** What one call of [runPython] leaves behind. *)
Record step_facts (args : list string) (w : World) (st : EnvStep) (w' : World) : Prop := {
  step_disk : disk w' = disk w;
  step_output : output st <> "";
  step_bound : String.length (output st) <= MAX_OUTPUT;
  step_ok : ok st = true -> status_code st = 0%Z /\ is_Some (disk w !! venvPythonPath backendDir);
  step_command :
    command st = "python " +:+ Js.join " " args
    \/ command st = venvPythonPath backendDir +:+ " " +:+ Js.join " " args;
  step_missing :
    disk w !! venvPythonPath backendDir = None ->
    ok st = false /\ status_code st = 1%Z /\ log w' = log w
    /\ output st = "backend-comfyui/venv missing"
    /\ command st = "python " +:+ Js.join " " args;
}.

Lemma runPython_facts (args : list string) (w : World) :
  step_facts args w (fst (runPython backendDir args w)) (snd (runPython backendDir args w)).
Proof.
  unfold runPython, bind, lift_ext, existsSync, emit, ret. cbn [ext disk log].
  destruct (nowIso (ext w)) as [started e1]. cbn [ext disk log].
  destruct (disk w !! venvPythonPath backendDir) as [python|] eqn:Epy.
  - rewrite bool_decide_eq_true_2 by eauto. cbn [negb ext disk log].
    destruct (spawnSync (venvPythonPath backendDir) args e1) as [proc e2].
    cbn [ext disk log].
    destruct (nowIso e2) as [finished e3]. cbn [ext disk log].
    destruct (randomUUID e3) as [sid e4]. cbn [fst snd ext disk log output ok
      status_code command].
    split; cbn [fst snd ext disk log output ok status_code command].
    + done.
    + apply substring_nonempty; [unfold MAX_OUTPUT; lia|].
      destruct (Js.is_empty _) eqn:E; [done | by apply is_empty_false].
    + rewrite substring_length. lia.
    + intros Hok. apply bool_decide_eq_true_1 in Hok. rewrite Hok. eauto.
    + by right.
    + intros Hnone. congruence.
  - rewrite bool_decide_eq_false_2 by (by intros [? ?]). cbn [negb ext disk log].
    destruct (nowIso e1) as [finished e2]. cbn [ext disk log].
    destruct (randomUUID e2) as [sid e3].
    split; cbn [fst snd ext disk log output ok status_code command]; try done.
    + unfold MAX_OUTPUT. simpl. lia.
    + by left.
Qed.

(** *** What is on disk stays on disk *)

Definition grows (w w' : World) : Prop :=
  forall p, is_Some (disk w !! p) -> is_Some (disk w' !! p).

Definition growing {A} (m : M A) : Prop := forall w, grows w (snd (m w)).

Lemma grows_refl w : grows w w.
Proof. by intros p. Qed.

Lemma grows_trans w1 w2 w3 : grows w1 w2 -> grows w2 w3 -> grows w1 w3.
Proof. intros H1 H2 p Hp. by apply H2, H1. Qed.

Lemma growing_ret {A} (a : A) : growing (ret a).
Proof. intros w. apply grows_refl. Qed.

Lemma growing_bind {A B} (m : M A) (k : A -> M B) :
  growing m -> (forall a, growing (k a)) -> growing (bind m k).
Proof.
  intros Hm Hk w. unfold bind. specialize (Hm w).
  destruct (m w) as [a w1]. simpl in *. eapply grows_trans; [exact Hm | apply Hk].
Qed.

Lemma growing_lift_ext {A} (f : Ext -> A * Ext) : growing (lift_ext f).
Proof. intros w p. unfold lift_ext. by destruct (f (ext w)). Qed.

Lemma growing_existsSync p : growing (existsSync p).
Proof. intros w. apply grows_refl. Qed.

Lemma growing_emit e : growing (emit e).
Proof. by intros w p. Qed.

Lemma growing_writeFileSync p c : growing (writeFileSync p c).
Proof.
  intros w q Hq. simpl. destruct (decide (p = q)) as [->|Hne].
  - rewrite lookup_insert_eq. eauto.
  - by rewrite lookup_insert_ne.
Qed.

Lemma growing_readStore : growing (readStore backendDir).
Proof. intros w. rewrite readStore_run. by intros p. Qed.

Lemma growing_writeStore txs : growing (writeStore backendDir txs).
Proof.
  intros w q Hq. rewrite writeStore_run. simpl.
  destruct (decide (txStorePath backendDir = q)) as [->|Hne].
  - rewrite lookup_insert_eq. eauto.
  - by rewrite lookup_insert_ne.
Qed.

Lemma growing_runPython args : growing (runPython backendDir args).
Proof.
  intros w p. by rewrite (step_disk _ _ _ _ (runPython_facts args w)).
Qed.

Lemma growing_writeFreezeSnapshot tag : growing (writeFreezeSnapshot backendDir tag).
Proof.
  unfold writeFreezeSnapshot. apply growing_bind; [apply growing_runPython|intros st].
  destruct (negb (ok st)); [apply growing_ret|].
  apply growing_bind; [apply growing_writeFileSync|intros ?]. apply growing_ret.
Qed.

(** A snapshot that is reported is a non-empty path of a file on disk. *)
Lemma writeFreezeSnapshot_present tag (w : World) snap :
  fst (writeFreezeSnapshot backendDir tag w) = Present snap ->
  snap <> "" /\ is_Some (disk (snd (writeFreezeSnapshot backendDir tag w)) !! snap).
Proof.
  unfold writeFreezeSnapshot, bind.
  destruct (runPython backendDir ["-m"; "pip"; "freeze"] w) as [st w1].
  destruct (negb (ok st)); [done|]. simpl. intros [= <-]. split.
  - unfold path_join. simpl. by destruct (snapshotsDir backendDir).
  - rewrite lookup_insert_eq. eauto.
Qed.

(** *** Applying a transaction *)

(** The arguments of the interpreter calls that [applyTransaction] makes,
    in order. *)
Definition apply_args (k : EnvTxKind) (requested : list string) : list (list string) :=
  [["-m"; "pip"; "install"; "-r"; "requirements.txt"];
   ["-m"; "pip"; "install"; "-r"; "manager_requirements.txt"]]
  ++ (match k, requested with
      | install, _ :: _ => [["-m"; "pip"; "install"] ++ requested]
      | _, _ => []
      end)
  ++ [["-m"; "pip"; "check"]].

(** [st] is the step that [runPython] builds for [args] in some world. *)
Definition ran_by (st : EnvStep) (args : list string) : Prop :=
  exists w0 : World, st = fst (runPython backendDir args w0).

Lemma apply_runs (wanted : string) (w : World) (tx : EnvTx) (index : nat) :
  locate wanted (persisted backendDir w) = Some (tx, index) ->
  status tx = planned \/ status tx = failed ->
  exists now before ran check after now2 w',
    applyTransaction backendDir wanted w =
      (Done (set_finished (set_running tx now before) ran check after now2), w')
    /\ Forall2 ran_by ran (apply_args (kind tx) (requestedPackages tx))
    /\ last ran = Some check
    /\ persisted backendDir w' =
       slice_last MAX_TX
         (<[index := set_finished (set_running tx now before) ran check after now2]>
            (persisted backendDir w))
    /\ grows w w'
    /\ (forall snap, before = Present snap -> snap <> "" /\ is_Some (disk w' !! snap)).
Proof.
  intros Hloc Hst. unfold applyTransaction, bind.
  rewrite findTx_run, Hloc.
  assert (Hgo : bool_decide (status tx = planned) || bool_decide (status tx = failed) = true).
  { destruct Hst as [-> | ->]; reflexivity. }
  rewrite Hgo. cbn [negb].
  set (wa := {| ext := ext w; disk := disk w;
                log := log w ++ [MkdirP (envRoot backendDir)]
                             ++ [MkdirP (snapshotsDir backendDir)] |}).
  assert (Ga : grows w wa) by (by intros p).
  pose proof (growing_lift_ext nowIso wa) as Gb.
  destruct (lift_ext nowIso wa) as [now wb]. cbn [snd] in Gb.
  pose proof (growing_writeFreezeSnapshot (id tx +:+ "-before") wb) as Gc.
  pose proof (writeFreezeSnapshot_present (id tx +:+ "-before") wb) as Hbefore.
  destruct (writeFreezeSnapshot backendDir (id tx +:+ "-before") wb) as [before wc].
  cbn [fst snd] in Gc, Hbefore.
  pose proof (growing_writeStore (<[index := set_running tx now before]> (persisted backendDir w)) wc) as Gd.
  destruct (writeStore backendDir (<[index := set_running tx now before]> (persisted backendDir w)) wc)
    as [[] wd]. cbn [snd] in Gd.
  pose proof (growing_runPython ["-m"; "pip"; "install"; "-r"; "requirements.txt"] wd) as Ge.
  destruct (runPython backendDir ["-m"; "pip"; "install"; "-r"; "requirements.txt"] wd)
    as [s1 we] eqn:E1. cbn [snd] in Ge.
  pose proof (growing_runPython ["-m"; "pip"; "install"; "-r"; "manager_requirements.txt"] we) as Gf.
  destruct (runPython backendDir ["-m"; "pip"; "install"; "-r"; "manager_requirements.txt"] we)
    as [s2 wf] eqn:E2. cbn [snd] in Gf.
  assert (R1 : ran_by s1 ["-m"; "pip"; "install"; "-r"; "requirements.txt"]).
  { exists wd. by rewrite E1. }
  assert (R2 : ran_by s2 ["-m"; "pip"; "install"; "-r"; "manager_requirements.txt"]).
  { exists we. by rewrite E2. }
  cbn [kind requestedPackages set_running].
  assert (Hthird : exists s3 wg,
    (match kind tx, requestedPackages tx with
     | install, _ :: _ =>
         fun w => let '(s, w1) := runPython backendDir
                                    (["-m"; "pip"; "install"] ++ requestedPackages tx) w in
                  ret [s] w1
     | _, _ => ret []
     end) wf = (s3, wg)
    /\ grows wf wg
    /\ Forall2 ran_by s3
         (match kind tx, requestedPackages tx with
          | install, _ :: _ => [["-m"; "pip"; "install"] ++ requestedPackages tx]
          | _, _ => []
          end)).
  { destruct (kind tx); [eexists _, _; split_and!; [reflexivity|apply grows_refl|constructor]|].
    destruct (requestedPackages tx) as [|r rs] eqn:Ereq;
      [eexists _, _; split_and!; [reflexivity|apply grows_refl|constructor]|].
    pose proof (growing_runPython (["-m"; "pip"; "install"] ++ r :: rs) wf) as G.
    destruct (runPython backendDir (["-m"; "pip"; "install"] ++ r :: rs) wf) as [s wg] eqn:E3.
    eexists _, _; split_and!; [reflexivity|exact G|].
    constructor; [|constructor]. exists wf. by rewrite E3. }
  destruct Hthird as (s3 & wg & E3 & Gg & R3).
  rewrite E3.
  pose proof (growing_runPython ["-m"; "pip"; "check"] wg) as Gh.
  destruct (runPython backendDir ["-m"; "pip"; "check"] wg) as [check wh] eqn:E4.
  cbn [snd] in Gh.
  pose proof (growing_writeFreezeSnapshot
                (id (set_running tx now before) +:+ "-after") wh) as Gi.
  destruct (writeFreezeSnapshot backendDir
              (id (set_running tx now before) +:+ "-after") wh) as [after wi].
  cbn [snd] in Gi.
  pose proof (growing_lift_ext nowIso wi) as Gj.
  destruct (lift_ext nowIso wi) as [now2 wj]. cbn [snd] in Gj.
  rewrite list_insert_insert_eq.
  set (tx2 := set_finished (set_running tx now before) ([s1; s2] ++ s3 ++ [check])
                check after now2).
  pose proof (growing_writeStore (<[index := tx2]> (persisted backendDir w)) wj) as Gk.
  pose proof (persisted_writeStore backendDir (<[index := tx2]> (persisted backendDir w)) wj)
    as Hstore.
  destruct (writeStore backendDir (<[index := tx2]> (persisted backendDir w)) wj)
    as [[] wk]. cbn [snd] in Gk, Hstore.
  assert (Gck : grows wc wk).
  { repeat (eapply grows_trans; [eassumption|]). apply grows_refl. }
  exists now, before, ([s1; s2] ++ s3 ++ [check]), check, after, now2, wk.
  split_and!.
  - reflexivity.
  - unfold apply_args. constructor; [exact R1|]. constructor; [exact R2|].
    apply Forall2_app; [exact R3|]. constructor; [|constructor].
    exists wg. by rewrite E4.
  - rewrite !app_assoc. apply last_snoc.
  - exact Hstore.
  - eapply grows_trans; [exact Ga|]. eapply grows_trans; [exact Gb|].
    eapply grows_trans; [exact Gc|]. exact Gck.
  - intros snap ->. destruct (Hbefore snap eq_refl) as [Hne Hon].
    split; [exact Hne | by apply Gck].
Qed.


End More.

End TxMore.

(** ** Further statements about the transaction engine *)

Module TxExtra.
Import TxEngine TxProps TxLife TxQueries TxMore.

#[local] Arguments readStore : simpl never.
#[local] Arguments writeStore : simpl never.
#[local] Arguments runPython : simpl never.
#[local] Arguments writeFreezeSnapshot : simpl never.
#[local] Arguments findTx : simpl never.
#[local] Arguments slice_last : simpl never.

(** A disk that holds the interpreter of the virtualenv and nothing else. *)
Definition with_venv : @World Demo.healthy :=
  {| ext := (O : @Ext Demo.healthy);
     disk := <[venvPythonPath Demo.backend := Raw ""]> ∅;
     log := [] |}.

(** The same disk after an install plan for two packages was created. *)
Definition planned_world : @World Demo.healthy :=
  snd (createPlan Demo.backend
         {| mode := Some "install";
            packages := Js.IsArray [Js.VString "torch==2.4"; Js.VString "pillow"] |}
         with_venv).

Lemma findIndex_Some wanted txs i :
  findIndex wanted txs = Some i ->
  exists tx, txs !! i = Some tx /\ id tx = wanted
             /\ forall j t, j < i -> txs !! j = Some t -> id t <> wanted.
Proof.
  revert i. induction txs as [|t txs IH]; intros i; simpl; [done|].
  destruct (String.eqb (id t) wanted) eqn:E.
  - intros [= <-]. exists t. apply String.eqb_eq in E. split_and!; [done|done|lia].
  - destruct (findIndex wanted txs) as [k|]; [|done]. simpl. intros [= <-].
    destruct (IH k eq_refl) as (tx & Hk & Hid & Hbefore).
    exists tx. split_and!; [done|done|].
    intros [|j] t' Hj; simpl.
    + intros [= <-]. by apply String.eqb_neq.
    + apply Hbefore. lia.
Qed.

Lemma locate_Some wanted txs tx i :
  locate wanted txs = Some (tx, i) ->
  findIndex wanted txs = Some i /\ txs !! i = Some tx /\ id tx = wanted.
Proof.
  unfold locate. destruct (findIndex wanted txs) as [k|] eqn:E; [|done].
  destruct (findIndex_Some _ _ _ E) as (t & Hk & Hid & _). rewrite Hk.
  intros [= <- <-]. done.
Qed.

Lemma findIndex_insert wanted txs i tx :
  findIndex wanted txs = Some i -> id tx = wanted ->
  findIndex wanted (<[i := tx]> txs) = Some i.
Proof.
  revert i. induction txs as [|t txs IH]; intros i; simpl; [done|].
  destruct (String.eqb (id t) wanted) eqn:E.
  - intros [= <-] Hid. simpl. apply String.eqb_eq in Hid. by rewrite Hid.
  - destruct (findIndex wanted txs) as [k|] eqn:Ek; [|done]. simpl. intros [= <-] Hid.
    simpl. rewrite E. by rewrite (IH k eq_refl Hid).
Qed.

Lemma locate_insert wanted txs i tx tx' :
  locate wanted txs = Some (tx, i) -> id tx' = wanted ->
  locate wanted (<[i := tx']> txs) = Some (tx', i).
Proof.
  intros Hloc Hid. destruct (locate_Some _ _ _ _ Hloc) as (Hidx & Hi & _).
  unfold locate. rewrite (findIndex_insert _ _ _ _ Hidx Hid).
  rewrite list_lookup_insert_eq; [done|]. by eapply lookup_lt_Some.
Qed.

Lemma findIndex_fresh wanted txs tx :
  (forall t, t ∈ txs -> id t <> wanted) -> id tx = wanted ->
  findIndex wanted (txs ++ [tx]) = Some (length txs).
Proof.
  intros Hfresh Hid. induction txs as [|t txs IH]; simpl.
  - apply String.eqb_eq in Hid. by rewrite Hid.
  - assert (E : String.eqb (id t) wanted = false).
    { apply String.eqb_neq, Hfresh. left. }
    rewrite E, IH; [done|]. intros t' Hin. apply Hfresh. by right.
Qed.

Lemma slice_last_snoc_eq {A} n (l : list A) (x : A) :
  0 < n -> slice_last n (l ++ [x]) = drop (length l + 1 - n) l ++ [x].
Proof.
  intros Hn. unfold slice_last. rewrite length_app. simpl.
  by rewrite drop_app_le by lia.
Qed.

Lemma slice_last_all {A} n (l : list A) : length l <= n -> slice_last n l = l.
Proof.
  intros Hle. unfold slice_last. by replace (length l - n) with 0 by lia.
Qed.

Lemma getTransaction_run `{host : Host} backendDir wanted (w : World) :
  fst (getTransaction backendDir wanted w) = fst <$> locate wanted (persisted backendDir w).
Proof. unfold getTransaction, bind. by rewrite findTx_run. Qed.

Lemma listTransactions_run `{host : Host} backendDir (w : World) :
  fst (listTransactions backendDir w) = map summary_of (persisted backendDir w).
Proof. unfold listTransactions, bind. by rewrite readStore_run. Qed.

(** X1.  Applying a stored transaction that is planned or failed always
    completes.  The answer carries the transaction with its id, kind,
    creation stamp, requested packages, plan and rollback link unchanged;
    three or four steps are appended, the last of which is the [pip check]
    that decides between succeeded and failed and fills [pipHealthy] and
    [pipCheckOutput]; the error is null exactly on success; and the store
    holds the updated transaction at the place of the old one. *)
Theorem apply_completes `{host : Host} (backendDir : string) (wanted : string)
    (w : World) (tx : EnvTx) (index : nat) :
  locate wanted (persisted backendDir w) = Some (tx, index) ->
  status tx = planned \/ status tx = failed ->
  exists tx2 ran check w',
    applyTransaction backendDir wanted w = (Done tx2, w')
    /\ id tx2 = id tx /\ kind tx2 = kind tx /\ createdAt tx2 = createdAt tx
    /\ requestedPackages tx2 = requestedPackages tx
    /\ planCommands tx2 = planCommands tx
    /\ rollbackOf tx2 = rollbackOf tx
    /\ steps tx2 = steps tx ++ ran
    /\ 3 <= length ran <= 4
    /\ last ran = Some check
    /\ status tx2 = (if ok check then succeeded else failed)
    /\ pipHealthy tx2 = Some (ok check)
    /\ pipCheckOutput tx2 = Some (output check)
    /\ (error tx2 = Null <-> status tx2 = succeeded)
    /\ persisted backendDir w' =
       slice_last MAX_TX (<[index := tx2]> (persisted backendDir w)).
Proof.
  intros Hloc Hst.
  destruct (apply_runs backendDir wanted w tx index Hloc Hst)
    as (now & before & ran & check & after & now2 & w' & Hrun & Hran & Hlast & Hstore & _).
  eexists _, ran, check, w'. split; [exact Hrun|].
  apply Forall2_length in Hran.
  assert (Hlen : 3 <= length ran <= 4).
  { rewrite Hran. unfold apply_args.
    destruct (kind tx), (requestedPackages tx); simpl; lia. }
  split_and!; try reflexivity; try done; try lia.
  all: simpl; destruct (ok check); done.
Qed.

(** The transaction that [planned_world] holds. *)
Definition planned_tx : EnvTx :=
  fst (createPlan Demo.backend
         {| mode := Some "install";
            packages := Js.IsArray [Js.VString "torch==2.4"; Js.VString "pillow"] |}
         with_venv).

(** Applying the install plan of [planned_world]. *)
Lemma apply_completes_planned :
  exists tx2 ran check (w' : @World Demo.healthy),
    applyTransaction Demo.backend "uuid-0" planned_world = (Done tx2, w')
    /\ id tx2 = id planned_tx /\ kind tx2 = kind planned_tx
    /\ createdAt tx2 = createdAt planned_tx
    /\ requestedPackages tx2 = requestedPackages planned_tx
    /\ planCommands tx2 = planCommands planned_tx
    /\ rollbackOf tx2 = rollbackOf planned_tx
    /\ steps tx2 = steps planned_tx ++ ran
    /\ 3 <= length ran <= 4
    /\ last ran = Some check
    /\ status tx2 = (if ok check then succeeded else failed)
    /\ pipHealthy tx2 = Some (ok check)
    /\ pipCheckOutput tx2 = Some (output check)
    /\ (error tx2 = Null <-> status tx2 = succeeded)
    /\ persisted Demo.backend w' =
       slice_last MAX_TX (<[0 := tx2]> (persisted Demo.backend planned_world)).
Proof.
  apply (apply_completes (host := Demo.healthy) Demo.backend "uuid-0" planned_world
           planned_tx 0).
  - vm_compute. reflexivity.
  - left. reflexivity.
Defined.

(** A step carries out a planned command when the two texts are the same,
    or differ only in that "python" is spelled as the path of the
    virtualenv's interpreter. *)
Definition carries_out (backendDir : string) (st : EnvStep) (planned : string) : Prop :=
  exists rest,
    planned = "python " +:+ rest
    /\ (command st = planned
        \/ command st = venvPythonPath backendDir +:+ " " +:+ rest).

Lemma buildPlan_args k requested :
  buildPlan k requested =
  map (fun args => "python " +:+ Js.join " " args) (apply_args k requested).
Proof.
  unfold buildPlan, apply_args. destruct k; [reflexivity|].
  destruct requested as [|r rs]; reflexivity.
Qed.

Lemma createPlan_plan `{host : Host} backendDir (input : PlanInput) (w : World) :
  let tx := fst (createPlan backendDir input w) in
  planCommands tx = buildPlan (kind tx) (requestedPackages tx)
  /\ status tx = planned /\ steps tx = [].
Proof.
  unfold createPlan, bind, lift_ext, ret. simpl.
  destruct (randomUUID (ext w)) as [txid e1]; simpl.
  destruct (nowIso e1) as [t1 e2]; simpl.
  destruct (nowIso e2) as [t2 e3]; simpl.
  rewrite readStore_run. simpl. by rewrite ?writeStore_run.
Qed.

(** X2.  The steps that an apply records are the commands of the plan, one
    step per command and in the plan's order. *)
Theorem apply_follows_plan `{host : Host} (backendDir : string) (wanted : string)
    (w : World) (tx : EnvTx) (index : nat) :
  locate wanted (persisted backendDir w) = Some (tx, index) ->
  status tx = planned \/ status tx = failed ->
  planCommands tx = buildPlan (kind tx) (requestedPackages tx) ->
  exists tx2 ran w',
    applyTransaction backendDir wanted w = (Done tx2, w')
    /\ steps tx2 = steps tx ++ ran
    /\ Forall2 (carries_out backendDir) ran (planCommands tx2).
Proof.
  intros Hloc Hst Hplan.
  destruct (apply_runs backendDir wanted w tx index Hloc Hst)
    as (now & before & ran & check & after & now2 & w' & Hrun & Hran & _).
  eexists _, ran, w'. split; [exact Hrun|]. split; [reflexivity|].
  cbn [planCommands set_finished set_running]. rewrite Hplan, buildPlan_args.
  apply Forall2_fmap_r. eapply Forall2_impl; [exact Hran|].
  intros st args [w0 ->]. exists (Js.join " " args). split; [reflexivity|].
  apply (step_command _ _ _ _ _ (runPython_facts backendDir args w0)).
Qed.

(** The install plan of [planned_world] is carried out command by command. *)
Lemma apply_follows_plan_planned :
  exists tx2 ran (w' : @World Demo.healthy),
    applyTransaction Demo.backend "uuid-0" planned_world = (Done tx2, w')
    /\ steps tx2 = steps planned_tx ++ ran
    /\ Forall2 (carries_out Demo.backend) ran (planCommands tx2).
Proof.
  apply (apply_follows_plan (host := Demo.healthy) Demo.backend "uuid-0" planned_world
           planned_tx 0).
  - vm_compute. reflexivity.
  - left. reflexivity.
  - vm_compute. reflexivity.
Defined.

(** X3.  An id that the store does not hold: apply and rollback answer 404,
    the lookup answers null, and none of them changes the disk, the clock
    or the random source. *)
Theorem unknown_id_changes_nothing `{host : Host} (backendDir : string)
    (wanted : string) (w : World) :
  locate wanted (persisted backendDir w) = None ->
  applyTransaction backendDir wanted w
    = (Refused 404 "Transaction not found.", after_lookup backendDir w)
  /\ rollbackTransaction backendDir wanted w
    = (Refused 404 "Transaction not found.", after_lookup backendDir w)
  /\ getTransaction backendDir wanted w = (None, after_lookup backendDir w)
  /\ disk (after_lookup backendDir w) = disk w
  /\ ext (after_lookup backendDir w) = ext w
  /\ persisted backendDir (after_lookup backendDir w) = persisted backendDir w.
Proof.
  intros Hloc. split_and!.
  - unfold applyTransaction, bind. by rewrite findTx_run, Hloc.
  - unfold rollbackTransaction, bind. by rewrite findTx_run, Hloc.
  - unfold getTransaction, bind. by rewrite findTx_run, Hloc.
  - reflexivity.
  - reflexivity.
  - by rewrite !persisted_disk.
Qed.

(** An id that was never issued, against the store of scenario E1. *)
Lemma unknown_id_changes_nothing_e1 :
  applyTransaction Demo.backend "T2" Demo.after_e1
    = (Refused 404 "Transaction not found.", after_lookup Demo.backend Demo.after_e1)
  /\ rollbackTransaction Demo.backend "T2" Demo.after_e1
    = (Refused 404 "Transaction not found.", after_lookup Demo.backend Demo.after_e1)
  /\ getTransaction Demo.backend "T2" Demo.after_e1
    = (None, after_lookup Demo.backend Demo.after_e1)
  /\ disk (after_lookup Demo.backend Demo.after_e1) = disk Demo.after_e1
  /\ ext (after_lookup Demo.backend Demo.after_e1) = ext Demo.after_e1
  /\ persisted Demo.backend (after_lookup Demo.backend Demo.after_e1)
     = persisted Demo.backend Demo.after_e1.
Proof.
  apply (unknown_id_changes_nothing (host := Demo.healthy) Demo.backend "T2" Demo.after_e1).
  vm_compute. reflexivity.
Defined.


(** X5.  Sanitizing is idempotent: a list that [sanitizePackages] returned
    passes through it unchanged. *)
Theorem sanitizePackages_idempotent (input : Js.unknown) :
  sanitizePackages (Js.IsArray (map Js.VString (sanitizePackages input)))
  = sanitizePackages input.
Proof.
  simpl. apply (fold_sanitize_fixed _ []). simpl. apply sanitizePackages_sanitized.
Qed.

(** X6.  A plan can be read back.  When the id that [createPlan] draws is not
    the id of a stored transaction, [getTransaction] of that id returns
    the created transaction, it is the last entry of [listTransactions],
    and the store holds at most 200 entries. *)
Theorem plan_then_get `{host : Host} (backendDir : string) (input : PlanInput)
    (w : World) :
  let tx := fst (createPlan backendDir input w) in
  let w1 := snd (createPlan backendDir input w) in
  (forall t, t ∈ persisted backendDir w -> id t <> id tx) ->
  fst (getTransaction backendDir (id tx) w1) = Some tx
  /\ last (fst (listTransactions backendDir w1)) = Some (summary_of tx)
  /\ length (fst (listTransactions backendDir w1)) <= MAX_TX.
Proof.
  intros tx w1 Hfresh. subst tx w1.
  rewrite getTransaction_run, listTransactions_run, createPlan_persisted.
  set (tx := fst (createPlan backendDir input w)) in *.
  assert (Hpos : 0 < MAX_TX) by (unfold MAX_TX; lia).
  split_and!.
  - rewrite slice_last_snoc_eq by done.
    set (kept := drop (length (persisted backendDir w) + 1 - MAX_TX)
                   (persisted backendDir w)).
    assert (Hidx : findIndex (id tx) (kept ++ [tx]) = Some (length kept)).
    { apply findIndex_fresh; [|done]. intros t Hin. apply Hfresh.
      eapply subseteq_drop, Hin. }
    unfold locate. rewrite Hidx.
    rewrite lookup_app_r by lia. by rewrite Nat.sub_diag.
  - change (map summary_of) with (fmap (M := list) summary_of).
    rewrite fmap_last, slice_last_snoc by done. done.
  - rewrite length_map, slice_last_length. lia.
Qed.

(** A plan created next to the transaction of scenario E1. *)
Lemma plan_then_get_after_e1 :
  let tx := fst (createPlan Demo.backend Demo.e2_input Demo.after_e1) in
  let w1 := snd (createPlan Demo.backend Demo.e2_input Demo.after_e1) in
  fst (getTransaction Demo.backend (id tx) w1) = Some tx
  /\ last (fst (listTransactions Demo.backend w1)) = Some (summary_of tx)
  /\ length (fst (listTransactions Demo.backend w1)) <= MAX_TX.
Proof.
  apply (plan_then_get (host := Demo.healthy) Demo.backend Demo.e2_input Demo.after_e1).
  intros t Hin. vm_compute in Hin. apply list_elem_of_singleton in Hin. subst t.
  vm_compute. discriminate.
Defined.

(** X7.  An applied transaction whose pre-apply snapshot was taken can be
    rolled back.  If the store holds at most 200 entries and
    [applyTransaction] finishes with a transaction that records a
    snapshot, then [rollbackTransaction] of the same id right afterwards is
    not refused: it appends a transaction that points back to the applied
    one and reinstalls that snapshot. *)
Theorem applied_can_be_rolled_back `{host : Host} (backendDir : string)
    (wanted : string) (w : World) (tx : EnvTx) (index : nat) (tx2 : EnvTx)
    (snap : string) :
  locate wanted (persisted backendDir w) = Some (tx, index) ->
  length (persisted backendDir w) <= MAX_TX ->
  fst (applyTransaction backendDir wanted w) = Done tx2 ->
  snapshotBefore tx2 = Present snap ->
  let w' := snd (applyTransaction backendDir wanted w) in
  exists rtx w'',
    rollbackTransaction backendDir wanted w' = (Done rtx, w'')
    /\ rollbackOf rtx = Some (id tx2)
    /\ snapshotBefore rtx = Present snap
    /\ (exists inst check, steps rtx = [inst; check]
          /\ (command inst = "python -m pip install -r " +:+ snap
              \/ command inst = venvPythonPath backendDir +:+ " -m pip install -r " +:+ snap))
    /\ persisted backendDir w'' = slice_last MAX_TX (persisted backendDir w' ++ [rtx]).
Proof.
  intros Hloc Hlen Hdone Hsnap w'. subst w'.
  assert (Hst : status tx = planned \/ status tx = failed).
  { destruct (decide (status tx = planned)) as [|Hp]; [by left|].
    destruct (decide (status tx = failed)) as [|Hf]; [by right|].
    rewrite (apply_refused backendDir wanted w tx index Hloc Hp Hf) in Hdone.
    discriminate. }
  destruct (apply_runs backendDir wanted w tx index Hloc Hst)
    as (now & before & ran & check & after & now2 & w' & Hrun & _ & _ & Hstore & _ & Hbefore).
  rewrite Hrun in Hdone |- *. cbn [fst snd] in *. injection Hdone as <-.
  cbn [snapshotBefore set_finished set_running] in Hsnap.
  destruct (Hbefore snap Hsnap) as [Hne Hon]. clear Hbefore. subst before.
  rewrite slice_last_all in Hstore by (by rewrite length_insert).
  set (tx2 := set_finished (set_running tx now (Present snap)) ran check after now2) in *.
  assert (Hloc' : locate wanted (persisted backendDir w') = Some (tx2, index)).
  { rewrite Hstore. eapply locate_insert; [exact Hloc|].
    apply locate_Some in Hloc as (_ & _ & Hid). exact Hid. }
  destruct (rollback_runs backendDir wanted w' tx2 index snap Hloc' eq_refl Hne Hon)
    as (rid & created & nowr & afterr & w1 & w2 & w'' & Hroll & Hstore').
  eexists _, w''. split; [exact Hroll|]. split_and!; try reflexivity.
  - eexists _, _. split; [reflexivity|].
    destruct (step_command _ _ _ _ _
                (runPython_facts backendDir ["-m"; "pip"; "install"; "-r"; snap] w1))
      as [E|E]; [left | right]; rewrite E; reflexivity.
  - exact Hstore'.
Qed.

(** The transaction that applying the plan of [planned_world] produces. *)
Definition applied_tx : EnvTx :=
  match fst (applyTransaction Demo.backend "uuid-0" planned_world) with
  | Done tx2 => tx2
  | Refused _ _ => planned_tx
  end.

Definition applied_snapshot : string :=
  path_join [snapshotsDir Demo.backend; "uuid-0-before.txt"].

(** Plan, apply and roll back on a healthy backend. *)
Lemma applied_can_be_rolled_back_planned :
  exists rtx (w'' : @World Demo.healthy),
    rollbackTransaction Demo.backend "uuid-0"
      (snd (applyTransaction Demo.backend "uuid-0" planned_world)) = (Done rtx, w'')
    /\ rollbackOf rtx = Some (id applied_tx)
    /\ snapshotBefore rtx = Present applied_snapshot
    /\ (exists inst check, steps rtx = [inst; check]
          /\ (command inst = "python -m pip install -r " +:+ applied_snapshot
              \/ command inst = venvPythonPath Demo.backend
                                +:+ " -m pip install -r " +:+ applied_snapshot))
    /\ persisted Demo.backend w'' =
       slice_last MAX_TX
         (persisted Demo.backend
            (snd (applyTransaction Demo.backend "uuid-0" planned_world)) ++ [rtx]).
Proof.
  apply (applied_can_be_rolled_back (host := Demo.healthy) Demo.backend "uuid-0"
           planned_world planned_tx 0 applied_tx applied_snapshot).
  - vm_compute. reflexivity.
  - vm_compute. lia.
  - vm_compute. reflexivity.
  - vm_compute. reflexivity.
Defined.

(** X8.  The status report of a backend without a virtualenv: not healthy,
    with the engine's own message, without spawning any process and
    without writing; the transaction count and the latest transaction are
    those of the store. *)
Theorem status_without_venv `{host : Host} (backendDir : string) (w : World) :
  disk w !! venvPythonPath backendDir = None ->
  let report := fst (getEnvStatus backendDir w) in
  let w' := snd (getEnvStatus backendDir w) in
  venvExists report = false
  /\ env_ok report = false
  /\ env_pipHealthy report = false
  /\ env_pipCheckOutput report = "backend-comfyui/venv missing"
  /\ transactions report = length (persisted backendDir w)
  /\ latest_id <$> latestTransaction report = id <$> last (persisted backendDir w)
  /\ disk w' = disk w
  /\ log w' = log w ++ [MkdirP (envRoot backendDir); MkdirP (snapshotsDir backendDir)].
Proof.
  intros Hnone report w'. subst report w'.
  unfold getEnvStatus, bind, existsSync.
  rewrite Hnone. rewrite bool_decide_eq_false_2 by (by intros [? ?]).
  pose proof (runPython_facts backendDir ["-m"; "pip"; "check"] w) as F.
  destruct (runPython backendDir ["-m"; "pip"; "check"] w) as [st w1].
  cbn [fst snd] in F. destruct F as [Hdisk _ _ _ _ Hmiss].
  destruct (Hmiss Hnone) as (Hok & _ & Hlog & Hout & _).
  rewrite readStore_run. cbn [fst snd ret].
  assert (Hsame : persisted backendDir w1 = persisted backendDir w).
  { by rewrite !persisted_disk, Hdisk. }
  rewrite Hsame. cbn.
  split_and!; try done.
  - by destruct (last (persisted backendDir w)).
  - by rewrite Hlog.
Qed.

(** The status of a fresh backend. *)
Lemma status_without_venv_fresh :
  let report := fst (getEnvStatus Demo.backend Demo.fresh) in
  let w' := snd (getEnvStatus Demo.backend Demo.fresh) in
  venvExists report = false
  /\ env_ok report = false
  /\ env_pipHealthy report = false
  /\ env_pipCheckOutput report = "backend-comfyui/venv missing"
  /\ transactions report = length (persisted Demo.backend Demo.fresh)
  /\ latest_id <$> latestTransaction report = id <$> last (persisted Demo.backend Demo.fresh)
  /\ disk w' = disk Demo.fresh
  /\ log w' = log Demo.fresh
              ++ [MkdirP (envRoot Demo.backend); MkdirP (snapshotsDir Demo.backend)].
Proof.
  apply (status_without_venv (host := Demo.healthy) Demo.backend Demo.fresh).
  vm_compute. reflexivity.
Defined.

(** X9.  The four answers of the apply route.  The status is 400 exactly for
    a blank id, 404 exactly for a non-blank id that the store does not
    hold, 409 exactly for a stored transaction that is neither planned nor
    failed, and 200 otherwise. *)
Theorem apply_route_status `{host : Host} (backendDir : string)
    (body_id body_transactionId : Js.value) (w : World) :
  let wanted := requested_id body_id body_transactionId in
  http_status_of (fst (apply_route backendDir body_id body_transactionId w)) =
  if Js.is_empty wanted then 400
  else match locate wanted (persisted backendDir w) with
       | None => 404
       | Some (tx, _) =>
           if bool_decide (status tx = planned) || bool_decide (status tx = failed)
           then 200 else 409
       end.
Proof.
  intros wanted. unfold apply_route. fold wanted.
  destruct (Js.is_empty wanted); [reflexivity|]. unfold bind.
  destruct (locate wanted (persisted backendDir w)) as [[tx index]|] eqn:Hloc.
  - destruct (decide (status tx = planned)) as [Hp|Hp].
    { destruct (apply_runs backendDir wanted w tx index Hloc (or_introl Hp))
        as (? & ? & ? & ? & ? & ? & w' & -> & _).
      by rewrite (bool_decide_eq_true_2 _ Hp). }
    destruct (decide (status tx = failed)) as [Hf|Hf].
    { destruct (apply_runs backendDir wanted w tx index Hloc (or_intror Hf))
        as (? & ? & ? & ? & ? & ? & w' & -> & _).
      rewrite (bool_decide_eq_true_2 _ Hf). by rewrite orb_true_r. }
    rewrite (apply_refused backendDir wanted w tx index Hloc Hp Hf).
    by rewrite (bool_decide_eq_false_2 _ Hp), (bool_decide_eq_false_2 _ Hf).
  - unfold applyTransaction, bind. by rewrite findTx_run, Hloc.
Qed.

End TxExtra.

(** ** The license gate in front of the planner *)

Module PolicyExtra.
Import TxEngine TxProps TxQueries Policy.

#[local] Arguments readStore : simpl never.
#[local] Arguments writeStore : simpl never.
#[local] Arguments slice_last : simpl never.

Ltac solve_elem := repeat first [apply list_elem_of_here | apply list_elem_of_further].

Lemma filter_weaken {A} (P Q : A -> Prop) `{!forall x, Decision (P x)}
    `{!forall x, Decision (Q x)} (l : list A) :
  (forall x, P x -> Q x) -> sublist (filter P l) (filter Q l).
Proof.
  intros Himp. induction l as [|x l IH]; [constructor|].
  rewrite !filter_cons. destruct (decide (P x)) as [Hp|Hp].
  - rewrite decide_True by auto. by apply sublist_skip.
  - destruct (decide (Q x)); [by apply sublist_cons | done].
Qed.

Lemma filter_nil_iff {A} (P : A -> Prop) `{!forall x, Decision (P x)} (l : list A) :
  filter P l = [] <-> forall x, x ∈ l -> ~ P x.
Proof.
  split.
  - intros Hnil x Hin Hp.
    assert (Hx : x ∈ filter P l) by (by apply list_elem_of_filter).
    rewrite Hnil in Hx. by apply elem_of_nil in Hx.
  - intros Hall. induction l as [|x l IH]; [done|].
    rewrite filter_cons. rewrite decide_False by (apply Hall; left).
    apply IH. intros y Hy. apply Hall. by right.
Qed.

(** The allowed policies of the rule that [evaluatePolicy] ends up with
    for a tier that is no inherited member name. *)
Definition effective (tier : string) : list string :=
  match tier_rank tier with
  | Some 1 => ["open"; "non-commercial"]
  | Some 2 => ["open"; "non-commercial"; "commercial"]
  | _ => ["open"]
  end.

Lemma evaluatePolicy_effective tier policies :
  Js.mem tier object_prototype_members = false ->
  evaluatePolicy tier policies =
  let violations := filter (fun p => negb (Js.mem p (effective tier))) policies in
  Some {| allowed := bool_decide (length violations = 0); violations := violations |}.
Proof.
  intros Hown. unfold evaluatePolicy, TIER_RULES, effective, tier_rank.
  destruct (String.eqb tier "free"); [reflexivity|].
  destruct (String.eqb tier "pro"); [reflexivity|].
  destruct (String.eqb tier "enterprise"); [reflexivity|].
  rewrite Hown. reflexivity.
Qed.

Lemma tier_rank_own tier r :
  tier_rank tier = Some r -> Js.mem tier object_prototype_members = false.
Proof.
  unfold tier_rank.
  destruct (String.eqb tier "free") eqn:E1; [apply String.eqb_eq in E1; by subst|].
  destruct (String.eqb tier "pro") eqn:E2; [apply String.eqb_eq in E2; by subst|].
  destruct (String.eqb tier "enterprise") eqn:E3; [apply String.eqb_eq in E3; by subst|].
  done.
Qed.

Lemma tier_rank_range tier r : tier_rank tier = Some r -> r <= 2.
Proof.
  unfold tier_rank.
  destruct (String.eqb tier "free"); [intros [= <-]; lia|].
  destruct (String.eqb tier "pro"); [intros [= <-]; lia|].
  destruct (String.eqb tier "enterprise"); [intros [= <-]; lia|done].
Qed.

Lemma effective_mono t1 t2 r1 r2 p :
  tier_rank t1 = Some r1 -> tier_rank t2 = Some r2 -> r1 <= r2 ->
  Js.mem p (effective t1) = true -> Js.mem p (effective t2) = true.
Proof.
  intros H1 H2 Hle. unfold effective. rewrite H1, H2.
  apply tier_rank_range in H1, H2.
  destruct r1 as [|[|[|r1]]], r2 as [|[|[|r2]]]; try lia; unfold Js.mem; simpl;
    destruct (String.eqb p "open"), (String.eqb p "non-commercial"),
      (String.eqb p "commercial"); simpl; done.
Qed.

(** X10.  A higher tier never forbids what a lower tier permits: from free
    over pro to enterprise the violations only shrink, so a request that is
    allowed stays allowed. *)
Theorem evaluatePolicy_monotone (t1 t2 : string) (r1 r2 : nat) (policies : list string) :
  tier_rank t1 = Some r1 -> tier_rank t2 = Some r2 -> r1 <= r2 ->
  exists e1 e2,
    evaluatePolicy t1 policies = Some e1
    /\ evaluatePolicy t2 policies = Some e2
    /\ sublist (violations e2) (violations e1)
    /\ (allowed e1 = true -> allowed e2 = true).
Proof.
  intros H1 H2 Hle.
  rewrite (evaluatePolicy_effective t1) by by eapply tier_rank_own.
  rewrite (evaluatePolicy_effective t2) by by eapply tier_rank_own.
  cbv zeta. eexists _, _. split; [reflexivity|]. split; [reflexivity|].
  cbn [violations allowed].
  assert (Hsub : sublist
    (filter (fun p => negb (Js.mem p (effective t2))) policies)
    (filter (fun p => negb (Js.mem p (effective t1))) policies)).
  { apply filter_weaken. intros p Hp.
    destruct (Js.mem p (effective t1)) eqn:E; [|done].
    by rewrite (effective_mono _ _ _ _ _ H1 H2 Hle E) in Hp. }
  split; [exact Hsub|].
  intros Hall. apply bool_decide_eq_true_1 in Hall. apply bool_decide_eq_true_2.
  apply sublist_length in Hsub. lia.
Qed.

(** A pro request re-evaluated at the enterprise tier. *)
Lemma evaluatePolicy_monotone_pro :
  exists e1 e2,
    evaluatePolicy "pro" ["open"; "commercial"; "non-commercial"] = Some e1
    /\ evaluatePolicy "enterprise" ["open"; "commercial"; "non-commercial"] = Some e2
    /\ sublist (violations e2) (violations e1)
    /\ (allowed e1 = true -> allowed e2 = true).
Proof.
  apply (evaluatePolicy_monotone "pro" "enterprise" 1 2); [reflexivity|reflexivity|lia].
Defined.

(** X11.  Default deny.  For a tier name that is not a member inherited from
    [Object.prototype], the evaluation is defined; it allows the request
    exactly when there is no violation; the violations are the requested
    policies outside the tier's list, in request order; a policy other than
    "open", "non-commercial" and "commercial" (so "unknown" too) is a
    violation at every tier; and a tier name other than the three known
    ones is treated as free. *)
Theorem evaluatePolicy_default_deny (tier : string) (policies : list string) :
  Js.mem tier object_prototype_members = false ->
  exists e,
    evaluatePolicy tier policies = Some e
    /\ (allowed e = true <-> violations e = [])
    /\ sublist (violations e) policies
    /\ (forall p, p ∈ violations e <-> p ∈ policies /\ p ∉ effective tier)
    /\ (forall p, p ∈ policies -> p ∉ ["open"; "non-commercial"; "commercial"] ->
        p ∈ violations e /\ allowed e = false)
    /\ (tier_rank tier = None -> evaluatePolicy "free" policies = Some e).
Proof.
  intros Hown. rewrite (evaluatePolicy_effective tier policies Hown). cbv zeta.
  eexists. split; [reflexivity|]. cbn [allowed violations].
  set (vs := filter (fun p => negb (Js.mem p (effective tier))) policies).
  assert (Hin : forall p, p ∈ vs <-> p ∈ policies /\ p ∉ effective tier).
  { intros p. unfold vs. rewrite list_elem_of_filter.
    rewrite <- mem_false. destruct (Js.mem p (effective tier)); simpl; split; intros [? ?]; done. }
  split_and!.
  - rewrite bool_decide_eq_true. by destruct vs.
  - apply sublist_filter.
  - exact Hin.
  - intros p Hp Hnot.
    assert (Hv : p ∈ vs).
    { apply Hin. split; [done|]. intros Hallowed. apply Hnot.
      unfold effective in Hallowed.
      destruct (tier_rank tier) as [[|[|[|r]]]|];
        repeat (apply elem_of_cons in Hallowed as [->|Hallowed]; [solve_elem|]);
        by apply elem_of_nil in Hallowed. }
    split; [done|]. apply bool_decide_eq_false_2. destruct vs; [|done].
    by apply elem_of_nil in Hv.
  - intros Hnone. rewrite (evaluatePolicy_effective "free") by reflexivity.
    cbv zeta. unfold vs, effective. rewrite Hnone. reflexivity.
Qed.

(** An "unknown" license at the enterprise tier. *)
Lemma evaluatePolicy_default_deny_unknown :
  exists e,
    evaluatePolicy "enterprise" ["open"; "unknown"] = Some e
    /\ (allowed e = true <-> violations e = [])
    /\ sublist (violations e) ["open"; "unknown"]
    /\ (forall p, p ∈ violations e <-> p ∈ ["open"; "unknown"] /\ p ∉ effective "enterprise")
    /\ (forall p, p ∈ ["open"; "unknown"] ->
        p ∉ ["open"; "non-commercial"; "commercial"] ->
        p ∈ violations e /\ allowed e = false)
    /\ (tier_rank "enterprise" = None ->
        evaluatePolicy "free" ["open"; "unknown"] = Some e).
Proof.
  apply (evaluatePolicy_default_deny "enterprise" ["open"; "unknown"]). reflexivity.
Defined.

(** X12.  A tier name that [TIER_RULES] only inherits ("constructor",
    "toString" and the like) finds a rule without [allowedPolicies]: an
    empty request is allowed, and any other request raises instead of being
    evaluated. *)
Theorem evaluatePolicy_inherited_member (tier : string) :
  tier ∈ object_prototype_members ->
  evaluatePolicy tier [] = Some {| allowed := true; violations := [] |}
  /\ forall p policies, evaluatePolicy tier (p :: policies) = None.
Proof.
  intros Hin. unfold object_prototype_members in Hin.
  repeat (apply elem_of_cons in Hin as [->|Hin]; [split; [reflexivity|intros; reflexivity]|]).
  by apply elem_of_nil in Hin.
Qed.

(** The tier name "constructor". *)
Lemma evaluatePolicy_inherited_member_constructor :
  evaluatePolicy "constructor" [] = Some {| allowed := true; violations := [] |}
  /\ forall p policies, evaluatePolicy "constructor" (p :: policies) = None.
Proof.
  apply (evaluatePolicy_inherited_member "constructor"). vm_compute.
  apply list_elem_of_here.
Defined.

Section Gate.
Context `{host : Host}.
Variable backendDir : string.

(** X13.  The plan route creates a transaction only for a request that the
    tier permits.  A 403 or a 500 answer leaves the world exactly as it
    was: no directory is made and nothing is stored; a 403 lists at least
    one violation, taken from the request; the route never answers 200
    when a requested policy lies outside "open", "non-commercial" and
    "commercial"; and a 200 answer carries the transaction that is now
    the last of the store. *)
Theorem plan_route_gate (tier_env : option string) (body : PlanBody) (w : World) :
  match fst (plan_route backendDir tier_env body w) with
  | PolicyViolation violations _ =>
      snd (plan_route backendDir tier_env body w) = w
      /\ violations <> [] /\ sublist violations (default [] (body_policies body))
  | Failure => snd (plan_route backendDir tier_env body w) = w
  | Transaction tx =>
      (forall p, p ∈ default [] (body_policies body) ->
                 p ∈ ["open"; "non-commercial"; "commercial"])
      /\ requestedPackages tx = sanitizePackages (body_packages body)
      /\ status tx = planned
      /\ last (persisted backendDir (snd (plan_route backendDir tier_env body w))) = Some tx
  | Json _ _ => False
  end.
Proof.
  unfold plan_route.
  set (userTier := match tier_env with
                   | Some t => if Js.is_empty t then "free" else t
                   | None => "free"
                   end).
  set (policies := default [] (body_policies body)).
  destruct (Js.mem userTier object_prototype_members) eqn:Hown.
  - (* an inherited member *)
    apply mem_elem_of in Hown.
    assert (Hcase : evaluatePolicy userTier policies = None
                    \/ policies = [] /\ evaluatePolicy userTier policies
                         = Some {| allowed := true; violations := [] |}).
    { unfold object_prototype_members in Hown.
      repeat (apply elem_of_cons in Hown as [->|Hown];
              [destruct policies; [right; split; reflexivity | left; reflexivity]|]).
      by apply elem_of_nil in Hown. }
    destruct Hcase as [-> | [Hnil ->]]; [reflexivity|].
    cbn [negb allowed]. unfold bind.
    pose proof (createPlan_requested backendDir
                  {| mode := body_mode body; packages := body_packages body |} w) as Hreq.
    pose proof (createPlan_persisted backendDir
                  {| mode := body_mode body; packages := body_packages body |} w) as Hstore.
    pose proof (TxExtra.createPlan_plan backendDir
                  {| mode := body_mode body; packages := body_packages body |} w) as Hplan.
    destruct (createPlan backendDir _ w) as [tx w1]. cbn [fst snd ret] in *.
    split_and!; [by rewrite Hnil; intros p Hp; apply elem_of_nil in Hp|exact Hreq|apply Hplan|].
    rewrite Hstore. apply slice_last_snoc. unfold MAX_TX. lia.
  - rewrite (evaluatePolicy_effective userTier policies Hown). cbv zeta.
    cbn [allowed violations].
    set (vs := filter (fun p => negb (Js.mem p (effective userTier))) policies).
    destruct (bool_decide (length vs = 0)) eqn:Hall; cbn [negb].
    + unfold bind.
      pose proof (createPlan_requested backendDir
                    {| mode := body_mode body; packages := body_packages body |} w) as Hreq.
      pose proof (createPlan_persisted backendDir
                    {| mode := body_mode body; packages := body_packages body |} w) as Hstore.
      pose proof (TxExtra.createPlan_plan backendDir
                    {| mode := body_mode body; packages := body_packages body |} w) as Hplan.
      destruct (createPlan backendDir _ w) as [tx w1]. cbn [fst snd ret] in *.
      split_and!; [|exact Hreq|apply Hplan|].
      * intros p Hp. apply bool_decide_eq_true_1 in Hall.
        apply length_zero_iff_nil in Hall.
        assert (Hno : ~ negb (Js.mem p (effective userTier))).
        { eapply (proj1 (filter_nil_iff _ policies) Hall). exact Hp. }
        destruct (Js.mem p (effective userTier)) eqn:E; [|by destruct Hno].
        apply TxProps.mem_elem_of in E. unfold effective in E.
        destruct (tier_rank userTier) as [[|[|[|r]]]|];
          repeat (apply elem_of_cons in E as [->|E]; [solve_elem|]);
          by apply elem_of_nil in E.
      * rewrite Hstore. apply slice_last_snoc. unfold MAX_TX. lia.
    + cbn [fst snd ret]. split_and!; [reflexivity| |apply sublist_filter].
      apply bool_decide_eq_false_1 in Hall. intros Hnil. by rewrite Hnil in Hall.
Qed.

End Gate.

End PolicyExtra.

(** ** More of the install session: chunks, cancelling and counters *)

Module OrchMore.
Import Orchestrator OrchProps OrchRun.

(** *** Counters *)

Lemma filter_length_le {A} (P : A -> Prop) `{!forall x, Decision (P x)} (l : list A) :
  length (filter P l) <= length l.
Proof. apply sublist_length, sublist_filter. Qed.

(** *** The queueing loop without the session *)

(** The chunks that the loop hands over: what [submit_loop] does to its
    list of sent chunks, with the session left out.  [stop k] is the cancel
    flag before chunk [k]. *)
Fixpoint queue (stop : nat -> bool) (chunkSize : nat) (rows : list Row)
    (fuel i : nat) : list (list Row) :=
  match fuel with
  | O => []
  | S fuel' =>
      if negb (i <? length rows)%nat then []
      else if stop (i / chunkSize + 1)%nat then []
      else slice i (i + chunkSize) rows :: queue stop chunkSize rows fuel' (i + chunkSize)
  end.

Lemma submit_loop_queue (env : Surroundings) (cs : nat) (rows : list Row)
    (fuel i : nat) (st : InstallSessionState) (sent : list (list Row)) :
  snd (submit_loop env cs rows fuel i st sent)
  = sent ++ queue (canceled env) cs rows fuel i.
Proof.
  revert i st sent. induction fuel as [|fuel IH]; intros i st sent; cbn [submit_loop queue].
  - by rewrite app_nil_r.
  - destruct (negb (i <? length rows)%nat); [by rewrite app_nil_r|].
    destruct (canceled env (i / cs + 1)); [by rewrite app_nil_r|].
    rewrite IH, <- app_assoc. done.
Qed.

Lemma queue_prefix (stop : nat -> bool) (cs : nat) (rows : list Row) (fuel i : nat) :
  queue stop cs rows fuel i `prefix_of` queue (fun _ => false) cs rows fuel i.
Proof.
  revert i. induction fuel as [|fuel IH]; intros i; cbn [queue]; [done|].
  destruct (negb (i <? length rows)%nat); [done|].
  destruct (stop (i / cs + 1)); [apply prefix_nil|].
  apply prefix_cons, IH.
Qed.

Lemma queue_never_stopped (stop : nat -> bool) (cs : nat) (rows : list Row) (fuel i : nat) :
  (forall k, stop k = false) ->
  queue stop cs rows fuel i = queue (fun _ => false) cs rows fuel i.
Proof.
  intros Hgo. revert i. induction fuel as [|fuel IH]; intros i; cbn [queue]; [done|].
  destruct (negb (i <? length rows)%nat); [done|]. by rewrite Hgo, IH.
Qed.

Lemma queue_stopped (stop : nat -> bool) (cs : nat) (rows : list Row) (fuel i : nat) :
  0 < cs -> stop (i / cs + 1) = true -> queue stop cs rows fuel i = [].
Proof.
  intros Hcs Hstop. destruct fuel; cbn [queue]; [done|].
  destruct (negb (i <? length rows)%nat); [done|]. by rewrite Hstop.
Qed.

Lemma slice_length {A} (i cs : nat) (l : list A) :
  length (slice i (i + cs) l) = min cs (length l - i).
Proof.
  unfold slice. rewrite length_take, length_drop. lia.
Qed.

Lemma queue_sizes (stop : nat -> bool) (cs : nat) (rows : list Row) (fuel i : nat) :
  0 < cs ->
  Forall (fun chunk => 0 < length chunk <= cs) (queue stop cs rows fuel i).
Proof.
  intros Hcs. revert i. induction fuel as [|fuel IH]; intros i; cbn [queue]; [done|].
  destruct (i <? length rows)%nat eqn:Hi; cbn [negb]; [|done].
  apply Nat.ltb_lt in Hi.
  destruct (stop (i / cs + 1)); [done|].
  constructor; [|apply IH]. rewrite slice_length. lia.
Qed.

Lemma queue_concat (cs : nat) (rows : list Row) (fuel i : nat) :
  0 < cs -> length rows - i <= fuel * cs ->
  concat (queue (fun _ => false) cs rows fuel i) = drop i rows.
Proof.
  intros Hcs. revert i. induction fuel as [|fuel IH]; intros i Hfuel; cbn [queue].
  - by rewrite drop_ge by lia.
  - destruct (i <? length rows)%nat eqn:Hi; cbn [negb].
    + apply Nat.ltb_lt in Hi. cbn [concat]. rewrite IH by lia.
      unfold slice. replace (i + cs - i) with cs by lia.
      rewrite <- drop_drop. apply take_drop.
    + apply Nat.ltb_ge in Hi. by rewrite drop_ge by lia.
Qed.

(** [Math.ceil(n / chunkSize)] as the code's model computes it. *)
Definition ceil_div (n cs : nat) : nat := (n + cs - 1) / cs.

Lemma ceil_div_step (n cs : nat) :
  0 < cs -> 0 < n -> ceil_div n cs = S (ceil_div (n - cs) cs).
Proof.
  intros Hcs Hn. unfold ceil_div.
  destruct (decide (cs <= n)) as [Hle|Hgt].
  - replace (n + cs - 1) with ((n - cs + cs - 1) + 1 * cs) by lia.
    rewrite Nat.div_add by lia. lia.
  - replace (n - cs) with 0 by lia. simpl.
    rewrite (Nat.div_small (cs - 1) cs) by lia.
    replace (n + cs - 1) with ((n - 1) + 1 * cs) by lia.
    rewrite Nat.div_add by lia. rewrite Nat.div_small by lia. done.
Qed.

Lemma queue_length (cs : nat) (rows : list Row) (fuel i : nat) :
  0 < cs -> length rows - i <= fuel * cs ->
  length (queue (fun _ => false) cs rows fuel i) = ceil_div (length rows - i) cs.
Proof.
  intros Hcs. revert i. induction fuel as [|fuel IH]; intros i Hfuel; cbn [queue].
  - replace (length rows - i) with 0 by lia. unfold ceil_div. simpl.
    by rewrite Nat.div_small by lia.
  - destruct (i <? length rows)%nat eqn:Hi; cbn [negb].
    + apply Nat.ltb_lt in Hi. cbn [length]. rewrite IH by lia.
      rewrite (ceil_div_step (length rows - i) cs) by lia. do 2 f_equal. lia.
    + apply Nat.ltb_ge in Hi. replace (length rows - i) with 0 by lia.
      unfold ceil_div. simpl. by rewrite Nat.div_small by lia.
Qed.

(** *** The session along the loop *)

Lemma updateInstallItems_chunks keys stt note st :
  currentChunk (updateInstallItems keys stt note st) = currentChunk st
  /\ totalChunks (updateInstallItems keys stt note st) = totalChunks st
  /\ running (updateInstallItems keys stt note st) = running st
  /\ total (updateInstallItems keys stt note st) = total st.
Proof. done. Qed.

Lemma submit_loop_currentChunk (env : Surroundings) (cs : nat) (rows : list Row)
    (fuel i : nat) (st : InstallSessionState) (sent : list (list Row)) :
  0 < cs -> i = length sent * cs ->
  let out := submit_loop env cs rows fuel i st sent in
  currentChunk (fst out)
  = (if decide (length (snd out) = length sent) then currentChunk st
     else length (snd out))
  /\ totalChunks (fst out) = totalChunks st.
Proof.
  intros Hcs. revert i st sent.
  induction fuel as [|fuel IH]; intros i st sent Hi; cbn [submit_loop].
  - cbn. by rewrite decide_True.
  - destruct (negb (i <? length rows)%nat); [cbn; by rewrite decide_True|].
    destruct (canceled env (i / cs + 1)); [cbn; by rewrite decide_True|].
    match goal with
    | |- context [submit_loop env cs rows fuel (i + cs) ?st' ?sent'] =>
        assert (Hcur : currentChunk st' = length sent');
        [|assert (Htot : totalChunks st' = totalChunks st);
          [|assert (Hnext : i + cs = length sent' * cs);
            [|pose proof (IH (i + cs) st' sent' Hnext) as IHs;
              pose proof (submit_loop_queue env cs rows fuel (i + cs) st' sent') as Hq;
              destruct (submit_loop env cs rows fuel (i + cs) st' sent') as [stf sentf]]]]
    end.
    + rewrite length_app. simpl.
      destruct (batch_error env (i / cs + 1));
        cbn [currentChunk updateInstallItems set_currentChunk];
        subst i; (rewrite Nat.div_mul by lia); done.
    + by destruct (batch_error env (i / cs + 1)).
    + rewrite length_app. simpl. lia.
    + cbv zeta in IHs |- *. cbn [fst snd] in *. destruct IHs as [H1 H2].
      split; [|by rewrite H2].
      rewrite H1. subst sentf. rewrite !length_app in *. cbn [length] in *.
      repeat destruct (decide _); try lia; done.
Qed.

(** No item waits in status [queued]. *)
Definition none_queued (st : InstallSessionState) : Prop :=
  forall it, it ∈ items st -> status it <> queued.

(** The items whose keys were handed over are done or failed. *)
Definition handed_over (sent : list (list Row)) (st : InstallSessionState) : Prop :=
  forall it chunk r, it ∈ items st -> chunk ∈ sent -> r ∈ chunk ->
    item_key it = key r -> status it = done \/ status it = failed.

Lemma update_twice_items keys note1 stt note2 st it :
  stt <> queued ->
  it ∈ items (updateInstallItems keys stt note2 (updateInstallItems keys queued note1 st)) ->
  (item_key it ∈ keys /\ status it = stt)
  \/ ((item_key it ∉ keys) /\ it ∈ items st).
Proof.
  intros Hstt. unfold updateInstallItems. cbn [items].
  rewrite <- list_fmap_compose. intros Hin.
  apply list_elem_of_fmap in Hin as (old & -> & Hold). cbn.
  destruct (Js.mem (item_key old) keys) eqn:E; cbn [item_key]; rewrite E.
  - left. split; [by apply mem_true|done].
  - right. split; [by apply TxProps.mem_false|done].
Qed.

Lemma submit_loop_statuses (env : Surroundings) (cs : nat) (rows : list Row)
    (fuel i : nat) (st : InstallSessionState) (sent : list (list Row)) :
  none_queued st -> handed_over sent st ->
  none_queued (fst (submit_loop env cs rows fuel i st sent))
  /\ handed_over (snd (submit_loop env cs rows fuel i st sent))
       (fst (submit_loop env cs rows fuel i st sent)).
Proof.
  revert i st sent.
  induction fuel as [|fuel IH]; intros i st sent Hnq Hho; cbn [submit_loop]; [done|].
  destruct (negb (i <? length rows)%nat); [done|].
  destruct (canceled env (i / cs + 1)); [done|].
  set (chunk := slice i (i + cs) rows).
  set (idx := i / cs + 1).
  assert (Hstep : forall stt note, (stt = done \/ stt = failed) ->
    let st3 := updateInstallItems (key <$> chunk) stt note
                 (updateInstallItems (key <$> chunk) queued
                    (Some ("queued in chunk " +:+ Js.show_nat idx))
                    (set_currentChunk idx st)) in
    none_queued st3 /\ handed_over (sent ++ [chunk]) st3).
  { intros stt note Hstt st3. subst st3. split.
    - intros it Hit.
      apply update_twice_items in Hit as [[_ ->]|[_ Hit]];
        [destruct Hstt as [-> | ->]; done | by apply Hnq | destruct Hstt as [-> | ->]; done].
    - intros it c r Hit Hc Hr Hk.
      apply update_twice_items in Hit as [[_ ->]|[Hout Hit]];
        [done | | destruct Hstt as [-> | ->]; done].
      apply elem_of_app in Hc as [Hc|Hc].
      + by eapply (Hho it c r).
      + apply list_elem_of_singleton in Hc as ->. destruct Hout.
        rewrite Hk. by apply list_elem_of_fmap_2. }
  destruct (batch_error env idx) as [message|].
  - destruct (Hstep failed (Some (if Js.is_empty message then "chunk failed" else message))
                (or_intror eq_refl)) as [H1 H2].
    by apply IH.
  - destruct (Hstep done (Some ("queued successfully in chunk " +:+ Js.show_nat idx))
                (or_introl eq_refl)) as [H1 H2].
    by apply IH.
Qed.

(** *** The run as a whole *)

(** The rows that reach the queueing loop: [None] when the run returns
    before it. *)
Definition rows_to_queue (env : Surroundings) (s0 : InstallSessionState)
    (rows : list Row) : option (list Row) :=
  if running s0 then None
  else if bool_decide (candidateRows s0 rows = []) then None
  else if negb (preflight_http env) then None
  else
    match Auditor.POST (server env) (Some "install") (payload s0 rows) with
    | inl _ => None
    | inr report =>
        let installableRows :=
          filter (fun row => Js.mem (key row) (incompatibleKeys report) = false)
            (candidateRows s0 rows) in
        if bool_decide (installableRows = []) then None
        else if negb (compat_set_ok env) then None
        else if negb (snapshot_ok env) then None
        else Some installableRows
    end.

Definition chunk_size (rows : list Row) : nat :=
  if bool_decide (200 < length rows) then 20 else 40.

Lemma rows_to_queue_nonempty (env : Surroundings) (s0 : InstallSessionState)
    (rows installableRows : list Row) :
  rows_to_queue env s0 rows = Some installableRows -> installableRows <> [].
Proof.
  unfold rows_to_queue. destruct (running s0); [done|].
  destruct (bool_decide (candidateRows s0 rows = [])); [done|].
  destruct (negb (preflight_http env)); [done|].
  destruct (Auditor.POST _ _ _) as [|report]; [done|]. cbv zeta.
  case_bool_decide as Hne; [done|].
  destruct (negb (compat_set_ok env)); [done|].
  destruct (negb (snapshot_ok env)); [done|].
  by intros [= <-].
Qed.

Lemma chunk_size_pos rows : 0 < chunk_size rows.
Proof. unfold chunk_size. case_bool_decide; lia. Qed.

(** The session right before the loop. *)
Definition session_before_loop (env : Surroundings) (s0 : InstallSessionState)
    (rows : list Row) (installableRows : list Row) : InstallSessionState :=
  let s1 := start_run (length (candidateRows s0 rows)) s0 in
  let s2 :=
    match Auditor.POST (server env) (Some "install") (payload s0 rows) with
    | inr report =>
        if bool_decide (0 < length (incompatibleKeys report))
        then updateInstallItems (incompatibleKeys report) skipped (Some skip_reason) s1
        else s1
    | inl _ => s1
    end in
  set_totalChunks (ceil_div (length installableRows) (chunk_size installableRows)) s2.

Lemma length_zero_nil {A} (l : list A) :
  bool_decide (length l = 0) = bool_decide (l = []).
Proof. apply bool_decide_ext. by destruct l. Qed.

Lemma run_loop (env : Surroundings) (s0 : InstallSessionState) (rows : list Row) :
  match rows_to_queue env s0 rows with
  | None => submitted (executeInstallSession env (Some s0) rows) = []
  | Some installableRows =>
      let out := submit_loop env (chunk_size installableRows) installableRows
                   (length installableRows) 0
                   (session_before_loop env s0 rows installableRows) [] in
      executeInstallSession env (Some s0) rows
      = {| session := Some (set_running false (fst out)); submitted := snd out |}
  end.
Proof.
  unfold rows_to_queue, executeInstallSession, session_before_loop.
  fold (selectedKeys s0). fold (candidateRows s0 rows). fold (payload s0 rows).
  destruct (running s0); [done|].
  rewrite length_zero_nil.
  destruct (bool_decide (candidateRows s0 rows = [])); [done|].
  destruct (preflight_http env); cbn [negb]; [|done].
  destruct (Auditor.POST (server env) (Some "install") (payload s0 rows))
    as [|report]; [done|].
  rewrite length_zero_nil.
  set (installableRows := filter _ (candidateRows s0 rows)).
  destruct (bool_decide (installableRows = [])); [done|].
  destruct (compat_set_ok env); cbn [negb]; [|done].
  destruct (snapshot_ok env); cbn [negb]; [|done].
  cbv zeta. fold (chunk_size installableRows).
  fold (ceil_div (length installableRows) (chunk_size installableRows)).
  by destruct (submit_loop _ _ _ _ _ _ _).
Qed.

Lemma submitted_queue (env : Surroundings) (s0 : InstallSessionState) (rows : list Row) :
  submitted (executeInstallSession env (Some s0) rows)
  = match rows_to_queue env s0 rows with
    | None => []
    | Some installableRows =>
        queue (canceled env) (chunk_size installableRows) installableRows
          (length installableRows) 0
    end.
Proof.
  pose proof (run_loop env s0 rows) as H.
  destruct (rows_to_queue env s0 rows) as [installableRows|]; [|done].
  cbv zeta in H. rewrite H. cbn [submitted]. by rewrite submit_loop_queue.
Qed.

Lemma enough_fuel (rows : list Row) :
  length rows - 0 <= length rows * chunk_size rows.
Proof. pose proof (chunk_size_pos rows). nia. Qed.

End OrchMore.

(** ** Further statements about the install session *)

Module OrchExtra.
Import Orchestrator OrchProps OrchRun OrchMore.

(** X14.  The counters that [updateInstallItems] recomputes.  The items keep
    their number, their keys and their order; the items outside the given
    keys are untouched; [completed] counts the items that are done, failed
    or skipped, and [completed + remaining] is the number of items, so the
    [Math.max(0, ...)] of the source never clamps. *)
Theorem updateInstallItems_counters (keys : list string) (stt : InstallItemStatus)
    (note : option string) (prev : InstallSessionState) :
  let next := updateInstallItems keys stt note prev in
  item_key <$> items next = item_key <$> items prev
  /\ length (items next) = length (items prev)
  /\ completed next = length (filter (fun it => is_settled (status it) = true) (items next))
  /\ completed next + remaining next = length (items next)
  /\ (forall i it, items prev !! i = Some it -> item_key it ∉ keys ->
        items next !! i = Some it)
  /\ (forall i it, items next !! i = Some it -> item_key it ∈ keys ->
        status it = stt /\ details it = note).
Proof.
  intros next. subst next. split_and!.
  - apply updated_keys.
  - unfold updateInstallItems. cbn [items]. by rewrite length_fmap.
  - reflexivity.
  - unfold updateInstallItems. cbn [items completed remaining].
    match goal with |- ?c + (?n - ?c) = ?n => assert (c <= n) by apply filter_length_le end.
    lia.
  - intros i it Hi Hout. unfold updateInstallItems. cbn [items].
    rewrite list_lookup_fmap, Hi. cbn. apply TxProps.mem_false in Hout. by rewrite Hout.
  - intros i it Hi Hin. eapply updated_items; [|exact Hin].
    by eapply list_elem_of_lookup_2.
Qed.

(** X15.  What the queueing loop hands over when nobody cancels.  The chunks,
    concatenated, are the installable rows in their order; every chunk is
    non-empty and holds at most [chunkSize] rows, which is 20 for more than
    200 rows and 40 otherwise; their number is ceil(n / chunkSize), the
    [totalChunks] that the session shows, and [currentChunk] ends at that
    number. *)
Theorem chunks_cover_installable (env : Surroundings) (s0 : InstallSessionState)
    (rows installableRows : list Row) :
  rows_to_queue env s0 rows = Some installableRows ->
  (forall k, canceled env k = false) ->
  let run := executeInstallSession env (Some s0) rows in
  let chunkSize := if bool_decide (200 < length installableRows) then 20 else 40 in
  concat (submitted run) = installableRows
  /\ Forall (fun chunk => 0 < length chunk <= chunkSize) (submitted run)
  /\ length (submitted run) = (length installableRows + chunkSize - 1) / chunkSize
  /\ exists st, session run = Some st
       /\ running st = false
       /\ totalChunks st = length (submitted run)
       /\ currentChunk st = length (submitted run).
Proof.
  intros Hrows Hgo run chunkSize. subst run.
  fold (chunk_size installableRows) in chunkSize. subst chunkSize.
  pose proof (chunk_size_pos installableRows) as Hcs.
  pose proof (queue_never_stopped (canceled env) (chunk_size installableRows)
                installableRows (length installableRows) 0 Hgo) as Hstop.
  assert (Hlen : length (queue (fun _ => false) (chunk_size installableRows)
                           installableRows (length installableRows) 0)
                 = ceil_div (length installableRows) (chunk_size installableRows)).
  { rewrite queue_length by (done || apply enough_fuel). f_equal. lia. }
  rewrite submitted_queue, Hrows, Hstop. split_and!.
  - rewrite queue_concat by (done || apply enough_fuel). done.
  - by apply queue_sizes.
  - exact Hlen.
  - pose proof (run_loop env s0 rows) as Hrun. rewrite Hrows in Hrun. cbv zeta in Hrun.
    rewrite Hrun. cbn [session]. eexists. split; [reflexivity|].
    destruct (submit_loop_currentChunk env (chunk_size installableRows) installableRows
                (length installableRows) 0
                (session_before_loop env s0 rows installableRows) [] Hcs eq_refl)
      as [Hcur Htot].
    rewrite submit_loop_queue, Hstop in Hcur. cbn [app length] in Hcur.
    pose proof (rows_to_queue_nonempty env s0 rows installableRows Hrows) as Hne.
    assert (Hpos : 0 < ceil_div (length installableRows) (chunk_size installableRows)).
    { rewrite (ceil_div_step _ _ Hcs); [lia|]. destruct installableRows; [done|simpl; lia]. }
    rewrite decide_False in Hcur by lia.
    cbn [running totalChunks currentChunk set_running].
    split_and!; [done| |done].
    rewrite Htot, Hlen. reflexivity.
Qed.

(** A catalog of [n] plain packs, and a session that selects all of them. *)
Definition many_rows (n : nat) : list Row :=
  (fun i => {| key := "pack-" +:+ Js.show_nat i;
               row_title := "Pack " +:+ Js.show_nat i;
               action := "not-installed";
               item := plain ("Pack " +:+ Js.show_nat i) "pure python" |})
  <$> seq 0 n.

Definition session_of (rows : list Row) : InstallSessionState :=
  {| running := false; total := length rows; completed := 0; remaining := length rows;
     currentChunk := 0; totalChunks := 0;
     items := (fun row => {| item_key := key row; title := row_title row;
                             selected := true; status := pending; details := None |})
              <$> rows |}.

(** Scenario E5: 450 installable packs go out in 23 chunks of at most 20. *)
Lemma chunks_cover_installable_e5 :
  let run := executeInstallSession demo_env (Some (session_of (many_rows 450)))
               (many_rows 450) in
  let chunkSize := if bool_decide (200 < length (many_rows 450)) then 20 else 40 in
  concat (submitted run) = many_rows 450
  /\ Forall (fun chunk => 0 < length chunk <= chunkSize) (submitted run)
  /\ length (submitted run) = (length (many_rows 450) + chunkSize - 1) / chunkSize
  /\ exists st, session run = Some st
       /\ running st = false
       /\ totalChunks st = length (submitted run)
       /\ currentChunk st = length (submitted run).
Proof.
  apply (chunks_cover_installable demo_env (session_of (many_rows 450)) (many_rows 450)
           (many_rows 450)).
  - vm_compute. reflexivity.
  - reflexivity.
Defined.

(** X16.  Cancelling only cuts the sequence of chunks short, and a failing
    chunk does not change what is handed over next.  Between two runs of
    the same session that differ at most in the cancel flag and in the
    errors of the batch requests, the chunks of the run that is cancelled
    are a prefix of the chunks of the run that is never cancelled; without
    a cancel they are the same chunks; and a cancel before the first chunk
    hands over nothing. *)
Theorem cancel_cuts_short (env env' : Surroundings) (s0 : InstallSessionState)
    (rows : list Row) :
  server env' = server env -> preflight_http env' = preflight_http env ->
  compat_set_ok env' = compat_set_ok env -> snapshot_ok env' = snapshot_ok env ->
  (forall k, canceled env' k = false) ->
  let sent := submitted (executeInstallSession env (Some s0) rows) in
  let sent' := submitted (executeInstallSession env' (Some s0) rows) in
  sent `prefix_of` sent'
  /\ ((forall k, canceled env k = false) -> sent = sent')
  /\ (canceled env 1 = true -> sent = []).
Proof.
  intros Hsrv Hhttp Hcompat Hsnap Hgo sent sent'. subst sent sent'.
  rewrite !submitted_queue.
  assert (Hsame : rows_to_queue env' s0 rows = rows_to_queue env s0 rows).
  { unfold rows_to_queue. by rewrite Hsrv, Hhttp, Hcompat, Hsnap. }
  rewrite Hsame. destruct (rows_to_queue env s0 rows) as [installableRows|].
  2:{ split_and!; done. }
  rewrite (queue_never_stopped (canceled env') _ _ _ _ Hgo).
  split_and!.
  - apply queue_prefix.
  - intros Hgo0. by apply queue_never_stopped.
  - intros Hstop. apply queue_stopped; [apply chunk_size_pos|].
    by rewrite Nat.Div0.div_0_l.
Qed.

(** The session of scenario E4, cancelled before the second chunk and with
    a failing first chunk, against the undisturbed run. *)
Lemma cancel_cuts_short_demo :
  let env := {| server := server demo_env; preflight_http := true;
                compat_set_ok := true; snapshot_ok := true;
                canceled := fun k => bool_decide (2 <= k);
                batch_error := fun _ => Some "network down" |} in
  let sent := submitted (executeInstallSession env (Some demo_session) demo_rows) in
  let sent' := submitted (executeInstallSession demo_env (Some demo_session) demo_rows) in
  sent `prefix_of` sent'
  /\ ((forall k, canceled env k = false) -> sent = sent')
  /\ (canceled env 1 = true -> sent = []).
Proof.
  apply (cancel_cuts_short _ demo_env demo_session demo_rows); reflexivity.
Defined.

Lemma start_run_items n st : items (start_run n st) = items st.
Proof. done. Qed.

Lemma skipped_none_queued bad note st :
  none_queued st -> none_queued (updateInstallItems bad skipped note st).
Proof.
  intros Hnq it Hit. unfold updateInstallItems in Hit. cbn [items] in Hit.
  apply list_elem_of_fmap in Hit as (old & -> & Hold).
  destruct (Js.mem (item_key old) bad); [done | by apply Hnq].
Qed.

(** X17.  No item is left waiting.  If no item of the session is in status
    queued when the run starts, none is when it ends, whatever fails or is
    cancelled on the way; and every item whose key was handed over in a
    chunk ends as done or failed. *)
Theorem queued_items_settle (env : Surroundings) (s0 : InstallSessionState)
    (rows : list Row) :
  (forall it, it ∈ items s0 -> status it <> queued) ->
  exists st,
    session (executeInstallSession env (Some s0) rows) = Some st
    /\ (forall it, it ∈ items st -> status it <> queued)
    /\ (forall chunk r it,
          chunk ∈ submitted (executeInstallSession env (Some s0) rows) ->
          r ∈ chunk -> it ∈ items st -> item_key it = key r ->
          status it = done \/ status it = failed).
Proof.
  intros Hnq.
  pose proof (run_loop env s0 rows) as Hrun.
  destruct (rows_to_queue env s0 rows) as [installableRows|] eqn:Hrows.
  - cbv zeta in Hrun. rewrite Hrun. cbn [session submitted].
    eexists. split; [reflexivity|].
    assert (Hbefore : none_queued (session_before_loop env s0 rows installableRows)).
    { unfold session_before_loop.
      destruct (Auditor.POST _ _ _) as [|report]; [exact Hnq|].
      case_bool_decide; [|exact Hnq]. by apply skipped_none_queued. }
    destruct (submit_loop_statuses env (chunk_size installableRows) installableRows
                (length installableRows) 0 _ [] Hbefore) as [H1 H2].
    { intros it chunk r _ Hc. by apply elem_of_nil in Hc. }
    split; [exact H1|].
    intros chunk r it Hc Hr Hit Hk. by eapply (H2 it chunk r).
  - rewrite Hrun.
    assert (Hst : exists st, session (executeInstallSession env (Some s0) rows) = Some st
                             /\ none_queued st).
    { clear Hrun Hrows. unfold executeInstallSession.
      destruct (running s0); [by eexists|].
      case_bool_decide; [by eexists|].
      destruct (negb (preflight_http env)); [by eexists|].
      destruct (Auditor.POST _ _ _) as [|report]; [by eexists|]. cbv zeta.
      set (s2 := if bool_decide (0 < length (incompatibleKeys report)) then _ else _).
      assert (Hs2 : none_queued s2).
      { subst s2. case_bool_decide; [by apply skipped_none_queued | exact Hnq]. }
      case_bool_decide; [by eexists|].
      destruct (negb (compat_set_ok env)); [by eexists|].
      destruct (negb (snapshot_ok env)); [by eexists|].
      match goal with
      | |- context [submit_loop env ?cs ?rs ?fuel 0 ?st0 []] =>
          destruct (submit_loop_statuses env cs rs fuel 0 st0 [] Hs2) as [H1 _];
          [intros it chunk r _ Hc; by apply elem_of_nil in Hc|];
          destruct (submit_loop env cs rs fuel 0 st0 []) as [s4 sent]
      end.
      eexists. split; [reflexivity|]. exact H1. }
    destruct Hst as (st & Hsession & Hst). exists st. split; [exact Hsession|].
    split; [exact Hst|]. intros chunk r it Hc. by apply elem_of_nil in Hc.
Qed.

(** The session of scenario E4 when the batch request fails. *)
Lemma queued_items_settle_demo :
  let env := {| server := server demo_env; preflight_http := true;
                compat_set_ok := true; snapshot_ok := true;
                canceled := fun _ => false;
                batch_error := fun _ => Some "network down" |} in
  exists st,
    session (executeInstallSession env (Some demo_session) demo_rows) = Some st
    /\ (forall it, it ∈ items st -> status it <> queued)
    /\ (forall chunk r it,
          chunk ∈ submitted (executeInstallSession env (Some demo_session) demo_rows) ->
          r ∈ chunk -> it ∈ items st -> item_key it = key r ->
          status it = done \/ status it = failed).
Proof.
  apply (queued_items_settle _ demo_session demo_rows).
  intros it Hit. vm_compute in Hit.
  repeat (apply elem_of_cons in Hit as [->|Hit]; [discriminate|]).
  by apply elem_of_nil in Hit.
Defined.

(** X18.  Only what was selected and is not installed yet is handed over.
    Every row in a chunk is a row of the catalog view whose key belongs to
    a selected item of the session and whose action is none of enabled,
    disabled, updatable, try-update, uninstall, import-fail and
    invalid-installation; without a session, or while the session is
    already running, nothing is handed over and the session stays as it
    is. *)
Theorem only_selected_candidates_queued (env : Surroundings)
    (installSession : option InstallSessionState) (rows : list Row) :
  let run := executeInstallSession env installSession rows in
  (forall chunk r, chunk ∈ submitted run -> r ∈ chunk ->
     r ∈ rows
     /\ (exists s0 it, installSession = Some s0 /\ it ∈ items s0
                       /\ selected it = true /\ item_key it = key r)
     /\ action r ∉ ["enabled"; "disabled"; "updatable"; "try-update"; "uninstall";
                    "import-fail"; "invalid-installation"])
  /\ (match installSession with
      | None => True
      | Some s0 => running s0 = true
      end -> session run = installSession /\ submitted run = []).
Proof.
  intros run. subst run. split.
  - intros chunk r Hc Hr. destruct installSession as [s0|].
    2:{ by apply elem_of_nil in Hc. }
    destruct (running s0) eqn:Hrun.
    { rewrite run_stops_early in Hc by auto. by apply elem_of_nil in Hc. }
    destruct (decide (candidateRows s0 rows = [])) as [Hnil|Hcand].
    { rewrite run_stops_early in Hc by auto. by apply elem_of_nil in Hc. }
    destruct (preflight_http env) eqn:Hhttp.
    2:{ rewrite run_stops_early in Hc by auto. by apply elem_of_nil in Hc. }
    destruct (run_past_preflight env s0 rows Hrun Hcand Hhttp)
      as (report & st & _ & _ & _ & Hsent).
    destruct (Hsent chunk r Hc Hr) as [Hin _].
    apply candidate_row in Hin as (Hrow & Hsel & Hact).
    split; [exact Hrow|]. split.
    + apply mem_true in Hsel. unfold selectedKeys in Hsel.
      apply list_elem_of_fmap in Hsel as (it & Hk & Hit).
      apply list_elem_of_filter in Hit as [Hs Hit]. by exists s0, it.
    + by apply TxProps.mem_false.
  - destruct installSession as [s0|]; [|done]. intros Hrun.
    unfold executeInstallSession. by rewrite Hrun.
Qed.

End OrchExtra.

(** ** More of the compatibility preflight and the catalog audit *)

Module AuditorMore.
Import Auditor AuditorProps.

(** Every decision is counted once. *)
Lemma decisions_partition (rows : list PackDecision) :
  length rows
  = length (filter (fun row => has_decision installable row = true) rows)
    + length (filter (fun row => has_decision warning row = true) rows)
    + length (filter (fun row => has_decision blocked row = true) rows).
Proof.
  induction rows as [|row rows IH]; [done|].
  rewrite !filter_cons. repeat case_decide; unfold has_decision in *;
    destruct (decision row); simpl in *; try done; lia.
Qed.

Lemma not_installable_count (rows : list PackDecision) :
  length (filter (fun row => has_decision installable row = false) rows)
  = length (filter (fun row => has_decision warning row = true) rows)
    + length (filter (fun row => has_decision blocked row = true) rows).
Proof.
  induction rows as [|row rows IH]; [done|].
  rewrite !filter_cons. repeat case_decide; unfold has_decision in *;
    destruct (decision row); simpl in *; try done; lia.
Qed.

Lemma fold_set_add_elem_of (l acc : list string) (x : string) :
  x ∈ fold_left Js.set_add l acc <-> x ∈ acc \/ x ∈ l.
Proof.
  revert acc. induction l as [|v l IH]; intros acc; simpl.
  - rewrite elem_of_nil. tauto.
  - rewrite IH, TxProps.set_add_elem_of, elem_of_cons. split.
    + intros [[?| ->]|?]; eauto.
    + intros [?|[->|?]]; eauto.
Qed.

Lemma fold_set_add_NoDup (l acc : list string) :
  NoDup acc -> NoDup (fold_left Js.set_add l acc).
Proof.
  revert acc. induction l as [|v l IH]; intros acc Hnd; simpl; [done|].
  by apply IH, TxProps.set_add_NoDup.
Qed.

(** The hardware flags that the two routes read from the same marker. *)
Lemma flags_agree (marker : option string) :
  let hw := CatalogAudit.parseHardwareProfile (CatalogAudit.readHardwareProfile marker) in
  hasNvidia hw = hasNvidia (readHardwareProfile marker)
  /\ hasRocm hw = hasRocm (readHardwareProfile marker)
  /\ isDarwinArm64 hw = isDarwinArm64 (readHardwareProfile marker).
Proof.
  destruct marker as [raw|]; [|done]. simpl.
  destruct (Js.trim raw) eqn:E; simpl; by rewrite ?E.
Qed.

(** Two verdicts agree: the same decision, as many reasons. *)
Definition alike (ours theirs : Decision * list string) : Prop :=
  fst ours = fst theirs /\ length (snd ours) = length (snd theirs).

Lemma cuda_stage_alike (hw hw' : HardwareProfile) (text : string) ours theirs :
  hasNvidia hw = hasNvidia hw' -> alike ours theirs ->
  alike (CatalogAudit.cuda_stage hw text ours) (cuda_stage hw' text theirs).
Proof.
  intros H [Hd Hr]. unfold CatalogAudit.cuda_stage, cuda_stage. rewrite H.
  destruct (negb (hasNvidia hw') && test_any cudaOnlyMarkers text);
    [split; cbn [fst snd]; [done | by rewrite !length_app, Hr]|].
  destruct (negb (hasNvidia hw') && test_any cudaMarkers text);
    [split; cbn [fst snd]; [done | by rewrite !length_app, Hr]|].
  by split.
Qed.

Lemma rocm_stage_alike (hw hw' : HardwareProfile) (text : string) ours theirs :
  hasRocm hw = hasRocm hw' -> alike ours theirs ->
  alike (CatalogAudit.rocm_stage hw text ours) (rocm_stage hw' text theirs).
Proof.
  intros H [Hd Hr]. unfold CatalogAudit.rocm_stage, rocm_stage. rewrite H.
  destruct (negb (hasRocm hw') && test_any rocmOnlyMarkers text);
    [split; cbn [fst snd]; [done | by rewrite !length_app, Hr]|].
  destruct (negb (hasRocm hw') && test_any rocmMarkers text);
    [split; cbn [fst snd]; [by rewrite Hd | by rewrite !length_app, Hr]|].
  by split.
Qed.

Lemma darwin_stage_alike (hw hw' : HardwareProfile) (text : string) ours theirs :
  isDarwinArm64 hw = isDarwinArm64 hw' -> alike ours theirs ->
  alike (CatalogAudit.darwin_stage hw text ours) (darwin_stage hw' text theirs).
Proof.
  intros H [Hd Hr]. unfold CatalogAudit.darwin_stage, darwin_stage. rewrite H.
  destruct (isDarwinArm64 hw' && test_any darwinMarkers text);
    [split; cbn [fst snd]; [by rewrite Hd | by rewrite !length_app, Hr]|].
  by split.
Qed.

Lemma stages_agree (hw hw' : HardwareProfile) (text : string) :
  hasNvidia hw = hasNvidia hw' -> hasRocm hw = hasRocm hw' ->
  isDarwinArm64 hw = isDarwinArm64 hw' ->
  alike
    (CatalogAudit.darwin_stage hw text
       (CatalogAudit.rocm_stage hw text
          (CatalogAudit.cuda_stage hw text (installable, []))))
    (darwin_stage hw' text (rocm_stage hw' text (cuda_stage hw' text (installable, [])))).
Proof.
  intros H1 H2 H3.
  apply darwin_stage_alike; [done|]. apply rocm_stage_alike; [done|].
  apply cuda_stage_alike; [done|]. by split.
Qed.

(** A verdict with at most [n] reasons, none exactly when it is
    installable. *)
Definition explained (n : nat) (acc : Decision * list string) : Prop :=
  (fst acc = installable <-> snd acc = []) /\ length (snd acc) <= n.

Lemma explained_push (n : nat) (d : Decision) (rs : list string) (r : string) :
  d <> installable -> length rs <= n -> explained (S n) (d, rs ++ [r]).
Proof.
  intros Hd Hn. split; cbn [fst snd].
  - split; [done|]. by destruct rs.
  - rewrite length_app. simpl. lia.
Qed.

Lemma explained_keep (n : nat) acc : explained n acc -> explained (S n) acc.
Proof. intros [H1 H2]. split; [done|lia]. Qed.

Lemma raised (d : Decision) :
  (if bool_decide (d <> blocked) then warning else d) <> installable.
Proof. by destruct d. Qed.

Lemma cuda_stage_explained n hw text acc :
  explained n acc -> explained (S n) (cuda_stage hw text acc).
Proof.
  intros H. pose proof H as [_ Hn]. unfold cuda_stage.
  destruct (negb (hasNvidia hw) && test_any cudaOnlyMarkers text);
    [by apply explained_push|].
  destruct (negb (hasNvidia hw) && test_any cudaMarkers text);
    [by apply explained_push|].
  by apply explained_keep.
Qed.

Lemma rocm_stage_explained n hw text acc :
  explained n acc -> explained (S n) (rocm_stage hw text acc).
Proof.
  intros H. pose proof H as [_ Hn]. unfold rocm_stage.
  destruct (negb (hasRocm hw) && test_any rocmOnlyMarkers text);
    [by apply explained_push|].
  destruct (negb (hasRocm hw) && test_any rocmMarkers text);
    [apply explained_push; [apply raised|done]|].
  by apply explained_keep.
Qed.

Lemma darwin_stage_explained n hw text acc :
  explained n acc -> explained (S n) (darwin_stage hw text acc).
Proof.
  intros H. pose proof H as [_ Hn]. unfold darwin_stage.
  destruct (isDarwinArm64 hw && test_any darwinMarkers text);
    [apply explained_push; [apply raised|done]|].
  by apply explained_keep.
Qed.

Lemma stages_reasons (hw : HardwareProfile) (text : string) :
  let verdict := darwin_stage hw text
                   (rocm_stage hw text (cuda_stage hw text (installable, []))) in
  (fst verdict = installable <-> snd verdict = [])
  /\ length (snd verdict) <= 3
  /\ (hasNvidia hw = true -> hasRocm hw = true -> isDarwinArm64 hw = false ->
      fst verdict = installable).
Proof.
  intros verdict.
  assert (H : explained 3 verdict).
  { apply darwin_stage_explained, rocm_stage_explained, cuda_stage_explained.
    split; [done|]. simpl. lia. }
  destruct H as [H1 H2]. split; [exact H1|]. split; [exact H2|].
  intros Hn Hr Hd. subst verdict. unfold darwin_stage, rocm_stage, cuda_stage.
  by rewrite Hn, Hr, Hd.
Qed.

(** *** File names *)

Lemma all_chars_app p a b :
  Js.all_chars p (a +:+ b) = Js.all_chars p a && Js.all_chars p b.
Proof.
  induction a as [|c a IH]; [done|]. simpl. rewrite IH. by rewrite andb_assoc.
Qed.

Lemma sanitize_safe value : Js.all_chars CatalogAudit.segment_char (CatalogAudit.sanitizeFileSegment value) = true.
Proof.
  induction value as [|c rest IH]; [done|]. simpl. rewrite IH, andb_true_r.
  by destruct (CatalogAudit.segment_char c) eqn:E.
Qed.

Lemma sanitize_fixed value :
  Js.all_chars CatalogAudit.segment_char value = true ->
  CatalogAudit.sanitizeFileSegment value = value.
Proof.
  induction value as [|c rest IH]; [done|]. simpl.
  intros H. apply andb_true_iff in H as [Hc Hrest]. by rewrite Hc, IH.
Qed.

Lemma substring_skip (a b : string) (n : nat) :
  String.substring (String.length a) n (a +:+ b) = String.substring 0 n b.
Proof. induction a as [|c a IH]; [done|]. simpl. exact IH. Qed.

Lemma length_append (a b : string) :
  String.length (a +:+ b) = String.length a + String.length b.
Proof. induction a as [|c a IH]; [done|]. simpl. by rewrite IH. Qed.

Lemma ends_with_json_append (a : string) : CatalogAudit.ends_with_json (a +:+ ".json") = true.
Proof.
  unfold CatalogAudit.ends_with_json. rewrite length_append.
  change (String.length ".json") with 5.
  assert (Hlen : (5 <=? String.length a + 5)%nat = true) by (apply Nat.leb_le; lia).
  rewrite Hlen.
  replace (String.length a + 5 - 5) with (String.length a) by lia.
  rewrite substring_skip. reflexivity.
Qed.

Lemma includes_char_false (c : ascii) (s : string) (p : ascii -> bool) :
  Js.all_chars p s = true -> p c = false ->
  Js.includes (String c EmptyString) s = false.
Proof.
  intros Hall Hc. induction s as [|d s IH]; [done|].
  simpl in Hall. apply andb_true_iff in Hall as [Hd Hs].
  cbn [Js.includes]. rewrite (IH Hs), orb_false_r. simpl.
  destruct (Ascii.eqb_spec c d) as [->|Hne]; [congruence|].
  destruct (ascii_dec c d); [done|]. done.
Qed.

End AuditorMore.

(** ** Further statements about the preflight and the catalog audit *)

Module AuditorExtra.
Import Auditor AuditorProps AuditorMore.

(** X19.  The preflight report adds up.  An empty batch, and only an empty
    batch, is answered with 400.  Otherwise the total is the number of
    items, installable + warning + blocked is the total, the two key lists
    are as long as their counts, the report is compact exactly for more
    than 600 items, a compact report lists the warned and the blocked items
    only, and a full report lists every item. *)
Theorem preflight_summary_adds_up (srv : Server) (mode : option string)
    (items : list CatalogItem) :
  match POST srv mode items with
  | inl _ => items = []
  | inr report =>
      items <> []
      /\ total (summary report) = length items
      /\ n_installable (summary report) + n_warning (summary report)
         + n_blocked (summary report) = total (summary report)
      /\ length (blockedKeys report) = n_blocked (summary report)
      /\ length (warningKeys report) = n_warning (summary report)
      /\ compact report = bool_decide (600 < length items)
      /\ (compact report = true ->
          length (perItem report)
          = n_warning (summary report) + n_blocked (summary report)
          /\ forall row, row ∈ perItem report -> decision row <> installable)
      /\ (compact report = false -> length (perItem report) = length items)
  end.
Proof.
  unfold POST. case_bool_decide as Hlen; [by destruct items|].
  set (hw := readHardwareProfile (marker srv)).
  set (rows := imap (fun i item => assessItem item hw (clock srv i)) items).
  assert (Hrows : length rows = length items) by apply length_imap.
  pose proof (decisions_partition rows) as Hpart.
  cbn [summary total n_installable n_warning n_blocked blockedKeys warningKeys
       compact perItem].
  rewrite !length_fmap.
  split_and!; try done; try lia.
  - by destruct items.
  - intros Hc. rewrite Hc. split; [apply not_installable_count|].
    intros row Hrow. apply list_elem_of_filter in Hrow as [Hno _].
    unfold has_decision in Hno. by apply bool_decide_eq_false_1 in Hno.
  - intros Hc. by rewrite Hc.
Qed.

(** X20.  The reasons explain the decision.  An item is installable exactly
    when no reason is recorded; there are at most three reasons, one per
    rule family; and on a machine with NVIDIA and ROCm hardware that is
    not an ARM64 Mac every item is installable. *)
Theorem reasons_explain_decision (item : CatalogItem) (hw : HardwareProfile)
    (now : string) :
  let row := assessItem item hw now in
  (decision row = installable <-> reasons row = [])
  /\ length (reasons row) <= 3
  /\ (hasNvidia hw = true -> hasRocm hw = true -> isDarwinArm64 hw = false ->
      decision row = installable).
Proof. apply stages_reasons. Qed.

(** X21.  The catalog audit of the compatibility set and the preflight judge
    alike.  Reading the same hardware marker, the two routes derive the
    same three hardware flags, and for every item the same decision and
    the same number of reasons. *)
Theorem catalog_audit_agrees_with_preflight (marker : option string)
    (item : CatalogItem) (now : string) :
  let hw := CatalogAudit.parseHardwareProfile (CatalogAudit.readHardwareProfile marker) in
  let ours := CatalogAudit.audit_row hw item in
  let theirs := assessItem item (readHardwareProfile marker) now in
  hasNvidia hw = hasNvidia (readHardwareProfile marker)
  /\ hasRocm hw = hasRocm (readHardwareProfile marker)
  /\ isDarwinArm64 hw = isDarwinArm64 (readHardwareProfile marker)
  /\ CatalogAudit.decision ours = decision theirs
  /\ length (CatalogAudit.reasons ours) = length (reasons theirs).
Proof.
  intros hw ours theirs. destruct (flags_agree marker) as (H1 & H2 & H3).
  fold hw in H1, H2, H3.
  destruct (stages_agree hw (readHardwareProfile marker) (getTextBlob item) H1 H2 H3)
    as [Hd Hr].
  split_and!; done.
Qed.

(** X22.  The catalog audit counts every kept row once.  Rows without a key
    are dropped; the installable and the incompatible rows together are
    all the rows, each list holding rows of its own kind only. *)
Theorem catalog_audit_counts (marker : option string) (items : list CatalogItem) :
  let result := CatalogAudit.runCatalogAudit marker items in
  CatalogAudit.installableCount result + CatalogAudit.incompatibleCount result
  = CatalogAudit.totalCatalogItems result
  /\ CatalogAudit.totalCatalogItems result <= length items
  /\ CatalogAudit.installableCount result = length (CatalogAudit.installable_packs result)
  /\ CatalogAudit.incompatibleCount result = length (CatalogAudit.incompatible_packs result)
  /\ (forall row, row ∈ CatalogAudit.installable_packs result ->
        CatalogAudit.key row <> "" /\ CatalogAudit.decision row = installable)
  /\ (forall row, row ∈ CatalogAudit.incompatible_packs result ->
        CatalogAudit.key row <> "" /\ CatalogAudit.decision row <> installable).
Proof.
  intros result. subst result. unfold CatalogAudit.runCatalogAudit.
  cbn [CatalogAudit.installableCount CatalogAudit.incompatibleCount
       CatalogAudit.totalCatalogItems CatalogAudit.installable_packs
       CatalogAudit.incompatible_packs].
  set (hw := CatalogAudit.parseHardwareProfile _).
  set (rows := filter _ (CatalogAudit.audit_row hw <$> items)).
  split_and!; try done.
  - clearbody rows. induction rows as [|row rows IH]; [done|].
    rewrite !filter_cons. repeat case_decide; simpl in *; try done; lia.
  - unfold rows. etransitivity; [apply OrchMore.filter_length_le|].
    by rewrite length_fmap.
  - intros row Hrow. apply list_elem_of_filter in Hrow as [Hd Hrow].
    apply list_elem_of_filter in Hrow as [Hk _]. split; [|done].
    by destruct (CatalogAudit.key row).
  - intros row Hrow. apply list_elem_of_filter in Hrow as [Hd Hrow].
    apply list_elem_of_filter in Hrow as [Hk _]. split; [|done].
    by destruct (CatalogAudit.key row).
Qed.

(** X23.  The page and the route name the same incompatible packs.  For a
    report that the preflight route produced, the keys that the page
    stores (warning keys, blocked keys and the keys of the listed
    non-installable entries, de-duplicated, empty keys dropped) are
    exactly the non-empty keys of the entries that are not installable,
    each once, whether the report is compact or not. *)
Theorem page_keys_match_report (srv : Server) (mode : option string)
    (items : list CatalogItem) (report : PreflightReport) :
  POST srv mode items = inr report ->
  NoDup (Client.applyPreflightIncompatibleKeys (Some report))
  /\ forall k, k ∈ Client.applyPreflightIncompatibleKeys (Some report)
               <-> k <> "" /\ k ∈ Orchestrator.incompatibleKeys report.
Proof.
  intros Hpost. unfold Client.applyPreflightIncompatibleKeys. split.
  - apply NoDup_filter, fold_set_add_NoDup, NoDup_nil_2.
  - intros k. rewrite list_elem_of_filter, fold_set_add_elem_of, !elem_of_app.
    rewrite elem_of_nil.
    assert (Hfallback :
      Auditor.key <$> filter (fun entry => decision entry <> installable) (perItem report)
      = Orchestrator.incompatibleKeys report).
    { unfold Orchestrator.incompatibleKeys. f_equal. apply list_filter_iff.
      intros row. unfold has_decision. by rewrite bool_decide_eq_false. }
    rewrite Hfallback.
    rewrite (OrchProps.POST_incompatibleKeys _ _ _ _ Hpost).
    revert Hpost. unfold POST. case_bool_decide; [done|]. intros [= <-].
    cbn [warningKeys blockedKeys].
    set (rows := imap _ items).
    assert (Hsub : forall d, d <> installable ->
              k ∈ key <$> filter (fun row => has_decision d row = true) rows ->
              k ∈ key <$> filter OrchProps.not_installable rows).
    { intros d Hd Hin. apply list_elem_of_fmap in Hin as (row & -> & Hrow).
      apply list_elem_of_filter in Hrow as [Hdec Hrow].
      apply list_elem_of_fmap_2, list_elem_of_filter. split; [|done].
      unfold OrchProps.not_installable, has_decision in *.
      apply bool_decide_eq_true_1 in Hdec. apply bool_decide_eq_false_2. congruence. }
    split.
    + intros [Hne [[]|[Hw|[Hb|Hf]]]].
      * split; [by destruct k | by apply (Hsub warning)].
      * split; [by destruct k | by apply (Hsub blocked)].
      * split; [by destruct k | done].
    + intros [Hne Hin]. split; [by destruct k|]. right. right. by right.
Qed.

(** The report of scenario E4. *)
Lemma page_keys_match_report_e4 :
  exists report,
    POST e4_server (Some "install") [e4_flash; e4_standard] = inr report
    /\ NoDup (Client.applyPreflightIncompatibleKeys (Some report))
    /\ forall k, k ∈ Client.applyPreflightIncompatibleKeys (Some report)
                 <-> k <> "" /\ k ∈ Orchestrator.incompatibleKeys report.
Proof.
  eexists. split; [reflexivity|].
  apply (page_keys_match_report e4_server (Some "install") [e4_flash; e4_standard]).
  reflexivity.
Defined.

(** X24.  File-name segments are made safe.  [sanitizeFileSegment] keeps the
    length, leaves only letters, digits, dot, underscore and dash, so no
    path separator survives, changes nothing in a segment that is already
    safe, and is therefore idempotent. *)
Theorem sanitizeFileSegment_safe (value : string) :
  String.length (CatalogAudit.sanitizeFileSegment value) = String.length value
  /\ Js.all_chars CatalogAudit.segment_char (CatalogAudit.sanitizeFileSegment value) = true
  /\ Js.includes "/" (CatalogAudit.sanitizeFileSegment value) = false
  /\ (Js.all_chars CatalogAudit.segment_char value = true ->
      CatalogAudit.sanitizeFileSegment value = value)
  /\ CatalogAudit.sanitizeFileSegment (CatalogAudit.sanitizeFileSegment value)
     = CatalogAudit.sanitizeFileSegment value.
Proof.
  split_and!.
  - induction value as [|c rest IH]; [done|]. simpl. by rewrite IH.
  - apply sanitize_safe.
  - eapply includes_char_false; [apply sanitize_safe | reflexivity].
  - apply sanitize_fixed.
  - apply sanitize_fixed, sanitize_safe.
Qed.

(** X25.  The history file of a compatibility set has a safe name.  Whatever
    the lock id, the creation stamp and the hardware marker contain, the
    name starts with "compat_set_", ends with ".json" (so the history
    listing keeps it), and consists of safe characters only: it names a
    file directly inside the history directory. *)
Theorem history_file_name_is_safe (setPayload : CatalogAudit.SetPayload) (now : string) :
  let name := CatalogAudit.historyFileName setPayload now in
  String.prefix "compat_set_" name = true
  /\ CatalogAudit.ends_with_json name = true
  /\ Js.all_chars CatalogAudit.segment_char name = true
  /\ Js.includes "/" name = false.
Proof.
  intros name. subst name. unfold CatalogAudit.historyFileName.
  set (lockId := CatalogAudit.sanitizeFileSegment _).
  assert (Hsafe : Js.all_chars CatalogAudit.segment_char
                    ("compat_set_" +:+ lockId +:+ ".json") = true).
  { rewrite !all_chars_app. unfold lockId. rewrite sanitize_safe. reflexivity. }
  split_and!.
  - simpl. match goal with |- String.prefix "" ?s = true => by destruct s end.
  - apply (ends_with_json_append ("compat_set_" +:+ lockId)).
  - exact Hsafe.
  - eapply includes_char_false; [exact Hsafe | reflexivity].
Qed.

End AuditorExtra.

(** ** Properties of the pruning of conflicting packages *)

Module PruneProps.
Import AutoHeal Prune.

Section Enforce.
Context `{host : Host}.
Variable backendDir : string.
Variable store_text : list TxEngine.EnvTx -> string.

Local Abbreviation M := (@TxEngine.M host).
Local Abbreviation World := (@TxEngine.World host).
Local Abbreviation Disk := (gmap string TxEngine.FileContent).
























End Enforce.

End PruneProps.

(** ** Statements about the pruning of conflicting packages *)

Module PruneExtra.
Import AutoHeal Prune PruneProps.



End PruneExtra.
